(** * confix: configuration resolution, loading and write-back

    A shallow embedding of the Go package [confix] (confix.go and its
    option constructors) together with the properties of its path
    resolver, decode-merge loader, write-back synchroniser and
    initialisation orchestrator.

    The package talks to three collaborators that are not part of it: the
    standard [path] package, the operating system ([os]: environment,
    file system, temp files) and the codec libraries (JSON, YAML, TOML).
    The first two are modelled below as executable definitions; the codecs
    are parameters of the development, as the package is generic in the
    record type [T]. *)

From Stdlib Require Import Ascii String DecimalString.
From stdpp Require Import gmap strings list.

Local Open Scope string_scope.
Local Open Scope list_scope.

(** ** Strings as the code uses them *)

Definition slash : ascii := "/"%char.
Definition dot : ascii := "."%char.

(** Neither a path separator nor a dot. *)
Definition plain (c : ascii) : bool :=
  negb (Ascii.eqb c slash) && negb (Ascii.eqb c dot).

Definition chars (s : string) : list ascii := list_ascii_of_string s.
Definition text (l : list ascii) : string := string_of_list_ascii l.

(** ** Go's [path] package: [Ext], [Clean], [Join], [Dir] *)

Module path.

(** [for i := len(path)-1; i >= 0 && path[i] != '/'; i--]: the scan runs
    over the characters from the last one back, [acc] is what was already
    passed. *)
Fixpoint ext_scan (rpath : list ascii) (acc : list ascii) : string :=
  match rpath with
  | [] => ""
  | c :: r =>
      if Ascii.eqb c slash then ""
      else if Ascii.eqb c dot then text (c :: acc)
      else ext_scan r (c :: acc)
  end.

Definition Ext (p : string) : string := ext_scan (rev (chars p)) [].

(** Splitting at every slash; the components may be empty. *)
Fixpoint split_slash (l : list ascii) (cur : list ascii) : list string :=
  match l with
  | [] => [text (rev cur)]
  | c :: r =>
      if Ascii.eqb c slash then text (rev cur) :: split_slash r []
      else split_slash r (c :: cur)
  end.

(** One component of [Clean]'s scan; [out] is the output written so far,
    last component first. *)
Definition clean_step (rooted : bool) (out : list string) (comp : string)
  : list string :=
  if bool_decide (comp = "") then out
  else if bool_decide (comp = ".") then out
  else if bool_decide (comp = "..") then
    match out with
    | top :: rest =>
        if bool_decide (top = "..") then comp :: out else rest
    | [] => if rooted then out else [comp]
    end
  else comp :: out.

Fixpoint join_slash (comps : list string) : string :=
  match comps with
  | [] => ""
  | [c] => c
  | c :: rest => c +:+ "/" +:+ join_slash rest
  end.

Definition is_rooted (p : string) : bool :=
  match p with
  | String c _ => Ascii.eqb c slash
  | EmptyString => false
  end.

Definition Clean (p : string) : string :=
  if bool_decide (p = "") then "."
  else
    let rooted := is_rooted p in
    let out := fold_left (clean_step rooted) (split_slash (chars p) []) [] in
    let body := join_slash (rev out) in
    if rooted then "/" +:+ body
    else if bool_decide (body = "") then "." else body.

(** [Join]: the elements are glued with slashes, empty leading elements
    are skipped, and the result is cleaned; no element at all gives the
    empty string. *)
Fixpoint join_buf (buf : string) (elem : list string) : string :=
  match elem with
  | [] => buf
  | e :: rest =>
      if bool_decide (buf = "") then join_buf e rest
      else join_buf (buf +:+ "/" +:+ e) rest
  end.

Definition Join (elem : list string) : string :=
  if bool_decide (join_buf "" elem = "") then "" else Clean (join_buf "" elem).

(** [Split] cuts after the last slash; [Dir] is the cleaned first half. *)
Fixpoint dir_scan (rpath : list ascii) : list ascii :=
  match rpath with
  | [] => []
  | c :: r => if Ascii.eqb c slash then rpath else dir_scan r
  end.

Definition Dir (p : string) : string :=
  Clean (text (rev (dir_scan (rev (chars p))))).

End path.

(** ** Go's error values

    [error] covers the error values that travel through the package:
    the [os] package's path and link errors, [errors.New] / [fmt.Errorf]
    strings, [fmt.Errorf] with [%w], and [errors.Join]. A Go [error] that
    may be [nil] is an [option error]. *)

Module errors.

(** The causes the [os] package reports: the system's error numbers,
    and [errPatternHasSeparator] of [os.CreateTemp]. *)
Inductive Errno :=
  ENOENT | EACCES | EISDIR | ENOTDIR | EEXIST | EXDEV | EPATTERN.

#[warnings="-register-all"]
Inductive error :=
| PathError (op : string) (name : string) (errno : Errno)
| LinkError (op : string) (old : string) (new : string) (errno : Errno)
| errorString (msg : string)
| wrapError (msg : string) (err : error)
| joinError (errs : list error).

(** [errors.New] and [fmt.Errorf] without a [%w] verb. *)
Definition New (msg : string) : error := errorString msg.

Definition errno_text (e : Errno) : string :=
  match e with
  | ENOENT => "no such file or directory"
  | EACCES => "permission denied"
  | EISDIR => "is a directory"
  | ENOTDIR => "not a directory"
  | EEXIST => "file exists"
  | EXDEV => "invalid cross-device link"
  | EPATTERN => "pattern contains path separator"
  end.

Definition newline : string := String (ascii_of_nat 10) EmptyString.

(** The [Error() string] method. *)
Fixpoint Error (e : error) : string :=
  let fix lines (l : list error) : string :=
    match l with
    | [] => ""
    | [x] => Error x
    | x :: rest => Error x +:+ newline +:+ lines rest
    end in
  match e with
  | PathError op name errno => op +:+ " " +:+ name +:+ ": " +:+ errno_text errno
  | LinkError op old new errno =>
      op +:+ " " +:+ old +:+ " " +:+ new +:+ ": " +:+ errno_text errno
  | errorString msg => msg
  | wrapError msg err => msg +:+ Error err
  | joinError errs => lines errs
  end.

(** [errors.Join]: the [nil] arguments are dropped; no argument left
    gives [nil]. *)
Definition Join (errs : list (option error)) : option error :=
  match omap id errs with
  | [] => None
  | l => Some (joinError l)
  end.

(** The errors reachable from [e] through [Unwrap], [e] first: what
    [errors.Is] walks through. *)
Fixpoint tree (e : error) : list error :=
  let fix trees (l : list error) : list error :=
    match l with
    | [] => []
    | x :: rest => tree x ++ trees rest
    end in
  e :: match e with
       | wrapError _ err => tree err
       | joinError errs => trees errs
       | _ => []
       end.

Definition Is (err target : error) : Prop := target ∈ tree err.

(** [errors.Is(err, os.ErrNotExist)]. *)
Definition IsNotExist (err : error) : bool :=
  match err with
  | PathError _ _ ENOENT => true
  | LinkError _ _ _ ENOENT => true
  | _ => false
  end.

End errors.

Export errors (error, Errno).

(** ** Results and the state monad of the embedding

    A Go function returning [(A, error)] is a computation of type
    [ST S A]: it runs on a state and gives a value or an error together
    with the state it leaves behind. State changes made before an error
    stay, as in Go. *)

Inductive result (A : Type) : Type :=
| Ok (a : A)
| Fail (e : error).

Arguments Ok {A} a.
Arguments Fail {A} e.

Definition ST (S A : Type) : Type := S → result A * S.

Definition ret {S A} (a : A) : ST S A := λ s, (Ok a, s).
Definition fail {S A} (e : error) : ST S A := λ s, (Fail e, s).

(** [x, err := m; if err != nil { return err }; k x] *)
Definition bind {S A B} (m : ST S A) (k : A → ST S B) : ST S B :=
  λ s, match m s with
       | (Ok a, s') => k a s'
       | (Fail e, s') => (Fail e, s')
       end.

(** [x, err := m] with the error inspected by the caller. *)
Definition attempt {S A} (m : ST S A) : ST S (result A) :=
  λ s, let (r, s') := m s in (Ok r, s').

(** [_ = m]: the error is discarded. *)
Definition ignore {S A} (m : ST S A) : ST S unit :=
  λ s, let (_, s') := m s in (Ok tt, s').

(** [defer cleanup(); body]: the cleanup runs on every exit of [body]. *)
Definition defer {S A B} (cleanup : ST S B) (body : ST S A) : ST S A :=
  λ s, let (r, s') := body s in (r, snd (cleanup s')).

Definition get {S} : ST S S := λ s, (Ok s, s).
Definition modify {S} (f : S → S) : ST S unit := λ s, (Ok tt, f s).

(** The [error] a computation returns: [nil] is [None]. *)
Definition err_of {A} (r : result A) : option error :=
  match r with
  | Ok _ => None
  | Fail e => Some e
  end.

#[global] Instance ST_ret {S} : MRet (ST S) := λ A a, ret a.
#[global] Instance ST_bind {S} : MBind (ST S) := λ A B k m, bind m k.

(** ** The operating system

    The file system is a finite map from path names to nodes. A path
    with no node does not exist; the directories on the way to a path
    are not modelled (only the temp directory must be there for
    [os.CreateTemp]), so a name with no node can always be created. An
    [Inaccessible] node stands for a path that cannot be looked up at all
    (a directory on the way is not searchable): every call on it fails
    with [EACCES], which is not a not-found error. The rest of the world
    is the process environment, what [os.Executable] and [os.TempDir]
    return, the paths that lie on another device than the temp area (a
    rename from the temp area onto them fails with [EXDEV]), the numbers
    [os.CreateTemp] will draw for its file names, the order in which
    goroutines started together get to run, and the lines written by
    [log.Printf]. *)

Module os.

Inductive node :=
| Regular (data : string)
| Directory (size : N)
| Inaccessible.

Record World := mkWorld {
  environ : gmap string string;
  executable : string;
  tempdir : string;
  files : gmap string node;
  xdev : gset string;
  random : list N;
  sched : list nat;
  logged : list string
}.

Definition set_files (f : gmap string node → gmap string node) (w : World)
  : World :=
  mkWorld (environ w) (executable w) (tempdir w) (f (files w)) (xdev w)
    (random w) (sched w) (logged w).

Definition set_random (r : list N) (w : World) : World :=
  mkWorld (environ w) (executable w) (tempdir w) (files w) (xdev w)
    r (sched w) (logged w).

Definition add_log (line : string) (w : World) : World :=
  mkWorld (environ w) (executable w) (tempdir w) (files w) (xdev w)
    (random w) (sched w) (logged w ++ [line]).

Record FileInfo := mkFileInfo { Size : N; IsDir : bool }.

(** An open file: its name and the node it was opened on. *)
Record File := mkFile { Name : string; inode : node }.

Definition info (n : node) : FileInfo :=
  match n with
  | Regular data => mkFileInfo (N.of_nat (String.length data)) false
  | Directory size => mkFileInfo size true
  | Inaccessible => mkFileInfo 0 false
  end.

Definition Getenv (key : string) (w : World) : string :=
  default "" (environ w !! key).

(** [os.Executable()] with its error dropped: the path name of the
    running program, empty when it could not be found out. *)
Definition Executable (w : World) : string := executable w.

Definition TempDir (w : World) : string := tempdir w.

Definition Stat (name : string) : ST World FileInfo :=
  λ w, match files w !! name with
       | None => (Fail (errors.PathError "stat" name errors.ENOENT), w)
       | Some Inaccessible => (Fail (errors.PathError "stat" name errors.EACCES), w)
       | Some n => (Ok (info n), w)
       end.

Definition Open (name : string) : ST World File :=
  λ w, match files w !! name with
       | None => (Fail (errors.PathError "open" name errors.ENOENT), w)
       | Some Inaccessible => (Fail (errors.PathError "open" name errors.EACCES), w)
       | Some n => (Ok (mkFile name n), w)
       end.

(** [f.Stat()] on an open file; it does not fail on a file that was
    opened. *)
Definition File_Stat (f : File) : ST World FileInfo :=
  λ w, (Ok (info (inode f)), w).

Definition File_Close (f : File) : ST World unit := λ w, (Ok tt, w).

(** What a reader gets out of an open file. *)
Definition File_Read (f : File) : result string :=
  match inode f with
  | Regular data => Ok data
  | _ => Fail (errors.PathError "read" (Name f) errors.EISDIR)
  end.

(** Writing through an open file appends to the regular file under its
    name. *)
Definition File_Write (f : File) (data : string) : ST World unit :=
  λ w, match files w !! Name f with
       | Some (Regular old) =>
           (Ok tt, set_files <[Name f := Regular (old +:+ data)]> w)
       | _ => (Fail (errors.PathError "write" (Name f) errors.ENOENT), w)
       end.

(** [os.Create]: the file is created, or truncated when it is there. *)
Definition Create (name : string) : ST World File :=
  λ w, match files w !! name with
       | Some (Directory _) =>
           (Fail (errors.PathError "open" name errors.EISDIR), w)
       | Some Inaccessible =>
           (Fail (errors.PathError "open" name errors.EACCES), w)
       | _ => (Ok (mkFile name (Regular "")),
               set_files <[name := Regular ""]> w)
       end.

Definition has_slash (s : string) : bool :=
  existsb (λ c, Ascii.eqb c slash) (chars s).

(** [prefixAndSuffix]: the pattern is cut at its last star. *)
Fixpoint cut_last_star (rpat : list ascii) (suffix : list ascii)
  : option (string * string) :=
  match rpat with
  | [] => None
  | c :: r =>
      if Ascii.eqb c "*"%char then Some (text (rev r), text suffix)
      else cut_last_star r (c :: suffix)
  end.

Definition prefixAndSuffix (pattern : string) : string * string :=
  match cut_last_star (rev (chars pattern)) [] with
  | Some ps => ps
  | None => (pattern, "")
  end.

Definition ends_with_slash (s : string) : bool :=
  match rev (chars s) with
  | c :: _ => Ascii.eqb c slash
  | [] => false
  end.

Definition joinPath (dir name : string) : string :=
  if ends_with_slash dir then dir +:+ name else dir +:+ "/" +:+ name.

Definition itoa (n : N) : string := NilZero.string_of_uint (N.to_uint n).

(** The retry loop of [os.CreateTemp]: a name that is taken is skipped
    and the next number is drawn; the numbers left are given back. *)
Fixpoint temp_try (pre suf : string) (nums : list N) (fs : gmap string node)
  : result string * list N :=
  match nums with
  | [] => (Fail (errors.PathError "createtemp" (pre +:+ "*" +:+ suf) errors.EEXIST), [])
  | n :: rest =>
      let name := pre +:+ itoa n +:+ suf in
      match fs !! name with
      | None => (Ok name, rest)
      | Some Inaccessible => (Fail (errors.PathError "open" name errors.EACCES), rest)
      | Some _ => temp_try pre suf rest fs
      end
  end.

Definition CreateTemp (dir pattern : string) : ST World File :=
  λ w,
    if has_slash pattern then
      (Fail (errors.PathError "createtemp" pattern errors.EPATTERN), w)
    else
      let '(pre, suf) := prefixAndSuffix pattern in
      match files w !! dir with
      | Some (Directory _) =>
          match temp_try (joinPath dir pre) suf (random w) (files w) with
          | (Ok name, rest) =>
              (Ok (mkFile name (Regular "")),
               set_files <[name := Regular ""]> (set_random rest w))
          | (Fail e, rest) => (Fail e, set_random rest w)
          end
      | Some (Regular _) =>
          (Fail (errors.PathError "open" (joinPath dir pre) errors.ENOTDIR), w)
      | Some Inaccessible =>
          (Fail (errors.PathError "open" (joinPath dir pre) errors.EACCES), w)
      | None =>
          (Fail (errors.PathError "open" (joinPath dir pre) errors.ENOENT), w)
      end.

(** [os.Rename]: a target on another device, a directory or an
    inaccessible path in the way make it fail; otherwise the node moves
    and replaces what was at the target. *)
Definition Rename (oldpath newpath : string) : ST World unit :=
  λ w, match files w !! oldpath with
       | None =>
           (Fail (errors.LinkError "rename" oldpath newpath errors.ENOENT), w)
       | Some Inaccessible =>
           (Fail (errors.LinkError "rename" oldpath newpath errors.EACCES), w)
       | Some n =>
           if bool_decide (newpath ∈ xdev w) then
             (Fail (errors.LinkError "rename" oldpath newpath errors.EXDEV), w)
           else
             match files w !! newpath with
             | Some (Directory _) =>
                 (Fail (errors.LinkError "rename" oldpath newpath errors.EEXIST), w)
             | Some Inaccessible =>
                 (Fail (errors.LinkError "rename" oldpath newpath errors.EACCES), w)
             | _ => (Ok tt, set_files (λ fs, <[newpath := n]> (delete oldpath fs)) w)
             end
       end.

Definition Remove (name : string) : ST World unit :=
  λ w, match files w !! name with
       | None => (Fail (errors.PathError "remove" name errors.ENOENT), w)
       | Some Inaccessible =>
           (Fail (errors.PathError "remove" name errors.EACCES), w)
       | Some _ => (Ok tt, set_files (delete name) w)
       end.

End os.

Export os (World, File, Name).

(** [log.Printf]. *)
Definition log_Printf (line : string) : ST World unit :=
  λ w, (Ok tt, os.add_log line w).

(** The [%q] verb on a string without characters to escape. *)
Definition quoted (s : string) : string :=
  let dq := String (ascii_of_nat 34) EmptyString in dq +:+ s +:+ dq.

(** ** The codec libraries

    [encoding/json], [yaml.v3] and [BurntSushi/toml] are collaborators of
    the package. A decoder reads an open file and overlays what it finds
    onto the record it is given; it hands back the record as it left it
    and its error. An encoder, set up with an indentation or left at its
    default, turns the record into the text it writes and its error. *)

Inductive format := JSON | YAML | TOML.

#[global] Instance format_eq_dec : EqDecision format.
Proof. solve_decision. Defined.

Class Codec (T : Type) := {
  Decode : format → File → T → T * option error;
  Encode : format → option nat → T → string * option error
}.

(** The [encoder] interface: a format with its settings, bound to the
    writer it was created on. *)
Record encoder := mkEncoder {
  enc_format : format;
  enc_indent : option nat;
  enc_out : File
}.

Definition jsonConfigFileName : string := "config.json".
Definition tomlConfigFileName : string := "config.toml".
Definition yamlConfigFileName : string := "config.yaml".
Definition ymlConfigFileName : string := "config.yml".

Definition DirEnvName : string := "CONFIG_DIR_PATH".
Definition FilePathEnvName : string := "CONFIG_FILE_PATH".

(** [var currentDir, _ = os.Executable()] *)
Definition currentDir (w : World) : string := os.Executable w.

(** ** The package *)

Section confix.

Context {T : Type} {codec : Codec T}.

(** [config[T]]: the resolved paths and the caller's record ([cfg] is a
    pointer in the code: what is decoded into it is the caller's). *)
Record config := mkConfig {
  paths : list string;
  cfg : T
}.

(** The state a method of [*config[T]] runs on. *)
Record state := mkState {
  self : config;
  world : World
}.

(** A call into the operating system. *)
Definition sys {A} (m : ST World A) : ST state A :=
  λ s, let (r, w) := m (world s) in (r, mkState (self s) w).

Definition set_paths (ps : list string) : ST state unit :=
  modify (λ s, mkState (mkConfig ps (cfg (self s))) (world s)).

Definition fileExists (path : string) : ST World bool :=
  r ← attempt (os.Stat path);
  mret (match r with
        | Ok f => negb (os.IsDir f)
        | Fail _ => false
        end).

Fixpoint getExistingPaths_from (result : list string) (paths : list string)
  : ST World (list string) :=
  match paths with
  | [] => mret result
  | p :: rest =>
      b ← fileExists p;
      getExistingPaths_from (if b : bool then result ++ [p] else result) rest
  end.

Definition getExistingPaths (paths : list string) : ST World (list string) :=
  getExistingPaths_from [] paths.

Definition createTempFile (ext : string) : ST World File :=
  λ w, os.CreateTemp (os.TempDir w) ext w.

Definition getEncoderForFile (ext : string) (f : File) : result encoder :=
  if bool_decide (ext = ".json") then Ok (mkEncoder JSON (Some 2) f)
  else if bool_decide (ext = ".toml") then Ok (mkEncoder TOML None f)
  else if bool_decide (ext = ".yaml") || bool_decide (ext = ".yml") then
    Ok (mkEncoder YAML (Some 2) f)
  else Fail (errors.New ("unsupported file extension: " +:+ ext)).

(** [e.Encode(v)]: the text goes to the encoder's writer. *)
Definition encoder_Encode (e : encoder) (v : T) : ST World unit :=
  let (data, err) := Encode (enc_format e) (enc_indent e) v in
  os.File_Write (enc_out e) data;;
  match err with
  | Some x => fail x
  | None => mret tt
  end.

Definition encodeToFile (f : File) : ST state unit :=
  e ← (λ s, (getEncoderForFile (path.Ext (Name f)) f, s));
  s ← get;
  sys (encoder_Encode e (cfg (self s))).

Definition writeToFile (fPath : string) : ST state unit :=
  f ← sys (createTempFile ("config*" +:+ path.Ext fPath));
  defer (sys (ignore (os.File_Close f);; ignore (os.Remove (Name f))))
    (encodeToFile f;;
     r ← attempt (sys (os.Rename (Name f) fPath));
     match r with
     | Fail err =>
         sys (log_Printf ("ERROR: os.Rename(" +:+ quoted (Name f) +:+ ", "
                          +:+ quoted fPath +:+ "); err=" +:+ errors.Error err));;
         mret tt
     | Ok _ => mret tt
     end).

Definition setConfigPathForOneFile (configPath : string) : ST state unit :=
  b ← sys (fileExists configPath);
  if b : bool then set_paths [configPath]
  else
    f ← sys (os.Create configPath);
    sys (ignore (os.File_Close f));;
    writeToFile (Name f).

Definition getConfigPaths : ST state unit :=
  λ s,
    let configPath := os.Getenv FilePathEnvName (world s) in
    let configDir := os.Getenv DirEnvName (world s) in
    if negb (bool_decide (configPath = "")) then
      setConfigPathForOneFile configPath s
    else if negb (bool_decide (configDir = "")) then
      (ps ← sys (getExistingPaths [
           path.Join [configDir; jsonConfigFileName];
           path.Join [configDir; tomlConfigFileName];
           path.Join [configDir; ymlConfigFileName];
           path.Join [configDir; yamlConfigFileName]]);
       set_paths ps) s
    else
      (ps ← sys (getExistingPaths [
           path.Join [currentDir (world s); tomlConfigFileName];
           path.Join [currentDir (world s); jsonConfigFileName];
           path.Join [currentDir (world s); ymlConfigFileName];
           path.Join [currentDir (world s); yamlConfigFileName];
           tomlConfigFileName;
           jsonConfigFileName;
           ymlConfigFileName;
           yamlConfigFileName]);
       set_paths ps) s.

(** [err = dec.Decode(c.cfg)]: the record is the decoder's to change,
    whether it reports an error or not. *)
Definition decoder_Decode (fmt : format) (f : File) : ST state (option error) :=
  λ s, let (v, err) := Decode fmt f (cfg (self s)) in
       (Ok err, mkState (mkConfig (paths (self s)) v) (world s)).

Definition decode_or (fmt : format) (f : File) (msg : string) : ST state unit :=
  err ← decoder_Decode fmt f;
  match err with
  | Some e => fail (errors.wrapError msg e)
  | None => mret tt
  end.

Definition processPath (p : string) : ST state unit :=
  r ← attempt (sys (os.Open p));
  match r with
  | Fail err => if errors.IsNotExist err then mret tt else fail err
  | Ok f =>
      defer (sys (ignore (os.File_Close f)))
        (st ← attempt (sys (os.File_Stat f));
         if match st with
            | Ok fi => bool_decide (os.Size fi = 0%N)
            | Fail _ => false
            end
         then mret tt
         else
           let ext := path.Ext p in
           if bool_decide (ext = ".json") then
             decode_or JSON f "error while decoding json file: "
           else if bool_decide (ext = ".yaml") || bool_decide (ext = ".yml") then
             decode_or YAML f "error while decoding yaml file: "
           else if bool_decide (ext = ".toml") then
             decode_or TOML f "error while decoding toml file: "
           else fail (errors.New ("unsupported file extension: " +:+ ext)))
  end.

Fixpoint load_from (ps : list string) : ST state unit :=
  match ps with
  | [] => mret tt
  | p :: rest => processPath p;; load_from rest
  end.

Definition load : ST state unit :=
  λ s, load_from (paths (self s)) s.

(** [writeToFileAsync]: the goroutine of one path. [wg] is the wait
    group's counter, [errCh] what the error channel holds. *)
Definition writeToFileAsync (wg : nat) (fPath : string) (errCh : list error)
  : ST state (nat * list error) :=
  r ← attempt (writeToFile fPath);
  mret (pred wg, match r with
                 | Fail err => errCh ++ [err]
                 | Ok _ => errCh
                 end).

(** The order in which [n] goroutines started together get to run: the
    world's scheduler names them, the ones it leaves out follow. Each
    goroutine writes through a temp file of its own, so its run is taken
    as one step. *)
Definition completion_order (n : nat) (sched : list nat) : list nat :=
  let named := remove_dups (filter (λ i, i < n) sched) in
  named ++ list_difference (seq 0 n) named.

Fixpoint run_goroutines (targets : list string) (wg : nat) (errCh : list error)
  : ST state (nat * list error) :=
  match targets with
  | [] => mret (wg, errCh)
  | fPath :: rest =>
      '(wg', errCh') ← writeToFileAsync wg fPath errCh;
      run_goroutines rest wg' errCh'
  end.

Definition writeToFiles : ST state unit :=
  λ s,
    let ps := paths (self s) in
    let order := completion_order (length ps) (os.sched (world s)) in
    ('(wg, errCh) ← run_goroutines (omap (λ i, ps !! i) order) (length ps) [];
     let resultErr :=
       fold_left (λ acc err, errors.Join [acc; Some err]) errCh None in
     match resultErr with
     | Some e => fail e
     | None => mret tt
     end) s.

(** ** Options *)

(** [afterOptionFunc[T]]; [Option[T]] is the interface it implements. *)
Definition afterOptionFunc : Type := ST state unit.
Definition Option : Type := afterOptionFunc.
Definition apply (f : Option) : ST state unit := f.

Definition WithValidation (f : T → T * option error) : Option :=
  λ s, let (v, err) := f (cfg (self s)) in
       (match err with
        | Some e => Fail e
        | None => Ok tt
        end, mkState (mkConfig (paths (self s)) v) (world s)).

Definition WithWritingConfigToFile (f : string) : Option := writeToFile f.

Definition WithSyncingConfigToFiles : Option := writeToFiles.

Fixpoint apply_all (afterFunc : list Option) : ST state unit :=
  match afterFunc with
  | [] => mret tt
  | f :: rest => apply f;; apply_all rest
  end.

Definition newConfig (cfg : T) (afterFunc : list Option) (w : World)
  : result config * state :=
  (getConfigPaths;;
   load;;
   apply_all afterFunc;;
   s ← get;
   mret (self s)) (mkState (mkConfig [] cfg) w).

(** [New]: the error, and what the call leaves behind: the caller's
    record and the world. *)
Definition New (cfg0 : T) (afterInit : list Option) (w : World)
  : option error * T * World :=
  let (r, s) := newConfig cfg0 afterInit w in
  (err_of r, cfg (self s), world s).

End confix.

Arguments config : clear implicits.
Arguments state : clear implicits.
Arguments afterOptionFunc : clear implicits.
Arguments Option : clear implicits.

(** ** The records and codecs of the package's tests

    [testConfig] is the one-field record of the tests, with a codec that
    reads and writes the one-line forms of that field in the three
    formats; [unparsableConfig] is the record whose JSON form can be
    neither read nor written. *)

Record testConfig := mkTestConfig { A : string }.

Definition dq : string := String (ascii_of_nat 34) EmptyString.

Fixpoint strip_prefix (pre s : list ascii) : option (list ascii) :=
  match pre, s with
  | [], _ => Some s
  | a :: pre', b :: s' => if Ascii.eqb a b then strip_prefix pre' s' else None
  | _ :: _, [] => None
  end.

(** The text between [pre] and [suf], when [s] has that shape. *)
Definition between (pre suf s : string) : option string :=
  body ← strip_prefix (chars pre) (chars s);
  v ← strip_prefix (rev (chars suf)) (rev body);
  Some (text (rev v)).

Definition test_shape (fmt : format) : string * string :=
  match fmt with
  | JSON => ("{" +:+ dq +:+ "a" +:+ dq +:+ ":" +:+ dq, dq +:+ "}")
  | YAML => ("a: " +:+ dq, dq)
  | TOML => ("a = " +:+ dq, dq)
  end.

Definition test_Decode (fmt : format) (f : File) (v : testConfig)
  : testConfig * option error :=
  match os.File_Read f with
  | Fail e => (v, Some e)
  | Ok data =>
      if bool_decide (data = "{}") && bool_decide (fmt = JSON) then (v, None)
      else
        match between (fst (test_shape fmt)) (snd (test_shape fmt)) data with
        | Some a => (mkTestConfig a, None)
        | None => (v, Some (errors.New "cannot unmarshal"))
        end
  end.

Definition test_Encode (fmt : format) (indent : option nat) (v : testConfig)
  : string * option error :=
  (fst (test_shape fmt) +:+ A v +:+ snd (test_shape fmt), None).

#[global] Instance testCodec : Codec testConfig :=
  {| Decode := test_Decode; Encode := test_Encode |}.

Definition unparsableConfig : Type := unit.

Definition errUnparsable : error := errors.New "unparsable".

#[global] Instance unparsableCodec : Codec unparsableConfig :=
  {| Decode := λ fmt f v,
       match fmt with
       | JSON => (v, Some errUnparsable)
       | _ => (v, None)
       end;
     Encode := λ fmt indent v,
       match fmt with
       | JSON => ("", Some errUnparsable)
       | YAML => ("{}", None)
       | TOML => ("", None)
       end |}.

(** ** Notions used in the statements *)

(** A regular file is there at [p]. *)
Definition is_regular (w : World) (p : string) : bool :=
  match os.files w !! p with
  | Some (os.Regular _) => true
  | _ => false
  end.

(** The candidates of the directory search, in its order. *)
Definition directory_candidates (d : string) : list string :=
  [path.Join [d; jsonConfigFileName]; path.Join [d; tomlConfigFileName];
   path.Join [d; ymlConfigFileName]; path.Join [d; yamlConfigFileName]].

(** The basenames in the order of the default search. *)
Definition default_basenames : list string :=
  [tomlConfigFileName; jsonConfigFileName; ymlConfigFileName;
   yamlConfigFileName].

(** The candidates of the default search as the code builds them. *)
Definition default_candidates (w : World) : list string :=
  map (λ b, path.Join [currentDir w; b]) default_basenames ++ default_basenames.

(** The candidates of the default search as the specification words
    them: the basenames joined against the directory that contains the
    running executable, then the bare basenames. *)
Definition spec_default_candidates (w : World) : list string :=
  map (λ b, path.Join [path.Dir (os.Executable w); b]) default_basenames
  ++ default_basenames.

Definition format_of_ext (ext : string) : option format :=
  if bool_decide (ext = ".json") then Some JSON
  else if bool_decide (ext = ".toml") then Some TOML
  else if bool_decide (ext = ".yaml") || bool_decide (ext = ".yml") then Some YAML
  else None.

Definition format_name (fmt : format) : string :=
  match fmt with
  | JSON => "json"
  | YAML => "yaml"
  | TOML => "toml"
  end.

(** The indentation [getEncoderForFile] sets for a format. *)
Definition indent_of (fmt : format) : option nat :=
  match fmt with
  | TOML => None
  | _ => Some 2
  end.

Section notions.

Context {T : Type} {codec : Codec T}.

(** What the package's encoder for [fmt] writes for a record, and the
    error it reports. *)
Definition encoding (fmt : format) (v : T) : string :=
  fst (Encode fmt (indent_of fmt) v).

Definition encoding_error (fmt : format) (v : T) : option error :=
  snd (Encode fmt (indent_of fmt) v).

(** The state [newConfig] starts from. *)
Definition initial (cfg0 : T) (w : World) : state T :=
  mkState (mkConfig [] cfg0) w.

(** The options of a list succeed one after the other, each on the state
    the one before it left. *)
Inductive applied_in_order : state T → list (Option T) → state T → Prop :=
| applied_nil s : applied_in_order s [] s
| applied_cons s s1 s2 f rest :
    apply f s = (Ok tt, s1) →
    applied_in_order s1 rest s2 →
    applied_in_order s (f :: rest) s2.

(** One write after the other, with what each returned. *)
Fixpoint write_each (targets : list string) (s : state T)
  : list (string * option error) * state T :=
  match targets with
  | [] => ([], s)
  | fPath :: rest =>
      let (r, s1) := writeToFile fPath s in
      let (outs, s2) := write_each rest s1 in
      ((fPath, err_of r) :: outs, s2)
  end.

End notions.

(** The line [writeToFile] logs for a failed rename. *)
Definition rename_line (tmp fPath : string) (err : error) : string :=
  "ERROR: os.Rename(" +:+ quoted tmp +:+ ", " +:+ quoted fPath
  +:+ "); err=" +:+ errors.Error err.

(** A name of one component that [Clean] keeps as it is. *)
Definition simple_name (b : string) : Prop :=
  forallb (λ c, negb (Ascii.eqb c slash)) (chars b) = true
  ∧ b ≠ "" ∧ b ≠ "." ∧ b ≠ "..".

(** A node that can be looked up. *)
Definition accessible (n : os.node) : Prop := n ≠ os.Inaccessible.

(** Why a rename onto [p] fails, if it does. *)
Definition rename_errno (w : World) (p : string) : option Errno :=
  if bool_decide (p ∈ os.xdev w) then Some errors.EXDEV
  else match os.files w !! p with
       | Some (os.Directory _) => Some errors.EEXIST
       | Some os.Inaccessible => Some errors.EACCES
       | _ => None
       end.

Definition is_digit (c : ascii) : bool :=
  existsb (Ascii.eqb c) (chars "0123456789").

Definition star : ascii := "*"%char.

Definition no_star (c : ascii) : bool := negb (Ascii.eqb c star).

(** What draining the error channel into [errors.Join] gives. *)
Definition drained (acc : option error) (errCh : list error) : option error :=
  fold_left (λ acc err, errors.Join [acc; Some err]) errCh acc.

(** ** Worlds for the examples *)

Definition bare_world (fs : gmap string os.node) (env : gmap string string)
  : World :=
  os.mkWorld env "/opt/app/bin/server" "/tmp" fs ∅ [4021; 7; 7; 1980]%N [] [].

Definition json_x : string := "{" +:+ dq +:+ "a" +:+ dq +:+ ":" +:+ dq +:+ "x" +:+ dq +:+ "}".
Definition yaml_y : string := "a: " +:+ dq +:+ "y" +:+ dq.

Definition toml_x : string := "a = " +:+ dq +:+ "x" +:+ dq.

(** A configuration directory with a JSON and a YAML file. *)
Definition directory_world : World :=
  bare_world
    (<["/tmp" := os.Directory 4096]>
       (<["/etc/app/config.json" := os.Regular json_x]>
          (<["/etc/app/config.yaml" := os.Regular yaml_y]> ∅)))
    {[ DirEnvName := "/etc/app" ]}.

(** A hinted directory that cannot be searched: none of its entries can
    be looked up. *)
Definition locked_world : World :=
  bare_world
    (<["/tmp" := os.Directory 4096]>
       (<["/etc/app/config.json" := os.Inaccessible]>
          (<["/etc/app/config.toml" := os.Inaccessible]>
             (<["/etc/app/config.yml" := os.Inaccessible]>
                (<["/etc/app/config.yaml" := os.Inaccessible]> ∅)))))
    {[ DirEnvName := "/etc/app" ]}.

(** No hint, and a [config.toml] next to the executable
    [/opt/app/bin/server]. *)
Definition installed_world : World :=
  bare_world
    (<["/tmp" := os.Directory 4096]>
       (<["/opt/app/bin/server" := os.Regular "ELF"]>
          (<["/opt/app/bin/config.toml" := os.Regular toml_x]> ∅)))
    ∅.

(** No hint and no configuration file anywhere. *)
Definition fresh_world : World :=
  bare_world
    (<["/tmp" := os.Directory 4096]>
       (<["/opt/app/bin/server" := os.Regular "ELF"]> ∅))
    ∅.

(** An explicit file that is not there yet. *)
Definition explicit_world : World :=
  bare_world (<["/tmp" := os.Directory 4096]> ∅)
    {[ FilePathEnvName := "/etc/app/config.json" ]}.

(** The same, with the file's place on another device than the temp
    area. *)
Definition explicit_xdev_world : World :=
  os.mkWorld {[ FilePathEnvName := "/etc/app/config.json" ]}
    "/opt/app/bin/server" "/tmp" (<["/tmp" := os.Directory 4096]> ∅)
    {[ "/etc/app/config.json" ]} [4021; 7; 7; 1980]%N [] [].

Definition seed : testConfig := mkTestConfig "seed".

(** A validation that rejects every record. *)
Definition reject (v : testConfig) : testConfig * option error :=
  (v, Some (errors.New "rejected")).

(** A handle whose first file is not JSON. *)
Definition broken_state : state testConfig :=
  mkState (mkConfig ["/etc/app/config.json"; "/etc/app/config.yaml"] seed)
    (bare_world
       (<["/tmp" := os.Directory 4096]>
          (<["/etc/app/config.json" := os.Regular "not json"]>
             (<["/etc/app/config.yaml" := os.Regular yaml_y]> ∅)))
       ∅).

(** A handle with three paths, the last of an extension no encoder
    exists for, and a scheduler that lets the last goroutine run first. *)
Definition sync_state : state testConfig :=
  mkState
    (mkConfig ["/etc/app/config.json"; "/etc/app/config.yaml";
               "/etc/app/notes.txt"] seed)
    (os.mkWorld ∅ "/opt/app/bin/server" "/tmp"
       (<["/tmp" := os.Directory 4096]>
          (<["/etc/app/config.json" := os.Regular json_x]>
             (<["/etc/app/config.yaml" := os.Regular yaml_y]>
                (<["/etc/app/notes.txt" := os.Regular "notes"]> ∅))))
       ∅ [4021; 7; 7; 1980]%N [2; 0] []).

(** A handle whose target lies on another device than the temp area. *)
Definition xdev_state : state testConfig :=
  mkState (mkConfig [] seed)
    (os.mkWorld ∅ "/opt/app/bin/server" "/tmp"
       (<["/tmp" := os.Directory 4096]> ∅)
       {[ "/data/out.json" ]} [4021; 7; 7; 1980]%N [] []).

(** A handle whose first file is empty and of an extension no decoder
    exists for. *)
Definition skipped_state : state testConfig :=
  mkState (mkConfig ["/etc/app/notes.txt"; "/etc/app/config.yaml"] seed)
    (bare_world
       (<["/tmp" := os.Directory 4096]>
          (<["/etc/app/notes.txt" := os.Regular ""]>
             (<["/etc/app/config.yaml" := os.Regular yaml_y]> ∅)))
       ∅).

(** The handle of the test with a record that cannot be written as
    JSON: an explicit, empty [config.json] and a sync to it. *)
Definition unparsable_world : World :=
  bare_world
    (<["/tmp" := os.Directory 4096]>
       (<["/tmp/config1.json" := os.Regular ""]> ∅))
    {[ FilePathEnvName := "/tmp/config1.json" ]}.

(** ** The hints set from the program

    [SetConfigDir] and [SetConfigPath] write the two environment
    variables the resolver reads. [os.Setenv] refuses an empty key, a key
    with an equals sign or a zero byte, and a value with a zero byte;
    its error is always a [*os.SyscallError] of the call [setenv] with
    the cause [EINVAL]. *)

Record SyscallError := mkSyscallError { Syscall : string }.

(** The [Error() string] method of a [SyscallError] whose cause is
    [EINVAL]. *)
Definition SyscallError_Error (e : SyscallError) : string :=
  Syscall e +:+ ": invalid argument".

Definition nul : ascii := ascii_of_nat 0.

Definition has_byte (b : ascii) (s : string) : bool :=
  existsb (Ascii.eqb b) (chars s).

Definition set_environ (f : gmap string string → gmap string string)
    (w : World) : World :=
  os.mkWorld (f (os.environ w)) (os.executable w) (os.tempdir w) (os.files w)
    (os.xdev w) (os.random w) (os.sched w) (os.logged w).

(** [os.Setenv]. *)
Definition os_Setenv (key value : string) (w : World)
  : option SyscallError * World :=
  if bool_decide (key = "") || has_byte "="%char key || has_byte nul key
     || has_byte nul value
  then (Some (mkSyscallError "setenv"), w)
  else (None, set_environ <[key := value]> w).

Definition SetConfigDir (dir : string) (w : World)
  : option SyscallError * World :=
  os_Setenv DirEnvName dir w.

Definition SetConfigPath (path : string) (w : World)
  : option SyscallError * World :=
  os_Setenv FilePathEnvName path w.

(** The lines of an aggregate's message: the messages one per line. *)
Fixpoint lines (msgs : list string) : string :=
  match msgs with
  | [] => ""
  | [m] => m
  | m :: rest => m +:+ errors.newline +:+ lines rest
  end.

(** The candidate paths that are regular files. *)
Definition found (w : World) (candidates : list string) : list string :=
  filter (λ p, is_regular w p) candidates.

(** The candidates of the search when no explicit file is hinted: those
    of the hinted directory, or, with no directory hint, the default
    ones. *)
Definition search_candidates (w : World) : list string :=
  if bool_decide (os.Getenv DirEnvName w = "") then default_candidates w
  else directory_candidates (os.Getenv DirEnvName w).

(** The same world under another scheduler. *)
Definition set_sched (sched : list nat) (w : World) : World :=
  os.mkWorld (os.environ w) (os.executable w) (os.tempdir w) (os.files w)
    (os.xdev w) (os.random w) sched (os.logged w).

(** What a sync that met no error leaves at [q], for a path list whose
    files were all there: the encoding in the format of [q]'s extension
    when [q] is in the list and can be renamed onto, and what was there
    otherwise. *)
Definition synced {T} `{Codec T} (ps : list string) (v : T) (w : World)
    (q : string) : option os.node :=
  if bool_decide (q ∈ ps) && bool_decide (rename_errno w q = None) then
    match format_of_ext (path.Ext q) with
    | Some fmt => Some (os.Regular (encoding fmt v))
    | None => None
    end
  else os.files w !! q.

(** The program's path is not known, and a [config.json] lies in the
    working directory. *)
Definition unknown_executable_world : World :=
  os.mkWorld ∅ "" "/tmp"
    (<["/tmp" := os.Directory 4096]>
       (<["config.json" := os.Regular json_x]> ∅))
    ∅ [4021; 7; 7; 1980]%N [] [].

(** A configuration directory whose JSON file is not JSON. *)
Definition broken_directory_world : World :=
  bare_world
    (<["/tmp" := os.Directory 4096]>
       (<["/etc/app/config.json" := os.Regular "not json"]>
          (<["/etc/app/config.yaml" := os.Regular yaml_y]> ∅)))
    {[ DirEnvName := "/etc/app" ]}.

(** A handle with three paths of which two have an extension no
    encoder exists for, and a scheduler that lets the last goroutine
    run first. *)
Definition two_failures_state : state testConfig :=
  mkState
    (mkConfig ["/etc/app/notes.txt"; "/etc/app/config.json";
               "/etc/app/readme"] seed)
    (os.mkWorld ∅ "/opt/app/bin/server" "/tmp"
       (<["/tmp" := os.Directory 4096]>
          (<["/etc/app/config.json" := os.Regular json_x]> ∅))
       ∅ [4021; 7; 7; 1980]%N [2; 0; 1] []).

(** A validation that rewrites the record. *)
Definition checked (v : testConfig) : testConfig * option error :=
  (mkTestConfig "checked", None).

(** A handle with the JSON and the YAML file of a directory. *)
Definition two_files_state : state testConfig :=
  mkState
    (mkConfig ["/etc/app/config.json"; "/etc/app/config.yaml"] seed)
    (os.mkWorld ∅ "/opt/app/bin/server" "/tmp"
       (<["/tmp" := os.Directory 4096]>
          (<["/etc/app/config.json" := os.Regular json_x]>
             (<["/etc/app/config.yaml" := os.Regular yaml_y]> ∅)))
       ∅ [4021; 7; 7; 1980]%N [] []).

(** ** The record of the package's README

    [Config] has a string and a number. Its codec reads a file field by
    field, sets the fields the file names and leaves the others as they
    were, as the decoders of the three libraries do on a record that
    already holds values. *)

Module readme.

Record Config := { A : string; B : N }.

Fixpoint split_at (sep : ascii) (l cur : list ascii) : list (list ascii) :=
  match l with
  | [] => [rev cur]
  | c :: r =>
      if Ascii.eqb c sep then rev cur :: split_at sep r []
      else split_at sep r (c :: cur)
  end.

(** How a format writes the name of a field, and what stands between
    two fields. *)
Definition key (fmt : format) (name : string) : string :=
  match fmt with
  | JSON => dq +:+ name +:+ dq +:+ ":"
  | YAML => name +:+ ": "
  | TOML => name +:+ " = "
  end.

Definition separator (fmt : format) : ascii :=
  match fmt with
  | JSON => ","%char
  | _ => ascii_of_nat 10
  end.

(** The fields of a file: a JSON object is between braces. *)
Definition fields (fmt : format) (data : string) : option (list (list ascii)) :=
  body ← match fmt with
         | JSON => between "{" "}" data
         | _ => Some data
         end;
  Some (split_at (separator fmt) (chars body) []).

(** One field of a file, put into the record. *)
Definition field (fmt : format) (item : list ascii) (v : Config)
  : option Config :=
  match strip_prefix (chars (key fmt "a")) item with
  | Some rest =>
      a ← between dq dq (text rest);
      Some {| A := a; B := B v |}
  | None =>
      rest ← strip_prefix (chars (key fmt "b")) item;
      n ← NilZero.uint_of_string (text rest);
      Some {| A := A v; B := N.of_uint n |}
  end.

(** The fields are put into the record one after the other; what was set
    before a field that cannot be read stays set. *)
Fixpoint overlay (fmt : format) (items : list (list ascii)) (v : Config)
  : Config * option error :=
  match items with
  | [] => (v, None)
  | item :: rest =>
      match field fmt item v with
      | Some v' => overlay fmt rest v'
      | None => (v, Some (errors.New "cannot unmarshal"))
      end
  end.

Definition Config_Decode (fmt : format) (f : File) (v : Config)
  : Config * option error :=
  match os.File_Read f with
  | Fail e => (v, Some e)
  | Ok data =>
      match fields fmt data with
      | Some items => overlay fmt items v
      | None => (v, Some (errors.New "cannot unmarshal"))
      end
  end.

Definition Config_Encode (fmt : format) (indent : option nat) (v : Config)
  : string * option error :=
  let body := key fmt "a" +:+ dq +:+ A v +:+ dq
              +:+ String (separator fmt) EmptyString
              +:+ key fmt "b" +:+ os.itoa (B v) in
  (match fmt with
   | JSON => "{" +:+ body +:+ "}"
   | _ => body
   end, None).

#[global] Instance ConfigCodec : Codec Config :=
  {| Decode := Config_Decode; Encode := Config_Encode |}.

End readme.

(** The JSON object with [a] set to x and [b] set to 7. *)
Definition json_x_7 : string :=
  "{" +:+ dq +:+ "a" +:+ dq +:+ ":" +:+ dq +:+ "x" +:+ dq
  +:+ "," +:+ dq +:+ "b" +:+ dq +:+ ":7}".

(** A configuration directory whose JSON file sets both fields of the
    README's record and whose YAML file sets the first one only. *)
Definition layered_world : World :=
  bare_world
    (<["/tmp" := os.Directory 4096]>
       (<["/etc/app/config.json" := os.Regular json_x_7]>
          (<["/etc/app/config.yaml" := os.Regular yaml_y]> ∅)))
    {[ DirEnvName := "/etc/app" ]}.

(** * Properties *)

(** ** Strings and paths *)

Lemma append_cons (x : ascii) (a b : string) :
  String x a +:+ b = String x (a +:+ b).
Proof. reflexivity. Qed.

Lemma append_nil_l (b : string) : "" +:+ b = b.
Proof. reflexivity. Qed.

Lemma chars_app (a b : string) : chars (a +:+ b) = chars a ++ chars b.
Proof.
  induction a as [|c a IH]; [reflexivity|].
  rewrite append_cons. unfold chars in *. simpl. by rewrite IH.
Qed.

Lemma text_chars (s : string) : text (chars s) = s.
Proof. apply string_of_list_ascii_of_string. Qed.

Lemma chars_text (l : list ascii) : chars (text l) = l.
Proof. apply list_ascii_of_string_of_list_ascii. Qed.

Lemma text_app (a b : list ascii) : text (a ++ b) = text a +:+ text b.
Proof.
  rewrite <- (text_chars (text a +:+ text b)), chars_app, !chars_text.
  reflexivity.
Qed.

Lemma append_assoc (a b c : string) : (a +:+ b) +:+ c = a +:+ (b +:+ c).
Proof.
  induction a as [|x a IH]; [reflexivity|].
  by rewrite !append_cons, IH.
Qed.

Lemma append_nil_r (a : string) : a +:+ "" = a.
Proof.
  induction a as [|x a IH]; [reflexivity|].
  by rewrite append_cons, IH.
Qed.

Lemma append_empty (a b : string) : a +:+ b = "" → a = "" ∧ b = "".
Proof. destruct a; [tauto|rewrite append_cons; discriminate]. Qed.

Lemma forallb_rev {X} (f : X → bool) (l : list X) :
  forallb f (rev l) = forallb f l.
Proof.
  induction l as [|x l IH]; [reflexivity|].
  simpl. rewrite forallb_app, IH. simpl. destruct (f x), (forallb f l); reflexivity.
Qed.

(** The scan of [Ext] passes a run of plain characters. *)
Lemma ext_scan_plain (l r acc : list ascii) :
  forallb plain l = true →
  path.ext_scan (l ++ r) acc = path.ext_scan r (rev l ++ acc).
Proof.
  revert acc. induction l as [|c l IH]; intros acc H; simpl in *; [reflexivity|].
  apply andb_prop in H as [Hc Hl]. unfold plain in Hc.
  apply andb_prop in Hc as [Hs Hd].
  apply negb_true_iff in Hs, Hd. rewrite Hs, Hd, IH by done.
  by rewrite <- app_assoc.
Qed.

(** A name that ends in a dot and plain characters has that as its
    extension. *)
Lemma Ext_suffix (pre t : string) :
  forallb plain (chars t) = true →
  path.Ext (pre +:+ "." +:+ t) = "." +:+ t.
Proof.
  intros H. unfold path.Ext.
  rewrite !chars_app, !rev_app_distr. simpl. rewrite <- !app_assoc. simpl.
  rewrite ext_scan_plain by (by rewrite forallb_rev).
  simpl. rewrite rev_involutive, app_nil_r.
  change (text ("."%char :: chars t)) with (String "." (text (chars t))).
  by rewrite text_chars.
Qed.

(** A name whose last component is plain has no extension. *)
Lemma Ext_plain (pre t : string) :
  forallb plain (chars t) = true → path.Ext (pre +:+ "/" +:+ t) = "".
Proof.
  intros H. unfold path.Ext.
  rewrite !chars_app, !rev_app_distr. simpl. rewrite <- !app_assoc. simpl.
  rewrite ext_scan_plain by (by rewrite forallb_rev). reflexivity.
Qed.

(** The scan gives nothing, or a dot followed by plain characters which
    the name ends in. *)
Lemma ext_scan_shape (l acc : list ascii) :
  forallb plain acc = true →
  path.ext_scan l acc = "" ∨
  ∃ t, path.ext_scan l acc = "." +:+ text t ∧ forallb plain t = true
       ∧ ∃ front, rev l ++ acc = front ++ "."%char :: t.
Proof.
  revert acc. induction l as [|c l IH]; intros acc Hacc; simpl; [by left|].
  destruct (Ascii.eqb c slash) eqn:Hs; [by left|].
  destruct (Ascii.eqb c dot) eqn:Hd.
  - right. exists acc. apply Ascii.eqb_eq in Hd. subst c.
    split; [reflexivity|]. split; [done|].
    exists (rev l). by rewrite <- app_assoc.
  - destruct (IH (c :: acc)) as [H|(t & H1 & H2 & front & H3)].
    + simpl. unfold plain at 1. by rewrite Hs, Hd.
    + by left.
    + right. exists t. split; [done|]. split; [done|].
      exists front. rewrite <- app_assoc. exact H3.
Qed.

Lemma Ext_shape (p : string) :
  path.Ext p = "" ∨
  ∃ t, path.Ext p = "." +:+ t ∧ forallb plain (chars t) = true
       ∧ ∃ front, p = front +:+ "." +:+ t.
Proof.
  unfold path.Ext.
  destruct (ext_scan_shape (rev (chars p)) []) as [H|(t & H1 & H2 & front & H3)];
    [done|by left|].
  right. exists (text t). rewrite chars_text. split; [done|]. split; [done|].
  exists (text front). rewrite rev_involutive, app_nil_r in H3.
  rewrite <- (text_chars p), H3, text_app. reflexivity.
Qed.


Lemma split_slash_app (l1 l2 cur : list ascii) :
  path.split_slash (l1 ++ slash :: l2) cur
  = path.split_slash l1 cur ++ path.split_slash l2 [].
Proof.
  revert cur. induction l1 as [|c l1 IH]; intros cur; simpl.
  - reflexivity.
  - destruct (Ascii.eqb c slash); simpl; by rewrite IH.
Qed.

Lemma split_slash_none (l cur : list ascii) :
  forallb (λ c, negb (Ascii.eqb c slash)) l = true →
  path.split_slash l cur = [text (rev cur ++ l)].
Proof.
  revert cur. induction l as [|c l IH]; intros cur H; simpl in *.
  - by rewrite app_nil_r.
  - apply andb_prop in H as [Hc Hl]. apply negb_true_iff in Hc.
    rewrite Hc, IH by done. simpl. by rewrite <- app_assoc.
Qed.

Lemma join_slash_last (ys : list string) (b : string) :
  ∃ z, path.join_slash (ys ++ [b]) = z +:+ b.
Proof.
  induction ys as [|y ys [z IH]].
  - by exists "".
  - exists (y +:+ "/" +:+ z). simpl.
    destruct (ys ++ [b]) eqn:E; [by destruct ys|].
    rewrite IH. by rewrite !append_assoc.
Qed.

Lemma clean_step_simple (rooted : bool) (out : list string) (b : string) :
  simple_name b → path.clean_step rooted out b = b :: out.
Proof.
  intros (_ & Hne & Hdot & Hdots). unfold path.clean_step.
  by rewrite !bool_decide_eq_false_2 by done.
Qed.

Lemma Clean_last (d b : string) :
  simple_name b → ∃ z, path.Clean (d +:+ "/" +:+ b) = z +:+ b.
Proof.
  intros Hs. pose proof Hs as (Hb & Hne & Hdot & Hdots). unfold path.Clean.
  case_bool_decide as Hp.
  { apply append_empty in Hp as [_ Hp]. discriminate. }
  rewrite !chars_app. change (chars "/") with [slash]. simpl.
  rewrite split_slash_app, (split_slash_none (chars b)) by done.
  simpl. rewrite text_chars, fold_left_app. simpl.
  rewrite clean_step_simple by done. simpl.
  destruct (join_slash_last
    (rev (fold_left (path.clean_step (path.is_rooted (d +:+ "/" +:+ b)))
            (path.split_slash (chars d) []) [])) b) as [z Hz].
  rewrite Hz. destruct (path.is_rooted _).
  - exists ("/" +:+ z). by rewrite append_assoc.
  - case_bool_decide as Hz'; [|by exists z].
    apply append_empty in Hz' as [_ ?]. done.
Qed.

(** Joining a directory and a basename gives a name that ends in the
    basename. *)
Lemma Join_last (d b : string) :
  d ≠ "" → simple_name b → ∃ z, path.Join [d; b] = z +:+ b.
Proof.
  intros Hd Hb. unfold path.Join. simpl.
  rewrite (bool_decide_eq_false_2 (d = "")) by done.
  case_bool_decide as Hp.
  { apply append_empty in Hp as [? _]. done. }
  by apply Clean_last.
Qed.

Lemma Ext_Join_json (d : string) :
  d ≠ "" → path.Ext (path.Join [d; jsonConfigFileName]) = ".json".
Proof.
  intros Hd. destruct (Join_last d jsonConfigFileName) as [z Hz]; [done| |].
  { by repeat split. }
  rewrite Hz. change jsonConfigFileName with ("config" +:+ "." +:+ "json").
  rewrite <- append_assoc. by apply Ext_suffix.
Qed.

Lemma Ext_Join_toml (d : string) :
  d ≠ "" → path.Ext (path.Join [d; tomlConfigFileName]) = ".toml".
Proof.
  intros Hd. destruct (Join_last d tomlConfigFileName) as [z Hz]; [done| |].
  { by repeat split. }
  rewrite Hz. change tomlConfigFileName with ("config" +:+ "." +:+ "toml").
  rewrite <- append_assoc. by apply Ext_suffix.
Qed.

Lemma Ext_Join_yml (d : string) :
  d ≠ "" → path.Ext (path.Join [d; ymlConfigFileName]) = ".yml".
Proof.
  intros Hd. destruct (Join_last d ymlConfigFileName) as [z Hz]; [done| |].
  { by repeat split. }
  rewrite Hz. change ymlConfigFileName with ("config" +:+ "." +:+ "yml").
  rewrite <- append_assoc. by apply Ext_suffix.
Qed.

Lemma Ext_Join_yaml (d : string) :
  d ≠ "" → path.Ext (path.Join [d; yamlConfigFileName]) = ".yaml".
Proof.
  intros Hd. destruct (Join_last d yamlConfigFileName) as [z Hz]; [done| |].
  { by repeat split. }
  rewrite Hz. change yamlConfigFileName with ("config" +:+ "." +:+ "yaml").
  rewrite <- append_assoc. by apply Ext_suffix.
Qed.

(** Every candidate of the directory search has a decoder. *)
Lemma directory_candidates_supported (d : string) :
  d ≠ "" →
  Forall (λ p, is_Some (format_of_ext (path.Ext p))) (directory_candidates d).
Proof.
  intros Hd. unfold directory_candidates.
  repeat apply Forall_cons_2; [| | | |apply Forall_nil_2].
  - by rewrite Ext_Join_json.
  - by rewrite Ext_Join_toml.
  - by rewrite Ext_Join_yml.
  - by rewrite Ext_Join_yaml.
Qed.

Lemma filter_none {X} (P : X → Prop) `{∀ x, Decision (P x)} (l : list X) :
  (∀ x, x ∈ l → ¬ P x) → filter P l = [].
Proof.
  induction l as [|x l IH]; intros Hl; [reflexivity|].
  rewrite filter_cons, decide_False by (apply Hl; by left).
  apply IH. intros y Hy. apply Hl. by right.
Qed.

Lemma filter_all {X} (P : X → Prop) `{∀ x, Decision (P x)} (l : list X) :
  (∀ x, x ∈ l → P x) → filter P l = l.
Proof.
  induction l as [|x l IH]; intros Hl; [reflexivity|].
  rewrite filter_cons, decide_True by (apply Hl; by left).
  f_equal. apply IH. intros y Hy. apply Hl. by right.
Qed.

(** ** The calls into the operating system and the loader *)

Ltac st_unfold :=
  unfold mbind, mret, ST_bind, ST_ret, bind, ret, fail, attempt, ignore,
    defer, get, modify, sys in *.

Section facts.

Context {T : Type} {codec : Codec T}.

Implicit Types (s : state T) (w : World) (p : string).

Lemma state_eta s : mkState (mkConfig (paths (self s)) (cfg (self s))) (world s) = s.
Proof. by destruct s as [[??] ?]. Qed.

Lemma state_eta' s : mkState (self s) (world s) = s.
Proof. by destruct s. Qed.

Lemma fileExists_spec p w : fileExists p w = (Ok (is_regular w p), w).
Proof.
  unfold fileExists, is_regular. st_unfold. unfold os.Stat.
  destruct (os.files w !! p) as [[| |]|]; reflexivity.
Qed.

Lemma getExistingPaths_from_spec (ps acc : list string) w :
  getExistingPaths_from acc ps w
  = (Ok (acc ++ filter (λ p, is_regular w p) ps), w).
Proof.
  revert acc. induction ps as [|p ps IH]; intros acc.
  - simpl. by rewrite app_nil_r.
  - assert (getExistingPaths_from acc (p :: ps) w
            = match fileExists p w with
              | (Ok b, w') =>
                  getExistingPaths_from (if b : bool then acc ++ [p] else acc) ps w'
              | (Fail e, w') => (Fail e, w')
              end) as -> by reflexivity.
    rewrite fileExists_spec, IH.
    rewrite filter_cons. destruct (is_regular w p) eqn:E; simpl.
    + by rewrite <- app_assoc.
    + reflexivity.
Qed.

(** The existing paths are the regular files among the candidates, in
    the candidates' order; looking for them changes nothing. *)
Lemma getExistingPaths_spec (ps : list string) w :
  getExistingPaths ps w = (Ok (filter (λ p, is_regular w p) ps), w).
Proof. unfold getExistingPaths. by rewrite getExistingPaths_from_spec. Qed.


Lemma processPath_absent p s :
  os.files (world s) !! p = None → processPath p s = (Ok tt, s).
Proof.
  intros H. unfold processPath. st_unfold. unfold os.Open. rewrite H. simpl.
  by rewrite state_eta'.
Qed.

Lemma processPath_inaccessible p s :
  os.files (world s) !! p = Some os.Inaccessible →
  processPath p s = (Fail (errors.PathError "open" p errors.EACCES), s).
Proof.
  intros H. unfold processPath. st_unfold. unfold os.Open. rewrite H. simpl.
  by rewrite state_eta'.
Qed.

Lemma processPath_empty p s n :
  os.files (world s) !! p = Some n → accessible n →
  os.Size (os.info n) = 0%N → processPath p s = (Ok tt, s).
Proof.
  intros H Hn Hz. unfold processPath. st_unfold. unfold os.Open. rewrite H.
  destruct n; [| |done]; simpl in *; rewrite Hz; simpl; by rewrite state_eta'.
Qed.

Lemma processPath_decode p s n fmt :
  os.files (world s) !! p = Some n → accessible n →
  os.Size (os.info n) ≠ 0%N → format_of_ext (path.Ext p) = Some fmt →
  processPath p s
  = (match snd (Decode fmt (os.mkFile p n) (cfg (self s))) with
     | Some e =>
         Fail (errors.wrapError
                 ("error while decoding " +:+ format_name fmt +:+ " file: ") e)
     | None => Ok tt
     end,
     mkState (mkConfig (paths (self s))
                (fst (Decode fmt (os.mkFile p n) (cfg (self s)))))
       (world s)).
Proof.
  intros H Hn Hz Hf. unfold processPath. st_unfold. unfold os.Open. rewrite H.
  unfold format_of_ext in Hf.
  destruct n; [| |done]; simpl in *;
    rewrite (bool_decide_eq_false_2 _ Hz);
    repeat case_bool_decide; simpl in *; try congruence; simplify_eq;
    unfold decode_or, decoder_Decode; st_unfold;
    destruct (Decode _ _ _) as [v [e|]]; simpl; reflexivity.
Qed.

Lemma processPath_unsupported p s n :
  os.files (world s) !! p = Some n → accessible n →
  os.Size (os.info n) ≠ 0%N → format_of_ext (path.Ext p) = None →
  processPath p s
  = (Fail (errors.New ("unsupported file extension: " +:+ path.Ext p)), s).
Proof.
  intros H Hn Hz Hf. unfold processPath. st_unfold. unfold os.Open. rewrite H.
  unfold format_of_ext in Hf.
  destruct n; [| |done]; simpl in *;
    rewrite (bool_decide_eq_false_2 _ Hz);
    repeat case_bool_decide; simpl in *; try congruence; simplify_eq;
    by rewrite state_eta'.
Qed.

(** The loader never touches the world, nor the path list. *)
Lemma processPath_frame p s r s' :
  processPath p s = (r, s') → world s' = world s ∧ paths (self s') = paths (self s).
Proof.
  destruct (os.files (world s) !! p) as [n|] eqn:H.
  - destruct n as [data|size|].
    + destruct (decide (os.Size (os.info (os.Regular data)) = 0%N)) as [Hz|Hz].
      * rewrite (processPath_empty p s _ H) by done. by intros [= _ <-].
      * destruct (format_of_ext (path.Ext p)) as [fmt|] eqn:Hf.
        -- rewrite (processPath_decode p s _ fmt H) by done. by intros [= _ <-].
        -- rewrite (processPath_unsupported p s _ H) by done. by intros [= _ <-].
    + destruct (decide (os.Size (os.info (os.Directory size)) = 0%N)) as [Hz|Hz].
      * rewrite (processPath_empty p s _ H) by done. by intros [= _ <-].
      * destruct (format_of_ext (path.Ext p)) as [fmt|] eqn:Hf.
        -- rewrite (processPath_decode p s _ fmt H) by done. by intros [= _ <-].
        -- rewrite (processPath_unsupported p s _ H) by done. by intros [= _ <-].
    + rewrite (processPath_inaccessible p s H). by intros [= _ <-].
  - rewrite (processPath_absent p s H). by intros [= _ <-].
Qed.

Lemma load_from_cons p (ps : list string) s :
  load_from (p :: ps) s
  = match processPath p s with
    | (Ok _, s') => load_from ps s'
    | (Fail e, s') => (Fail e, s')
    end.
Proof. reflexivity. Qed.

(** The paths before a failing one are processed, the ones after it are
    not. *)
Lemma load_from_app_fail (pre post : list string) p s s1 s2 e :
  load_from pre s = (Ok tt, s1) →
  processPath p s1 = (Fail e, s2) →
  load_from (pre ++ p :: post) s = (Fail e, s2).
Proof.
  revert s. induction pre as [|q pre IH]; intros s Hpre Hp.
  - injection Hpre as <-. change ([] ++ p :: post) with (p :: post).
    rewrite load_from_cons. by rewrite Hp.
  - rewrite <- app_comm_cons. rewrite load_from_cons in *.
    destruct (processPath q s) as [[[]|e'] s'] eqn:Hq; [|done].
    by apply IH.
Qed.

End facts.

(** ** Temp files *)

Lemma temp_try_inv (pre suf : string) (nums rest : list N)
    (fs : gmap string os.node) (name : string) :
  os.temp_try pre suf nums fs = (Ok name, rest) →
  fs !! name = None ∧ ∃ n, n ∈ nums ∧ name = pre +:+ os.itoa n +:+ suf.
Proof.
  induction nums as [|n nums IH]; simpl; [done|].
  destruct (fs !! (pre +:+ os.itoa n +:+ suf)) as [[| |]|] eqn:E.
  - intros H. destruct (IH H) as (? & m & ? & ?). split; [done|].
    exists m. split; [by right|done].
  - intros H. destruct (IH H) as (? & m & ? & ?). split; [done|].
    exists m. split; [by right|done].
  - done.
  - intros [= <- <-]. split; [done|]. exists n. split; [by left|done].
Qed.

(** A temp file that was created is new, empty, and named after the
    pattern; nothing else changed but the numbers drawn. *)
Lemma CreateTemp_inv (dir pattern : string) (w w1 : World) (f : File) :
  os.CreateTemp dir pattern w = (Ok f, w1) →
  os.files w !! Name f = None
  ∧ f = os.mkFile (Name f) (os.Regular "")
  ∧ (∃ rest, w1 = os.set_files <[Name f := os.Regular ""]> (os.set_random rest w))
  ∧ ∃ n, Name f = os.joinPath dir (fst (os.prefixAndSuffix pattern))
                   +:+ os.itoa n +:+ snd (os.prefixAndSuffix pattern).
Proof.
  unfold os.CreateTemp. destruct (os.has_slash pattern); [done|].
  destruct (os.prefixAndSuffix pattern) as [pre suf]. simpl.
  destruct (os.files w !! dir) as [[| |]|]; try done.
  destruct (os.temp_try _ _ _ _) as [[name|e] rest] eqn:E; [|done].
  intros [= <- <-]. simpl.
  apply temp_try_inv in E as (Hfresh & n & _ & Hname).
  split; [done|]. split; [done|]. split; [by exists rest|by exists n].
Qed.

Lemma CreateTemp_fail_inv (dir pattern : string) (w w1 : World) (e : error) :
  os.CreateTemp dir pattern w = (Fail e, w1) →
  ∃ rest, w1 = os.set_random rest w.
Proof.
  unfold os.CreateTemp. destruct w as [en ex td fs xd rnd sc lg]. simpl.
  destruct (os.has_slash pattern).
  { intros [= _ <-]. by exists rnd. }
  destruct (os.prefixAndSuffix pattern) as [pre suf].
  destruct (fs !! dir) as [[| |]|]; try (intros [= _ <-]; by exists rnd).
  destruct (os.temp_try _ _ _ _) as [[name|e'] rest] eqn:E; [done|].
  intros [= _ <-]. by exists rest.
Qed.

(** The temp file of a supported extension carries that extension. *)
Lemma temp_pattern_supported (ext : string) (fmt : format) :
  format_of_ext ext = Some fmt →
  os.prefixAndSuffix ("config*" +:+ ext) = ("config", ext)
  ∧ ∀ front, path.Ext (front +:+ ext) = ext.
Proof.
  unfold format_of_ext. intros H.
  repeat case_bool_decide; simpl in *; try done; subst ext;
    (split; [reflexivity|intros front]).
  - by apply (Ext_suffix front "json").
  - by apply (Ext_suffix front "toml").
  - by apply (Ext_suffix front "yaml").
  - by apply (Ext_suffix front "yaml").
  - by apply (Ext_suffix front "yml").
Qed.

Lemma getEncoderForFile_supported (ext : string) (fmt : format) (f : File) :
  format_of_ext ext = Some fmt →
  getEncoderForFile ext f = Ok (mkEncoder fmt (indent_of fmt) f).
Proof.
  unfold format_of_ext, getEncoderForFile. intros H.
  repeat case_bool_decide; simpl in *; simplify_eq; reflexivity.
Qed.

Lemma getEncoderForFile_unsupported (ext : string) (f : File) :
  format_of_ext ext = None →
  getEncoderForFile ext f
  = Fail (errors.New ("unsupported file extension: " +:+ ext)).
Proof.
  unfold format_of_ext, getEncoderForFile. intros H.
  repeat case_bool_decide; simpl in *; simplify_eq; reflexivity.
Qed.

Lemma getEncoderForFile_out (ext : string) (f : File) (enc : encoder) :
  getEncoderForFile ext f = Ok enc → enc_out enc = f.
Proof.
  unfold getEncoderForFile.
  repeat case_bool_decide; simpl; intros [= <-]; reflexivity.
Qed.

Section write_one.

Context {T : Type} {codec : Codec T}.

Implicit Types (s : state T) (w : World).

(** [writeToFile], step by step. *)
Lemma writeToFile_eq (fPath : string) s :
  writeToFile fPath s =
  match createTempFile ("config*" +:+ path.Ext fPath) (world s) with
  | (Fail e, w1) => (Fail e, mkState (self s) w1)
  | (Ok f, w1) =>
      let cleanup w := snd (os.Remove (Name f) w) in
      match getEncoderForFile (path.Ext (Name f)) f with
      | Fail e => (Fail e, mkState (self s) (cleanup w1))
      | Ok enc =>
          let '(data, err) :=
            Encode (enc_format enc) (enc_indent enc) (cfg (self s)) in
          match os.File_Write f data w1 with
          | (Fail e, w2) => (Fail e, mkState (self s) (cleanup w2))
          | (Ok _, w2) =>
              match err with
              | Some e => (Fail e, mkState (self s) (cleanup w2))
              | None =>
                  match os.Rename (Name f) fPath w2 with
                  | (Fail e, w3) =>
                      (Ok tt, mkState (self s)
                                (cleanup (os.add_log
                                            (rename_line (Name f) fPath e) w3)))
                  | (Ok _, w3) => (Ok tt, mkState (self s) (cleanup w3))
                  end
              end
          end
      end
  end.
Proof.
  unfold writeToFile. st_unfold.
  destruct (createTempFile _ (world s)) as [[f|e] w1]; [|reflexivity].
  unfold encodeToFile. st_unfold. simpl.
  destruct (getEncoderForFile _ _) as [enc|e] eqn:Henc; simpl.
  - apply getEncoderForFile_out in Henc.
    unfold encoder_Encode. rewrite Henc.
    destruct (Encode _ _ _) as [data err]. st_unfold.
    destruct (os.File_Write f data w1) as [[[]|e'] w2]; simpl.
    + destruct err as [e|]; simpl.
      * by destruct (os.Remove _ _).
      * destruct (os.Rename (Name f) fPath w2) as [[[]|e'] w3]; simpl;
          unfold rename_line; by destruct (os.Remove _ _).
    + by destruct (os.Remove _ _).
  - by destruct (os.Remove _ _).
Qed.

End write_one.


Section write_one_supported.

Context {T : Type} {codec : Codec T}.

Implicit Types (s : state T) (w : World).

Lemma Rename_from_regular (tmp fPath data : string) w :
  os.files w !! tmp = Some (os.Regular data) →
  os.Rename tmp fPath w
  = match rename_errno w fPath with
    | Some errno => (Fail (errors.LinkError "rename" tmp fPath errno), w)
    | None =>
        (Ok tt, os.set_files (λ fs, <[fPath := os.Regular data]> (delete tmp fs)) w)
    end.
Proof.
  intros H. unfold os.Rename, rename_errno. rewrite H.
  case_bool_decide; [done|].
  by destruct (os.files w !! fPath) as [[| |]|].
Qed.

Lemma Remove_present (p : string) w (n : os.node) :
  os.files w !! p = Some n → accessible n →
  snd (os.Remove p w) = os.set_files (delete p) w.
Proof. intros H Hn. unfold os.Remove. rewrite H. by destruct n. Qed.

Lemma Remove_absent (p : string) w :
  os.files w !! p = None → snd (os.Remove p w) = w.
Proof. intros H. unfold os.Remove. by rewrite H. Qed.

(** A write whose temp file is there. What is left behind is the world
    before the write with the numbers drawn ([base]), with a log line
    when the rename failed, or with the text at the target when it went
    through. *)
Lemma writeToFile_created (fPath : string) s (f : File) w1 :
  createTempFile ("config*" +:+ path.Ext fPath) (world s) = (Ok f, w1) →
  let base := os.set_random (os.random w1) (world s) in
  writeToFile fPath s =
  match getEncoderForFile (path.Ext (Name f)) f with
  | Fail e => (Fail e, mkState (self s) base)
  | Ok enc =>
      match snd (Encode (enc_format enc) (enc_indent enc) (cfg (self s))) with
      | Some e => (Fail e, mkState (self s) base)
      | None =>
          match rename_errno (world s) fPath with
          | Some errno =>
              (Ok tt, mkState (self s)
                        (os.add_log
                           (rename_line (Name f) fPath
                              (errors.LinkError "rename" (Name f) fPath errno))
                           base))
          | None =>
              (Ok tt, mkState (self s)
                        (if decide (fPath = Name f) then base
                         else os.set_files
                                <[fPath := os.Regular
                                    (fst (Encode (enc_format enc) (enc_indent enc)
                                            (cfg (self s))))]>
                                base))
          end
      end
  end.
Proof.
  intros Htemp base. rewrite writeToFile_eq, Htemp.
  unfold createTempFile in Htemp.
  apply CreateTemp_inv in Htemp as (Hfresh & Hf & [rest Hw1] & _).
  set (tmp := Name f) in *.
  assert (base = os.set_random rest (world s)) as Hbase.
  { unfold base. rewrite Hw1. by destruct (world s). }
  clearbody base. subst base.
  assert (os.files w1 !! tmp = Some (os.Regular "")) as Hw1tmp.
  { rewrite Hw1. simpl. by rewrite lookup_insert_eq. }
  assert (os.set_files (delete tmp) w1 = os.set_random rest (world s)) as Hclean1.
  { rewrite Hw1. destruct (world s) as [en ex td fs xd rnd sc lg].
    unfold os.set_files, os.set_random. simpl in *. f_equal.
    by apply delete_insert_id. }
  destruct (getEncoderForFile (path.Ext tmp) f) as [enc|e] eqn:Henc; simpl.
  2:{ rewrite (Remove_present tmp w1 _ Hw1tmp) by done. by rewrite Hclean1. }
  clear Henc.
  destruct (Encode (enc_format enc) (enc_indent enc) (cfg (self s)))
    as [data err]. simpl.
  unfold os.File_Write. rewrite Hf. simpl. fold tmp. rewrite Hw1tmp.
  rewrite append_nil_l.
  set (w2 := os.set_files <[tmp := os.Regular data]> w1).
  assert (os.files w2 !! tmp = Some (os.Regular data)) as Hw2tmp.
  { unfold w2. simpl. by rewrite lookup_insert_eq. }
  assert (os.files w2 = <[tmp := os.Regular data]> (os.files (world s))) as Hw2.
  { unfold w2. rewrite Hw1. simpl. by rewrite insert_insert_eq. }
  assert (os.set_files (delete tmp) w2 = os.set_random rest (world s)) as Hclean.
  { unfold w2. rewrite Hw1. destruct (world s) as [en ex td fs xd rnd sc lg].
    unfold os.set_files, os.set_random. simpl in *. f_equal.
    rewrite insert_insert_eq. by apply delete_insert_id. }
  destruct err as [e|].
  { rewrite (Remove_present tmp w2 _ Hw2tmp) by done. by rewrite Hclean. }
  rewrite (Rename_from_regular tmp fPath data w2 Hw2tmp).
  assert (rename_errno w2 fPath = rename_errno (world s) fPath) as ->.
  { unfold rename_errno.
    replace (os.xdev w2) with (os.xdev (world s))
      by (unfold w2; rewrite Hw1; by destruct (world s)).
    case_bool_decide; [done|]. rewrite Hw2.
    destruct (decide (fPath = tmp)) as [->|Hne].
    - by rewrite lookup_insert_eq, Hfresh.
    - by rewrite lookup_insert_ne. }
  destruct (rename_errno (world s) fPath) as [errno|].
  - rewrite (Remove_present tmp (os.add_log _ w2) (os.Regular data))
      by done.
    rewrite <- Hclean. by destruct w2.
  - destruct (decide (fPath = tmp)) as [->|Hne].
    + rewrite (Remove_present tmp _ (os.Regular data));
        [|simpl; by rewrite lookup_insert_eq|done].
      rewrite <- Hclean. unfold os.set_files. destruct w2; simpl. f_equal. f_equal.
      rewrite delete_insert_eq. by rewrite delete_delete_eq.
    + rewrite Remove_absent
        by (simpl; by rewrite lookup_insert_ne, lookup_delete_eq).
      rewrite <- Hclean. unfold os.set_files. destruct w2; simpl in *.
      repeat f_equal; by rewrite delete_insert_ne by done.
Qed.


(** A write to a path with a supported extension, once its temp file
    is there: the encoder's error is returned with nothing left behind;
    a rename that fails is logged with nothing left behind; otherwise the
    target holds the encoding. *)
Lemma writeToFile_supported (fPath : string) s (fmt : format) (f : File) w1 :
  format_of_ext (path.Ext fPath) = Some fmt →
  createTempFile ("config*" +:+ path.Ext fPath) (world s) = (Ok f, w1) →
  let base := os.set_random (os.random w1) (world s) in
  writeToFile fPath s =
  match encoding_error fmt (cfg (self s)) with
  | Some e => (Fail e, mkState (self s) base)
  | None =>
      match rename_errno (world s) fPath with
      | Some errno =>
          (Ok tt, mkState (self s)
                    (os.add_log
                       (rename_line (Name f) fPath
                          (errors.LinkError "rename" (Name f) fPath errno))
                       base))
      | None =>
          (Ok tt, mkState (self s)
                    (if decide (fPath = Name f) then base
                     else os.set_files
                            <[fPath := os.Regular (encoding fmt (cfg (self s)))]>
                            base))
      end
  end.
Proof.
  intros Hfmt Htemp base. unfold base.
  rewrite (writeToFile_created fPath s f w1 Htemp).
  unfold createTempFile in Htemp.
  apply CreateTemp_inv in Htemp as (_ & _ & _ & n & Hname).
  destruct (temp_pattern_supported _ _ Hfmt) as [Hpat Hext].
  rewrite Hpat in Hname. simpl in Hname.
  assert (path.Ext (Name f) = path.Ext fPath) as ->.
  { rewrite Hname, <- append_assoc. apply Hext. }
  by rewrite (getEncoderForFile_supported _ fmt).
Qed.

End write_one_supported.

(** ** The names of temp files *)

Lemma digit_plain (c : ascii) : is_digit c = true → plain c = true.
Proof.
  unfold is_digit. intros H. apply existsb_exists in H as (d & Hd & Heq).
  apply Ascii.eqb_eq in Heq. subst d. simpl in Hd.
  repeat (destruct Hd as [<-|Hd]; [reflexivity|]). done.
Qed.

Lemma string_of_uint_digits (u : Decimal.uint) :
  forallb is_digit (chars (NilEmpty.string_of_uint u)) = true.
Proof. induction u; simpl; by rewrite ?IHu. Qed.

(** The number in a temp file's name is a non-empty run of digits. *)
Lemma itoa_digits (n : N) :
  forallb is_digit (chars (os.itoa n)) = true ∧ os.itoa n ≠ "".
Proof.
  unfold os.itoa, NilZero.string_of_uint.
  destruct (N.to_uint n) eqn:E; try (split; [apply (string_of_uint_digits (_ u))|done]).
  by split.
Qed.

Lemma forallb_impl {X} (f g : X → bool) (l : list X) :
  (∀ x, f x = true → g x = true) → forallb f l = true → forallb g l = true.
Proof.
  intros Hfg. induction l as [|x l IH]; simpl; [done|].
  intros H. apply andb_prop in H as [Hx Hl]. by rewrite (Hfg x Hx), IH.
Qed.

Lemma cut_last_star_found (l r acc : list ascii) :
  forallb no_star l = true →
  os.cut_last_star (l ++ star :: r) acc = Some (text (rev r), text (rev l ++ acc)).
Proof.
  revert acc. induction l as [|c l IH]; intros acc H; simpl in *; [reflexivity|].
  apply andb_prop in H as [Hc Hl]. unfold no_star in Hc.
  apply negb_true_iff in Hc. change "*"%char with star. rewrite Hc, IH by done.
  by rewrite <- app_assoc.
Qed.

(** A string has no star, or a last one. *)
Lemma last_star (l : list ascii) :
  forallb no_star l = true
  ∨ ∃ e1 e2, l = e1 ++ star :: e2 ∧ forallb no_star e2 = true.
Proof.
  induction l as [|c l [IH|(e1 & e2 & -> & He2)]].
  - by left.
  - destruct (no_star c) eqn:Hc.
    + left. simpl. by rewrite Hc.
    + right. exists [], l. split; [|done].
      unfold no_star in Hc. apply negb_false_iff, Ascii.eqb_eq in Hc. by subst.
  - right. by exists (c :: e1), e2.
Qed.

Lemma ends_with_slash_inv (dirname : string) :
  os.ends_with_slash dirname = true → ∃ front, dirname = front +:+ "/".
Proof.
  unfold os.ends_with_slash.
  destruct (rev (chars dirname)) as [|c r] eqn:E; [done|].
  intros Hc. apply Ascii.eqb_eq in Hc. subst c.
  exists (text (rev r)).
  rewrite <- (text_chars dirname), <- (rev_involutive (chars dirname)), E.
  simpl. by rewrite text_app.
Qed.

(** The name a directory and a first part give ends in a slash and that
    part. *)
Lemma joinPath_shape (dirname name : string) :
  ∃ front, os.joinPath dirname name = front +:+ "/" +:+ name.
Proof.
  unfold os.joinPath. destruct (os.ends_with_slash dirname) eqn:E.
  - apply ends_with_slash_inv in E as [front ->]. exists front.
    by rewrite append_assoc.
  - by exists dirname.
Qed.

Lemma existsb_digit_app (a b : list ascii) :
  existsb is_digit (a ++ b) = existsb is_digit a || existsb is_digit b.
Proof. apply existsb_app. Qed.

Lemma forallb_existsb_digit (l : list ascii) :
  l ≠ [] → forallb is_digit l = true → existsb is_digit l = true.
Proof. destruct l as [|c l]; [done|]. simpl. intros _ H. apply andb_prop in H as [-> _]. done. Qed.

Lemma format_of_ext_no_digit (ext : string) (fmt : format) :
  format_of_ext ext = Some fmt → existsb is_digit (chars ext) = false.
Proof.
  unfold format_of_ext.
  repeat case_bool_decide; simpl; try done; subst; reflexivity.
Qed.

Lemma chars_empty (a : string) : chars a = [] → a = "".
Proof. by destruct a. Qed.

(** The temp file made for a target has a supported extension exactly
    when the target has one, and then it is the same. *)
Lemma temp_name_format (fPath dirname : string) (n : N) :
  let ext := path.Ext fPath in
  let ps := os.prefixAndSuffix ("config*" +:+ ext) in
  let name := os.joinPath dirname (fst ps) +:+ os.itoa n +:+ snd ps in
  format_of_ext (path.Ext name) = format_of_ext ext
  ∧ (∀ fmt, format_of_ext ext = Some fmt → path.Ext name = ext).
Proof.
  intros ext ps name.
  destruct (itoa_digits n) as [Hdig Hne].
  assert (forallb plain (chars (os.itoa n)) = true) as Hplain
    by (eapply forallb_impl; [apply digit_plain|done]).
  assert (∀ fmt, format_of_ext ext = Some fmt → path.Ext name = ext) as Hsup.
  { intros fmt Hfmt. destruct (temp_pattern_supported _ _ Hfmt) as [Hpat Hext].
    unfold name, ps. rewrite Hpat. simpl. rewrite <- append_assoc. apply Hext. }
  split; [|done].
  destruct (format_of_ext ext) as [fmt|] eqn:Hfmt.
  { by rewrite (Hsup fmt), Hfmt. }
  unfold name, ps, os.prefixAndSuffix.
  rewrite chars_app, rev_app_distr.
  change (rev (chars "config*")) with (star :: rev (chars "config")).
  destruct (last_star (chars ext)) as [Hns|(e1 & e2 & He & He2)].
  - (* no star in the extension: the name ends in it *)
    rewrite cut_last_star_found by (by rewrite forallb_rev). simpl.
    rewrite rev_involutive, app_nil_r, text_chars.
    change (text (chars "config")) with "config".
    destruct (Ext_shape fPath) as [Hx|(t & Hx & Ht & _)]; fold ext in Hx.
    + rewrite Hx, append_nil_r.
      destruct (joinPath_shape dirname "config") as [front ->].
      rewrite !append_assoc, Ext_plain; [done|].
      rewrite chars_app, forallb_app. by rewrite Hplain.
    + rewrite Hx, <- append_assoc, Ext_suffix by done. by rewrite <- Hx.
  - (* a star in the extension: the number lands inside it *)
    rewrite He, rev_app_distr. simpl. rewrite <- !app_assoc. simpl.
    rewrite cut_last_star_found by (by rewrite forallb_rev). simpl.
    rewrite rev_involutive, app_nil_r.
    rewrite rev_app_distr. simpl. rewrite rev_involutive.
    destruct (Ext_shape fPath) as [Hx|(t & Hx & Ht & _)]; fold ext in Hx.
    { rewrite Hx in He. by destruct e1. }
    rewrite Hx, chars_app in He. simpl in He.
    destruct e1 as [|c1 e1]; simpl in He; [by injection He|].
    injection He as <- He.
    rewrite He, forallb_app in Ht. apply andb_prop in Ht as [He1 Hst].
    simpl in Hst. rename Hst into Hpl2.
    match goal with
    | |- context [os.joinPath dirname ?pre] =>
        change pre with ("config*" +:+ "." +:+ text e1)
    end.
    destruct (joinPath_shape dirname ("config*" +:+ "." +:+ text e1))
      as [front ->].
    assert ((front +:+ "/" +:+ ("config*" +:+ "." +:+ text e1))
              +:+ os.itoa n +:+ text e2
            = (front +:+ "/config*") +:+ "."
              +:+ (text e1 +:+ os.itoa n +:+ text e2)) as ->.
    { by rewrite !append_assoc. }
    rewrite Ext_suffix.
    2:{ rewrite !chars_app, !chars_text, !forallb_app.
        by rewrite He1, Hplain, Hpl2. }
    destruct (format_of_ext ("." +:+ text e1 +:+ os.itoa n +:+ text e2))
      as [fmt|] eqn:Hf; [|done].
    apply format_of_ext_no_digit in Hf.
    rewrite !chars_app, !chars_text in Hf. simpl in Hf.
    rewrite !existsb_digit_app in Hf.
    rewrite (forallb_existsb_digit (chars (os.itoa n))) in Hf; [| |done].
    + by rewrite orb_true_r in Hf.
    + intros Hnil. by apply chars_empty in Hnil.
Qed.

(** ** What one write leaves behind *)

Section write_outcome.

Context {T : Type} {codec : Codec T}.

Implicit Types (s : state T) (w : World).

(** A write whose temp file is there, by the target's extension. *)
Lemma writeToFile_outcome (fPath : string) s (f : File) w1 :
  createTempFile ("config*" +:+ path.Ext fPath) (world s) = (Ok f, w1) →
  let base := os.set_random (os.random w1) (world s) in
  writeToFile fPath s =
  match format_of_ext (path.Ext fPath) with
  | None =>
      (Fail (errors.New ("unsupported file extension: " +:+ path.Ext (Name f))),
       mkState (self s) base)
  | Some fmt =>
      match encoding_error fmt (cfg (self s)) with
      | Some e => (Fail e, mkState (self s) base)
      | None =>
          match rename_errno (world s) fPath with
          | Some errno =>
              (Ok tt, mkState (self s)
                        (os.add_log
                           (rename_line (Name f) fPath
                              (errors.LinkError "rename" (Name f) fPath errno))
                           base))
          | None =>
              (Ok tt, mkState (self s)
                        (if decide (fPath = Name f) then base
                         else os.set_files
                                <[fPath := os.Regular (encoding fmt (cfg (self s)))]>
                                base))
          end
      end
  end.
Proof.
  intros Htemp base.
  destruct (format_of_ext (path.Ext fPath)) as [fmt|] eqn:Hfmt.
  { by apply writeToFile_supported. }
  unfold base. rewrite (writeToFile_created fPath s f w1 Htemp).
  unfold createTempFile in Htemp.
  apply CreateTemp_inv in Htemp as (_ & _ & _ & n & Hname).
  destruct (temp_name_format fPath (os.TempDir (world s)) n) as [Hf _].
  simpl in Hf. rewrite <- Hname, Hfmt in Hf.
  by rewrite (getEncoderForFile_unsupported _ f Hf).
Qed.

(** A write never changes the configuration handle, and of the world
    only the files, the numbers to draw and the log. *)
Lemma writeToFile_setting (fPath : string) s :
  let s' := snd (writeToFile fPath s) in
  self s' = self s
  ∧ os.environ (world s') = os.environ (world s)
  ∧ os.executable (world s') = os.executable (world s)
  ∧ os.tempdir (world s') = os.tempdir (world s)
  ∧ os.xdev (world s') = os.xdev (world s)
  ∧ os.sched (world s') = os.sched (world s).
Proof.
  destruct (createTempFile ("config*" +:+ path.Ext fPath) (world s))
    as [[f|e] w1] eqn:Htemp.
  - rewrite (writeToFile_outcome fPath s f w1 Htemp).
    destruct (format_of_ext _); [|by destruct (world s)].
    destruct (encoding_error _ _); [by destruct (world s)|].
    destruct (rename_errno _ _); [by destruct (world s)|].
    destruct (decide _); by destruct (world s).
  - rewrite writeToFile_eq, Htemp. simpl.
    apply CreateTemp_fail_inv in Htemp as [rest ->]. by destruct (world s).
Qed.

(** Of the files, a write changes the target at most, and then to a
    regular file. *)
Lemma writeToFile_files (fPath : string) s :
  let s' := snd (writeToFile fPath s) in
  os.files (world s') = os.files (world s)
  ∨ ∃ data, os.files (world s') = <[fPath := os.Regular data]> (os.files (world s)).
Proof.
  destruct (createTempFile ("config*" +:+ path.Ext fPath) (world s))
    as [[f|e] w1] eqn:Htemp.
  - rewrite (writeToFile_outcome fPath s f w1 Htemp).
    destruct (format_of_ext _); [|left; by destruct (world s)].
    destruct (encoding_error _ _); [left; by destruct (world s)|].
    destruct (rename_errno _ _); [left; by destruct (world s)|].
    destruct (decide _); [left; by destruct (world s)|].
    right. eexists. by destruct (world s).
  - rewrite writeToFile_eq, Htemp. simpl.
    apply CreateTemp_fail_inv in Htemp as [rest ->]. left. by destruct (world s).
Qed.

End write_outcome.

(** ** The path resolver *)

Section resolver.

Context {T : Type} {codec : Codec T}.

Implicit Types (s : state T) (w : World) (p : string).

Lemma getConfigPaths_directory s (d : string) :
  os.Getenv FilePathEnvName (world s) = "" →
  os.Getenv DirEnvName (world s) = d → d ≠ "" →
  getConfigPaths s
  = (Ok tt, mkState (mkConfig (filter (λ p, is_regular (world s) p)
                                 (directory_candidates d)) (cfg (self s)))
              (world s)).
Proof.
  intros Hf Hd Hne. unfold getConfigPaths. rewrite Hf, Hd. simpl.
  rewrite (bool_decide_eq_false_2 (d = "")) by done. simpl.
  unfold set_paths. st_unfold. by rewrite getExistingPaths_spec.
Qed.

Lemma getConfigPaths_default s :
  os.Getenv FilePathEnvName (world s) = "" →
  os.Getenv DirEnvName (world s) = "" →
  getConfigPaths s
  = (Ok tt, mkState (mkConfig (filter (λ p, is_regular (world s) p)
                                 (default_candidates (world s))) (cfg (self s)))
              (world s)).
Proof.
  intros Hf Hd. unfold getConfigPaths. rewrite Hf, Hd. simpl.
  unfold set_paths. st_unfold. by rewrite getExistingPaths_spec.
Qed.

Lemma getConfigPaths_explicit s p :
  os.Getenv FilePathEnvName (world s) = p → p ≠ "" →
  getConfigPaths s = setConfigPathForOneFile p s.
Proof.
  intros Hf Hne. unfold getConfigPaths. rewrite Hf.
  by rewrite (bool_decide_eq_false_2 (p = "")) by done.
Qed.

Lemma setConfigPathForOneFile_present s p :
  is_regular (world s) p = true →
  setConfigPathForOneFile p s
  = (Ok tt, mkState (mkConfig [p] (cfg (self s))) (world s)).
Proof.
  intros H. unfold setConfigPathForOneFile. st_unfold.
  rewrite fileExists_spec, H. reflexivity.
Qed.

Lemma is_regular_Stat w p e :
  fst (os.Stat p w) = Fail e → is_regular w p = false.
Proof.
  unfold os.Stat, is_regular.
  by destruct (os.files w !! p) as [[| |]|].
Qed.

(** C4 (as amended): an error met while probing a candidate path for
    existence, whether not-found or any other, makes the candidate count
    as not existing. The probe itself reports [false] and no error; the
    directory search and the default search leave the candidate out of
    the path list and return no error. *)
Theorem probe_errors_count_as_absent s p e :
  fst (os.Stat p (world s)) = Fail e →
  fileExists p (world s) = (Ok false, world s)
  ∧ (∀ candidates,
       ∃ found, getExistingPaths candidates (world s) = (Ok found, world s)
                ∧ p ∉ found)
  ∧ (os.Getenv FilePathEnvName (world s) = "" →
     ∃ found, getConfigPaths s
              = (Ok tt, mkState (mkConfig found (cfg (self s))) (world s))
              ∧ p ∉ found).
Proof.
  intros Hstat. apply is_regular_Stat in Hstat.
  assert (∀ l : list string, p ∉ filter (λ q, is_regular (world s) q) l) as Hout.
  { intros l Hin. apply list_elem_of_filter in Hin as [Hp _].
    rewrite Hstat in Hp. done. }
  split; [by rewrite fileExists_spec, Hstat|].
  split.
  - intros candidates. eexists. split; [apply getExistingPaths_spec|apply Hout].
  - intros Hf.
    destruct (decide (os.Getenv DirEnvName (world s) = "")) as [Hd|Hd].
    + eexists. split; [by apply getConfigPaths_default|apply Hout].
    + eexists. split; [by eapply getConfigPaths_directory|apply Hout].
Qed.

End resolver.

(** ** The loader and the orchestrator *)

Section orchestrator.

Context {T : Type} {codec : Codec T}.

Implicit Types (s : state T) (w : World) (p : string).

(** [newConfig]: resolve, load, then the options. *)
Lemma newConfig_eq (cfg0 : T) (afterFunc : list (Option T)) w :
  newConfig cfg0 afterFunc w =
  match getConfigPaths (initial cfg0 w) with
  | (Fail e, s1) => (Fail e, s1)
  | (Ok _, s1) =>
      match load s1 with
      | (Fail e, s2) => (Fail e, s2)
      | (Ok _, s2) =>
          match apply_all afterFunc s2 with
          | (Fail e, s3) => (Fail e, s3)
          | (Ok _, s3) => (Ok (self s3), s3)
          end
      end
  end.
Proof.
  unfold newConfig, initial. st_unfold.
  destruct (getConfigPaths _) as [[[]|e] s1]; [|reflexivity].
  destruct (load s1) as [[[]|e] s2]; [|reflexivity].
  destruct (apply_all afterFunc s2) as [[[]|e] s3]; reflexivity.
Qed.

Lemma load_from_absent_or_empty (ps : list string) s :
  (∀ p, p ∈ ps → os.files (world s) !! p = None
                 ∨ os.files (world s) !! p = Some (os.Regular "")) →
  load_from ps s = (Ok tt, s).
Proof.
  induction ps as [|p ps IH]; intros H; [reflexivity|].
  rewrite load_from_cons.
  assert (processPath p s = (Ok tt, s)) as ->.
  { destruct (H p) as [Hp|Hp]; [by left| |].
    - by apply processPath_absent.
    - by apply (processPath_empty p s (os.Regular "")). }
  apply IH. intros q Hq. apply H. by right.
Qed.

(** C9: a path whose file is absent or has zero bytes at load time is
    processed without an error and leaves the state, the record in it
    included, as it was; and when no hint is set and none of the default
    candidates is a regular file, [New] without options returns no error
    and the caller's record keeps its values (the world is untouched
    too). *)
Theorem absent_or_empty_file_changes_nothing :
  (∀ s p,
     os.files (world s) !! p = None
     ∨ os.files (world s) !! p = Some (os.Regular "") →
     processPath p s = (Ok tt, s))
  ∧ (∀ (cfg0 : T) w,
       os.Getenv FilePathEnvName w = "" →
       os.Getenv DirEnvName w = "" →
       (∀ p, p ∈ default_candidates w → is_regular w p = false) →
       New cfg0 [] w = (None, cfg0, w)).
Proof.
  split.
  - intros s p [H|H].
    + by apply processPath_absent.
    + by apply (processPath_empty p s (os.Regular "")).
  - intros cfg0 w Hf Hd Hnone. unfold New. rewrite newConfig_eq.
    rewrite (getConfigPaths_default (initial cfg0 w)) by done. simpl.
    assert (filter (λ p, is_regular w p) (default_candidates w) = []) as ->.
    { apply filter_none. intros p Hp. rewrite (Hnone p Hp). simpl. tauto. }
    reflexivity.
Qed.

(** C10: the check for an absent file comes before the choice of the
    decoder. A path with no file is processed without an error whatever
    its extension; and when [processPath] returns the unsupported
    extension error, the file is there, was opened, and its size is not
    zero. *)
Theorem unsupported_extension_only_for_content :
  (∀ s p, os.files (world s) !! p = None → processPath p s = (Ok tt, s))
  ∧ (∀ s p s' ext,
       processPath p s
       = (Fail (errors.New ("unsupported file extension: " +:+ ext)), s') →
       ∃ n, os.files (world s) !! p = Some n
            ∧ fst (os.Open p (world s)) = Ok (os.mkFile p n)
            ∧ os.Size (os.info n) ≠ 0%N
            ∧ format_of_ext (path.Ext p) = None).
Proof.
  split; [intros s p; apply processPath_absent|].
  intros s p s' ext H.
  destruct (os.files (world s) !! p) as [n|] eqn:Hp.
  2:{ rewrite (processPath_absent p s Hp) in H. discriminate. }
  assert (n = os.Inaccessible ∨ accessible n) as [->|Hn]
    by (destruct n; (by left) || (by right)).
  { rewrite (processPath_inaccessible p s Hp) in H. discriminate. }
  destruct (decide (os.Size (os.info n) = 0%N)) as [Hz|Hz].
  { rewrite (processPath_empty p s n Hp Hn Hz) in H. discriminate. }
  destruct (format_of_ext (path.Ext p)) as [fmt|] eqn:Hf.
  { rewrite (processPath_decode p s n fmt Hp Hn Hz Hf) in H.
    destruct (snd (Decode fmt _ _)); discriminate. }
  exists n. split; [done|]. split; [|done].
  unfold os.Open. rewrite Hp. by destruct n.
Qed.

(** C6 (as amended): the load stops at the first path that fails. With
    the paths before [p] loaded, and a file with content at [p]: when the
    decoder for [p]'s extension reports an error, [load] returns an error
    whose message names the format, on the state that decoder left, and
    whatever follows [p] in the list plays no part; when the extension
    is none of the supported ones, [load] returns the unsupported
    extension error on the state the earlier paths left. *)
Theorem load_stops_at_first_error s (pre post : list string) p s1 (n : os.node) :
  paths (self s) = pre ++ p :: post →
  load_from pre s = (Ok tt, s1) →
  os.files (world s1) !! p = Some n → accessible n →
  os.Size (os.info n) ≠ 0%N →
  match format_of_ext (path.Ext p) with
  | Some fmt =>
      ∀ de, snd (Decode fmt (os.mkFile p n) (cfg (self s1))) = Some de →
        ∃ e, load s
             = (Fail e, mkState (mkConfig (paths (self s1))
                                   (fst (Decode fmt (os.mkFile p n) (cfg (self s1)))))
                          (world s1))
             ∧ errors.Error e = "error while decoding " +:+ format_name fmt
                                +:+ " file: " +:+ errors.Error de
  | None =>
      load s = (Fail (errors.New ("unsupported file extension: " +:+ path.Ext p)), s1)
  end.
Proof.
  intros Hpaths Hpre Hp Hn Hz. unfold load. rewrite Hpaths.
  destruct (format_of_ext (path.Ext p)) as [fmt|] eqn:Hf.
  - intros de Hde. eexists. split.
    + eapply load_from_app_fail; [done|].
      rewrite (processPath_decode p s1 n fmt Hp Hn Hz Hf), Hde. reflexivity.
    + simpl. by rewrite !append_assoc.
  - eapply load_from_app_fail; [done|].
    by apply (processPath_unsupported p s1 n).
Qed.

End orchestrator.

(** ** WriteOne *)

Section write_one_claims.

Context {T : Type} {codec : Codec T}.

Implicit Types (s : state T) (w : World).

(** C7: every exit of [writeToFile]. When the temp file cannot be
    created, that error is returned. Otherwise the temp file is a new
    name, and it is gone when the call returns, on every exit: an
    extension no encoder exists for and an encoder's error are returned
    as errors, with the files as they were; a failed rename (onto another
    device, a directory, a path that cannot be looked up) is logged and
    the call returns no error, with the files as they were; and a rename
    that went through leaves the encoding at the target. *)
Theorem write_one_exits (fPath : string) s :
  match createTempFile ("config*" +:+ path.Ext fPath) (world s) with
  | (Fail e, w1) =>
      writeToFile fPath s = (Fail e, mkState (self s) w1)
      ∧ os.files w1 = os.files (world s)
  | (Ok f, w1) =>
      let r := fst (writeToFile fPath s) in
      let after := world (snd (writeToFile fPath s)) in
      os.files (world s) !! Name f = None
      ∧ os.files w1 !! Name f = Some (os.Regular "")
      ∧ os.files after !! Name f = None
      ∧ match format_of_ext (path.Ext fPath) with
        | None =>
            r = Fail (errors.New ("unsupported file extension: "
                                  +:+ path.Ext (Name f)))
            ∧ os.files after = os.files (world s)
        | Some fmt =>
            match encoding_error fmt (cfg (self s)) with
            | Some e => r = Fail e ∧ os.files after = os.files (world s)
            | None =>
                r = Ok tt
                ∧ match rename_errno (world s) fPath with
                  | Some errno =>
                      let err := errors.LinkError "rename" (Name f) fPath errno in
                      fst (os.Rename (Name f) fPath
                             (os.set_files
                                <[Name f := os.Regular (encoding fmt (cfg (self s)))]>
                                w1)) = Fail err
                      ∧ os.logged after
                        = os.logged (world s) ++ [rename_line (Name f) fPath err]
                      ∧ os.files after = os.files (world s)
                  | None =>
                      os.logged after = os.logged (world s)
                      ∧ (fPath ≠ Name f →
                         os.files after
                         = <[fPath := os.Regular (encoding fmt (cfg (self s)))]>
                             (os.files (world s)))
                  end
            end
        end
  end.
Proof.
  destruct (createTempFile _ (world s)) as [[f|e] w1] eqn:Htemp.
  2:{ rewrite writeToFile_eq, Htemp. split; [done|].
      apply CreateTemp_fail_inv in Htemp as [rest ->]. by destruct (world s). }
  rewrite (writeToFile_outcome fPath s f w1 Htemp).
  unfold createTempFile in Htemp.
  apply CreateTemp_inv in Htemp as (Hfresh & Hf & [rest Hw1] & _).
  assert (os.files w1 !! Name f = Some (os.Regular "")) as Hw1tmp.
  { rewrite Hw1. simpl. by rewrite lookup_insert_eq. }
  assert (os.files (os.set_random (os.random w1) (world s))
          = os.files (world s)) as Hbase by (by destruct (world s)).
  assert (os.logged (os.set_random (os.random w1) (world s))
          = os.logged (world s)) as Hlog by (by destruct (world s)).
  assert (∀ data, os.files
            (os.set_files <[fPath := os.Regular data]>
               (os.set_random (os.random w1) (world s)))
          = <[fPath := os.Regular data]> (os.files (world s))) as Hput
    by (intros; by destruct (world s)).
  cbv zeta.
  destruct (format_of_ext (path.Ext fPath)) as [fmt|]; cbn [fst snd world].
  2:{ by rewrite Hbase. }
  destruct (encoding_error fmt (cfg (self s))) as [e|]; cbn [fst snd world].
  { by rewrite Hbase. }
  destruct (rename_errno (world s) fPath) as [errno|] eqn:Hre;
    cbn [fst snd world].
  - assert (os.files (os.add_log
              (rename_line (Name f) fPath
                 (errors.LinkError "rename" (Name f) fPath errno))
              (os.set_random (os.random w1) (world s)))
            = os.files (world s)) as -> by (by destruct (world s)).
    assert (os.logged (os.add_log
              (rename_line (Name f) fPath
                 (errors.LinkError "rename" (Name f) fPath errno))
              (os.set_random (os.random w1) (world s)))
            = os.logged (world s)
              ++ [rename_line (Name f) fPath
                    (errors.LinkError "rename" (Name f) fPath errno)]) as ->
      by (by destruct (world s)).
    repeat (split; [done|]). split; [|done].
    rewrite (Rename_from_regular (Name f) fPath (encoding fmt (cfg (self s))))
      by (simpl; by rewrite lookup_insert_eq).
    assert (rename_errno
              (os.set_files
                 <[Name f := os.Regular (encoding fmt (cfg (self s)))]> w1) fPath
            = Some errno) as ->; [|done].
    rewrite <- Hre. unfold rename_errno. rewrite Hw1. simpl.
    replace (os.xdev (os.set_random rest (world s))) with (os.xdev (world s))
      by (by destruct (world s)).
    replace (os.files (os.set_random rest (world s))) with (os.files (world s))
      by (by destruct (world s)).
    case_bool_decide; [done|].
    destruct (decide (fPath = Name f)) as [->|Hne].
    + by rewrite lookup_insert_eq, Hfresh.
    + by rewrite !lookup_insert_ne by done.
  - destruct (decide (fPath = Name f)) as [Heq|Hne].
    + rewrite Hbase, Hlog. by repeat split.
    + rewrite Hput. rewrite lookup_insert_ne by done.
      assert (os.logged
                (os.set_files
                   <[fPath := os.Regular (encoding fmt (cfg (self s)))]>
                   (os.set_random (os.random w1) (world s)))
              = os.logged (world s)) as -> by (by destruct (world s)).
      by repeat split.
Qed.

End write_one_claims.

(** ** The explicit file *)

Section explicit_file.

Context {T : Type} {codec : Codec T}.

Implicit Types (s : state T) (w : World) (p : string).

Lemma setConfigPathForOneFile_missing s p :
  os.files (world s) !! p = None →
  setConfigPathForOneFile p s
  = writeToFile p (mkState (self s)
                     (os.set_files <[p := os.Regular ""]> (world s))).
Proof.
  intros H. unfold setConfigPathForOneFile. st_unfold.
  rewrite fileExists_spec. unfold is_regular, os.Create. rewrite H. simpl.
  by rewrite H.
Qed.

Lemma setConfigPathForOneFile_blocked s p (n : os.node) :
  os.files (world s) !! p = Some n → is_regular (world s) p = false →
  ∃ e, setConfigPathForOneFile p s = (Fail e, s).
Proof.
  intros H Hreg. unfold setConfigPathForOneFile. st_unfold.
  rewrite fileExists_spec, Hreg. unfold is_regular in Hreg.
  unfold os.Create. rewrite H in *. simpl. rewrite H.
  destruct n; [done| |]; eexists; simpl; by rewrite state_eta'.
Qed.

(** C1 (as amended): resolution with an explicit file [p]. A regular
    file at [p] is the whole path list, and nothing is touched. A
    directory or a path that cannot be looked up at [p] makes the
    creation fail, and that error is returned. With nothing at [p] the
    file is created empty and the record, which no file was loaded into
    yet, is written to it through a temp file: a temp file that cannot
    be created, an extension no encoder exists for and an encoder's
    error are returned as errors and leave the created file empty; when
    [p] lies on another device than the temp area the rename fails, is
    logged, and resolution returns no error with the created file still
    empty; otherwise resolution returns no error and the file holds the
    record's encoding in the format of [p]'s extension. *)
Theorem explicit_file_resolution (cfg0 : T) w p :
  os.Getenv FilePathEnvName w = p → p ≠ "" →
  let s := initial cfg0 w in
  let r := fst (getConfigPaths s) in
  let after := world (snd (getConfigPaths s)) in
  let empty := <[p := os.Regular ""]> (os.files w) in
  (is_regular w p = true →
   getConfigPaths s = (Ok tt, mkState (mkConfig [p] cfg0) w))
  ∧ (∀ n, os.files w !! p = Some n → is_regular w p = false →
       ∃ e, getConfigPaths s = (Fail e, s))
  ∧ (os.files w !! p = None →
     match createTempFile ("config*" +:+ path.Ext p)
             (os.set_files <[p := os.Regular ""]> w) with
     | (Fail e, _) => r = Fail e ∧ os.files after = empty
     | (Ok f, _) =>
         match format_of_ext (path.Ext p) with
         | None => (∃ e, r = Fail e) ∧ os.files after = empty
         | Some fmt =>
             match encoding_error fmt cfg0 with
             | Some e => r = Fail e ∧ os.files after = empty
             | None =>
                 r = Ok tt
                 ∧ if bool_decide (p ∈ os.xdev w) then
                     os.files after = empty
                     ∧ os.logged after
                       = os.logged w
                         ++ [rename_line (Name f) p
                               (errors.LinkError "rename" (Name f) p errors.EXDEV)]
                   else
                     os.files after
                     = <[p := os.Regular (encoding fmt cfg0)]> (os.files w)
             end
         end
     end).
Proof.
  intros Hp Hne s r after empty.
  assert (getConfigPaths s = setConfigPathForOneFile p s) as Hres
    by (by apply getConfigPaths_explicit).
  split; [|split].
  - intros Hreg. rewrite Hres. by apply setConfigPathForOneFile_present.
  - intros n Hn Hreg. rewrite Hres. by apply (setConfigPathForOneFile_blocked s p n).
  - intros Hnone. unfold r, after. rewrite Hres.
    rewrite (setConfigPathForOneFile_missing s p Hnone).
    set (w0 := os.set_files <[p := os.Regular ""]> w).
    set (s0 := mkState (self s) (os.set_files <[p := os.Regular ""]> (world s))).
    assert (os.files w0 = empty) as Hw0 by done.
    destruct (createTempFile ("config*" +:+ path.Ext p) w0)
      as [[f|e] w1] eqn:Htemp.
    2:{ rewrite writeToFile_eq. change (world s0) with w0. rewrite Htemp.
        split; [done|]. simpl.
        apply CreateTemp_fail_inv in Htemp as [rest ->]. by destruct w. }
    rewrite (writeToFile_outcome p s0 f w1 Htemp).
    change (world s0) with w0. change (cfg (self s0)) with cfg0.
    assert (os.files (os.set_random (os.random w1) w0) = empty) as Hbase
      by (by destruct w).
    unfold createTempFile in Htemp.
    apply CreateTemp_inv in Htemp as (Hfresh & _).
    assert (p ≠ Name f) as Hpf.
    { intros ->. rewrite Hw0 in Hfresh. unfold empty in Hfresh.
      by rewrite lookup_insert_eq in Hfresh. }
    destruct (format_of_ext (path.Ext p)) as [fmt|]; cbn [fst snd world].
    2:{ split; [by eexists|done]. }
    destruct (encoding_error fmt cfg0) as [e|]; cbn [fst snd world].
    { done. }
    assert (rename_errno w0 p
            = if bool_decide (p ∈ os.xdev w) then Some errors.EXDEV else None)
      as ->.
    { unfold rename_errno. change (os.xdev w0) with (os.xdev w).
      case_bool_decide; [done|]. rewrite Hw0. unfold empty.
      by rewrite lookup_insert_eq. }
    case_bool_decide; cbn [fst snd world].
    + split; [done|]. split; [by destruct w|by destruct w].
    + rewrite decide_False by done. split; [done|].
      unfold w0. destruct w; simpl. by rewrite insert_insert_eq.
Qed.

End explicit_file.

(** ** Options in order, and the directory search end to end *)

Section options.

Context {T : Type} {codec : Codec T}.

Implicit Types (s : state T) (w : World) (p : string).

Lemma apply_all_cons (f : Option T) (rest : list (Option T)) s :
  apply_all (f :: rest) s
  = match apply f s with
    | (Ok _, s') => apply_all rest s'
    | (Fail e, s') => (Fail e, s')
    end.
Proof. reflexivity. Qed.

Lemma applied_in_order_apply_all (opts : list (Option T)) s s' :
  applied_in_order s opts s' → apply_all opts s = (Ok tt, s').
Proof.
  induction 1 as [s|s s1 s2 f rest Hf _ IH]; [reflexivity|].
  by rewrite apply_all_cons, Hf.
Qed.

Lemma apply_all_applied_in_order (opts : list (Option T)) s s' :
  apply_all opts s = (Ok tt, s') → applied_in_order s opts s'.
Proof.
  revert s. induction opts as [|f rest IH]; intros s H.
  - injection H as <-. constructor.
  - rewrite apply_all_cons in H.
    destruct (apply f s) as [[[]|e] s1] eqn:Hf; [|done].
    econstructor; [done|by apply IH].
Qed.

Lemma apply_all_first_failure (pre post : list (Option T)) (o : Option T)
    s s2 s3 e :
  applied_in_order s pre s2 → apply o s2 = (Fail e, s3) →
  apply_all (pre ++ o :: post) s = (Fail e, s3).
Proof.
  induction 1 as [s|s s1 s2 f rest Hf _ IH]; intros Ho.
  - change ([] ++ o :: post) with (o :: post). by rewrite apply_all_cons, Ho.
  - rewrite <- app_comm_cons, apply_all_cons, Hf. by apply IH.
Qed.

(** C2: [New] resolves the paths, loads the files, and then applies the
    options in the order they were given, each on the state the one
    before it left; an error of the resolution or of the load ends the
    call before any option. When all options succeed, [New] returns no
    error and leaves what the last one left. The first option that
    returns an error ends the call with that error: no option after it is
    applied, whatever it is. So when that option is a validation, what
    [New] leaves behind is the record as the validation left it and the
    world as it was when the validation ran: a write to a file listed
    after it is not run, and its target is neither created nor changed. *)
Theorem options_in_order_until_first_failure (cfg0 : T) w :
  match getConfigPaths (initial cfg0 w) with
  | (Fail e, s0) =>
      ∀ opts, New cfg0 opts w = (Some e, cfg (self s0), world s0)
  | (Ok _, s0) =>
      match load s0 with
      | (Fail e, s1) =>
          ∀ opts, New cfg0 opts w = (Some e, cfg (self s1), world s1)
      | (Ok _, s1) =>
          (∀ opts s2,
             applied_in_order s1 opts s2 →
             New cfg0 opts w = (None, cfg (self s2), world s2))
          ∧ (∀ pre o post s2 s3 e,
               applied_in_order s1 pre s2 →
               apply o s2 = (Fail e, s3) →
               New cfg0 (pre ++ o :: post) w
               = (Some e, cfg (self s3), world s3))
          ∧ (∀ pre f between target post s2 v e,
               applied_in_order s1 pre s2 →
               f (cfg (self s2)) = (v, Some e) →
               let opts := pre ++ WithValidation f
                             :: between ++ WithWritingConfigToFile target :: post in
               New cfg0 opts w = (Some e, v, world s2)
               ∧ os.files (snd (New cfg0 opts w)) !! target
                 = os.files (world s2) !! target)
      end
  end.
Proof.
  destruct (getConfigPaths (initial cfg0 w)) as [[[]|e0] s0] eqn:Hres.
  2:{ intros opts. unfold New. by rewrite newConfig_eq, Hres. }
  destruct (load s0) as [[[]|e1] s1] eqn:Hload.
  2:{ intros opts. unfold New. by rewrite newConfig_eq, Hres, Hload. }
  assert (∀ pre o post s2 s3 e,
            applied_in_order s1 pre s2 →
            apply o s2 = (Fail e, s3) →
            New cfg0 (pre ++ o :: post) w = (Some e, cfg (self s3), world s3))
    as Hfail.
  { intros pre o post s2 s3 e Hpre Ho. unfold New.
    rewrite newConfig_eq, Hres, Hload.
    by rewrite (apply_all_first_failure pre post o s1 s2 s3 e). }
  split; [|split; [exact Hfail|]].
  - intros opts s2 Hopts. unfold New.
    rewrite newConfig_eq, Hres, Hload.
    by rewrite (applied_in_order_apply_all opts s1 s2).
  - intros pre f between target post s2 v e Hpre Hf opts.
    assert (New cfg0 opts w = (Some e, v, world s2)) as HNew.
    { unfold opts.
      rewrite (Hfail pre (WithValidation f) _ s2
                 (mkState (mkConfig (paths (self s2)) v) (world s2)) e Hpre);
        [done|].
      unfold apply, WithValidation. by rewrite Hf. }
    by rewrite HNew.
Qed.

(** C8: with a directory hint [d] (and no explicit file), the path list
    is what is a regular file among [d/config.json], [d/config.toml],
    [d/config.yml], [d/config.yaml], in that order. And when [d] holds a
    [config.json] and a [config.yaml] with content (and no
    [config.toml], no [config.yml]), the two are decoded one after the
    other: the JSON decoder runs on the caller's record, the YAML
    decoder on the record the JSON decoder left, and, neither reporting
    an error, [New] returns no error and leaves the record the YAML
    decoder left. So when the JSON file sets the field [a] to x and the
    YAML file sets it to y, [a] is x after the first file and y in the
    record [New] leaves. *)
Theorem directory_search_later_file_wins (a : T → string) :
  (∀ (cfg0 : T) w d,
     os.Getenv FilePathEnvName w = "" → os.Getenv DirEnvName w = d → d ≠ "" →
     getConfigPaths (initial cfg0 w)
     = (Ok tt,
        mkState (mkConfig
                   (filter (λ p, is_regular w p)
                      [path.Join [d; "config.json"]; path.Join [d; "config.toml"];
                       path.Join [d; "config.yml"]; path.Join [d; "config.yaml"]])
                   cfg0) w))
  ∧ (∀ (cfg0 : T) w d (json yaml : string),
       os.Getenv FilePathEnvName w = "" → os.Getenv DirEnvName w = d → d ≠ "" →
       os.files w !! path.Join [d; "config.json"] = Some (os.Regular json) →
       os.files w !! path.Join [d; "config.yaml"] = Some (os.Regular yaml) →
       json ≠ "" → yaml ≠ "" →
       is_regular w (path.Join [d; "config.toml"]) = false →
       is_regular w (path.Join [d; "config.yml"]) = false →
       let jsonFile := os.mkFile (path.Join [d; "config.json"])
                         (os.Regular json) in
       let yamlFile := os.mkFile (path.Join [d; "config.yaml"])
                         (os.Regular yaml) in
       let afterJson := fst (Decode JSON jsonFile cfg0) in
       let afterYaml := fst (Decode YAML yamlFile afterJson) in
       snd (Decode JSON jsonFile cfg0) = None →
       snd (Decode YAML yamlFile afterJson) = None →
       paths (self (snd (getConfigPaths (initial cfg0 w))))
       = [path.Join [d; "config.json"]; path.Join [d; "config.yaml"]]
       ∧ load_from [path.Join [d; "config.json"]]
           (mkState (mkConfig [path.Join [d; "config.json"];
                               path.Join [d; "config.yaml"]] cfg0) w)
         = (Ok tt,
            mkState (mkConfig [path.Join [d; "config.json"];
                               path.Join [d; "config.yaml"]] afterJson) w)
       ∧ New cfg0 [] w = (None, afterYaml, w)
       ∧ (∀ x y,
            (∀ v, a (fst (Decode JSON jsonFile v)) = x) →
            (∀ v, a (fst (Decode YAML yamlFile v)) = y) →
            a afterJson = x ∧ a afterYaml = y)).
Proof.
  split.
  { intros cfg0 w d Hf Hd Hne.
    by rewrite (getConfigPaths_directory (initial cfg0 w) d). }
  intros cfg0 w d json yaml Hf Hd Hne Hj Hy Hjne Hyne Ht Hm
    jsonFile yamlFile afterJson afterYaml Hdj Hdy.
  assert (filter (λ p, is_regular w p) (directory_candidates d)
          = [path.Join [d; "config.json"]; path.Join [d; "config.yaml"]]) as Hfound.
  { unfold directory_candidates, jsonConfigFileName, tomlConfigFileName,
      ymlConfigFileName, yamlConfigFileName.
    rewrite filter_cons, decide_True by (unfold is_regular; by rewrite Hj).
    rewrite filter_cons, decide_False by (rewrite Ht; simpl; tauto).
    rewrite filter_cons, decide_False by (rewrite Hm; simpl; tauto).
    rewrite filter_cons, decide_True by (unfold is_regular; by rewrite Hy).
    reflexivity. }
  assert (∀ data : string, data ≠ "" →
            os.Size (os.info (os.Regular data)) ≠ 0%N) as Hsize.
  { intros data Hdata. simpl. destruct data; [done|]. simpl. lia. }
  assert (format_of_ext (path.Ext (path.Join [d; "config.json"])) = Some JSON)
    as Hextj.
  { change "config.json" with jsonConfigFileName.
    by rewrite (Ext_Join_json d Hne). }
  assert (format_of_ext (path.Ext (path.Join [d; "config.yaml"])) = Some YAML)
    as Hexty.
  { change "config.yaml" with yamlConfigFileName.
    by rewrite (Ext_Join_yaml d Hne). }
  set (ps := [path.Join [d; "config.json"]; path.Join [d; "config.yaml"]]) in *.
  assert (processPath (path.Join [d; "config.json"])
            (mkState (mkConfig ps cfg0) w)
          = (Ok tt, mkState (mkConfig ps afterJson) w)) as Hfirst.
  { rewrite (processPath_decode _ _ (os.Regular json) JSON);
      [|exact Hj|done|by apply Hsize|exact Hextj].
    cbn [world self paths cfg]. fold jsonFile. rewrite Hdj. done. }
  assert (processPath (path.Join [d; "config.yaml"])
            (mkState (mkConfig ps afterJson) w)
          = (Ok tt, mkState (mkConfig ps afterYaml) w)) as Hsecond.
  { rewrite (processPath_decode _ _ (os.Regular yaml) YAML);
      [|exact Hy|done|by apply Hsize|exact Hexty].
    cbn [world self paths cfg]. fold yamlFile. rewrite Hdy. done. }
  rewrite (getConfigPaths_directory (initial cfg0 w) d) by done.
  split; [exact Hfound|].
  split; [by rewrite load_from_cons, Hfirst|].
  split.
  - unfold New. rewrite newConfig_eq.
    rewrite (getConfigPaths_directory (initial cfg0 w) d) by done.
    change (world (initial cfg0 w)) with w. rewrite Hfound. fold ps.
    unfold load. cbn [self paths initial cfg]. unfold ps at 1.
    rewrite load_from_cons, Hfirst, load_from_cons, Hsecond.
    cbn [load_from apply_all]. st_unfold. done.
  - intros x y Hx Hy'. split; [apply Hx|apply Hy'].
Qed.

End options.

(** ** SyncAll *)

Lemma completion_order_Permutation (n : nat) (sched : list nat) :
  completion_order n sched ≡ₚ seq 0 n.
Proof.
  unfold completion_order.
  set (named := remove_dups (filter (λ i, i < n) sched)).
  apply NoDup_Permutation.
  - apply NoDup_app. split; [apply NoDup_remove_dups|]. split.
    + intros i Hi Hd. apply list_elem_of_difference in Hd as [_ Hd]. done.
    + apply NoDup_list_difference, NoDup_seq.
  - apply NoDup_seq.
  - intros i. rewrite elem_of_app, list_elem_of_difference. split.
    + intros [Hi|[Hi _]]; [|done].
      apply elem_of_remove_dups, list_elem_of_filter in Hi as [Hi _].
      apply elem_of_seq. lia.
    + intros Hi. destruct (decide (i ∈ named)); [by left|by right].
Qed.

(** Every order of the goroutines is one the scheduler can pick. *)
Lemma completion_order_any (n : nat) (sched : list nat) :
  sched ≡ₚ seq 0 n → completion_order n sched = sched.
Proof.
  intros Hperm. unfold completion_order.
  assert (NoDup sched) as Hnd by (rewrite Hperm; apply NoDup_seq).
  assert (filter (λ i, i < n) sched = sched) as ->.
  { apply filter_all. intros i Hi.
    rewrite Hperm in Hi. apply elem_of_seq in Hi. lia. }
  assert (remove_dups sched = sched) as ->.
  { clear Hperm. induction Hnd as [|i l Hi _ IH]; [done|].
    change (remove_dups (i :: l))
      with (if decide_rel (∈) i l then remove_dups l else i :: remove_dups l).
    destruct (decide_rel _ i l); [done|by rewrite IH]. }
  assert (list_difference (seq 0 n) sched = []) as ->; [|by rewrite app_nil_r].
  destruct (list_difference (seq 0 n) sched) as [|i rest] eqn:E; [done|].
  assert (i ∈ list_difference (seq 0 n) sched) as Hi by (rewrite E; by left).
  apply list_elem_of_difference in Hi as [Hi Hout].
  exfalso. apply Hout. by rewrite Hperm.
Qed.

Lemma omap_lookup_seq {X} (pre l : list X) :
  omap (λ i, (pre ++ l) !! i) (seq (length pre) (length l)) = l.
Proof.
  revert pre. induction l as [|x l IH]; intros pre; [reflexivity|].
  simpl. rewrite list_lookup_middle by done. f_equal.
  specialize (IH (pre ++ [x])). rewrite <- app_assoc in IH. simpl in IH.
  rewrite length_app in IH. simpl in IH.
  by rewrite Nat.add_1_r in IH.
Qed.

(** The goroutines' targets are the paths, each once. *)
Lemma targets_Permutation (ps : list string) (sched : list nat) :
  omap (λ i, ps !! i) (completion_order (length ps) sched) ≡ₚ ps.
Proof.
  rewrite completion_order_Permutation.
  by rewrite (omap_lookup_seq [] ps : omap (λ i, ps !! i) (seq 0 (length ps)) = ps).
Qed.

Lemma tree_self (e : error) : e ∈ errors.tree e.
Proof. destruct e; by left. Qed.

Lemma tree_joined (l : list error) (x e : error) :
  x ∈ l → e ∈ errors.tree x → e ∈ errors.tree (errors.joinError l).
Proof.
  intros Hx He. simpl. right.
  induction l as [|y l IH]; [by apply elem_of_nil in Hx|].
  apply elem_of_cons in Hx as [<-|Hx]; apply elem_of_app; [by left|right; by apply IH].
Qed.


Lemma drained_holds (errCh : list error) (acc : option error) :
  (∀ a e, acc = Some a → e ∈ errors.tree a →
     ∃ agg, drained acc errCh = Some agg ∧ errors.Is agg e)
  ∧ (∀ e, e ∈ errCh → ∃ agg, drained acc errCh = Some agg ∧ errors.Is agg e).
Proof.
  revert acc. induction errCh as [|x errCh IH]; intros acc.
  - split; [|by intros e He; apply elem_of_nil in He].
    intros a e -> He. by exists a.
  - destruct (IH (errors.Join [acc; Some x])) as [IHacc IHin].
    assert (∃ j, errors.Join [acc; Some x] = Some j
                 ∧ x ∈ errors.tree j
                 ∧ ∀ a e, acc = Some a → e ∈ errors.tree a → e ∈ errors.tree j)
      as (j & Hj & Hxj & Haj).
    { destruct acc as [a|]; eexists; (split; [reflexivity|]); split.
      - apply (tree_joined _ x); [by right; left|apply tree_self].
      - intros a' e [= <-] He. apply (tree_joined _ a); [by left|done].
      - apply (tree_joined _ x); [by left|apply tree_self].
      - done. }
    split.
    + intros a e Ha He. apply (IHacc j e Hj). by apply (Haj a).
    + intros e He. apply elem_of_cons in He as [->|He].
      * by apply (IHacc j x Hj).
      * by apply IHin.
Qed.

Lemma drained_none (errCh : list error) (acc : option error) :
  drained acc errCh = None ↔ acc = None ∧ errCh = [].
Proof.
  split.
  - destruct errCh as [|x errCh]; [intros H; split; [exact H|done]|].
    intros H. exfalso.
    destruct (drained_holds (x :: errCh) acc) as [_ Hin].
    destruct (Hin x) as (agg & Hagg & _); [by left|]. congruence.
  - by intros [-> ->].
Qed.

Section sync_all.

Context {T : Type} {codec : Codec T}.

Implicit Types (s : state T) (w : World) (p : string).

Lemma write_each_cons (fPath : string) (rest : list string) s :
  write_each (fPath :: rest) s
  = ((fPath, err_of (fst (writeToFile fPath s)))
       :: fst (write_each rest (snd (writeToFile fPath s))),
     snd (write_each rest (snd (writeToFile fPath s)))).
Proof.
  simpl. destruct (writeToFile fPath s) as [r s1]. simpl.
  by destruct (write_each rest s1).
Qed.

(** The goroutines, run in their order, are the writes one after the
    other; each counts the wait group down, and the channel gets the
    errors in that order. *)
Lemma run_goroutines_write_each (targets : list string) (wg : nat)
    (errCh : list error) s :
  run_goroutines targets wg errCh s
  = (Ok (wg - length targets, errCh ++ omap snd (fst (write_each targets s))),
     snd (write_each targets s)).
Proof.
  revert wg errCh s. induction targets as [|fPath rest IH]; intros wg errCh s.
  - simpl. unfold mret, ST_ret, ret. by rewrite Nat.sub_0_r, app_nil_r.
  - rewrite write_each_cons. cbn [fst snd length].
    assert (run_goroutines (fPath :: rest) wg errCh s
            = run_goroutines rest (pred wg)
                (match fst (writeToFile fPath s) with
                 | Fail err => errCh ++ [err]
                 | Ok _ => errCh
                 end) (snd (writeToFile fPath s))) as ->.
    { simpl. unfold writeToFileAsync. st_unfold.
      by destruct (writeToFile fPath s) as [[[]|e] s1]. }
    rewrite IH. f_equal. f_equal. f_equal.
    + lia.
    + destruct (fst (writeToFile fPath s)) as [[]|e]; simpl; [done|].
      by rewrite <- app_assoc.
Qed.

(** [writeToFiles]: the writes of the targets in the order of
    completion, then the channel drained into one error. *)
Lemma writeToFiles_eq s :
  let targets := omap (λ i, paths (self s) !! i)
                   (completion_order (length (paths (self s)))
                      (os.sched (world s))) in
  writeToFiles s
  = (match drained None (omap snd (fst (write_each targets s))) with
     | Some e => Fail e
     | None => Ok tt
     end, snd (write_each targets s)).
Proof.
  intros targets. unfold writeToFiles. st_unfold. fold targets.
  rewrite run_goroutines_write_each. simpl. unfold drained.
  by destruct (fold_left _ _ _).
Qed.

Lemma is_regular_insert w p q (data : string) (fs : gmap string os.node) :
  os.files w = fs →
  match fs !! p with Some (os.Regular _) => true | _ => false end = true →
  match <[q := os.Regular data]> fs !! p with
  | Some (os.Regular _) => true
  | _ => false
  end = true.
Proof.
  intros _ H. destruct (decide (q = p)) as [->|Hne].
  - by rewrite lookup_insert_eq.
  - by rewrite lookup_insert_ne.
Qed.

(** A regular file stays one through a write, whatever the target. *)
Lemma writeToFile_regular (fPath : string) s p :
  is_regular (world s) p = true →
  is_regular (world (snd (writeToFile fPath s))) p = true.
Proof.
  unfold is_regular. intros H.
  destruct (writeToFile_files fPath s) as [->|[data ->]]; [done|].
  by apply (is_regular_insert (world s)).
Qed.

(** A file that holds the record's encoding keeps it through a write,
    whatever the target. *)
Lemma writeToFile_keeps (fPath : string) s p (fmt : format) :
  format_of_ext (path.Ext p) = Some fmt →
  os.files (world s) !! p = Some (os.Regular (encoding fmt (cfg (self s)))) →
  os.files (world (snd (writeToFile fPath s))) !! p
  = Some (os.Regular (encoding fmt (cfg (self s)))).
Proof.
  intros Hfmt Hp. destruct (decide (fPath = p)) as [->|Hne].
  2:{ destruct (writeToFile_files fPath s) as [->|[data ->]]; [done|].
      by rewrite lookup_insert_ne. }
  destruct (createTempFile ("config*" +:+ path.Ext p) (world s))
    as [[f|e] w1] eqn:Htemp.
  - rewrite (writeToFile_outcome p s f w1 Htemp), Hfmt.
    destruct (encoding_error _ _); [by destruct (world s)|].
    destruct (rename_errno _ _); [by destruct (world s)|].
    destruct (decide _); [by destruct (world s)|].
    cbn [snd world]. destruct (world s); simpl in *. by rewrite lookup_insert_eq.
  - rewrite writeToFile_eq, Htemp. simpl.
    apply CreateTemp_fail_inv in Htemp as [rest ->]. by destruct (world s).
Qed.

(** A write that returns no error, to a regular file with a supported
    extension on the temp area's device, leaves the encoding there. *)
Lemma writeToFile_written s p (fmt : format) :
  fst (writeToFile p s) = Ok tt →
  is_regular (world s) p = true → p ∉ os.xdev (world s) →
  format_of_ext (path.Ext p) = Some fmt →
  os.files (world (snd (writeToFile p s))) !! p
  = Some (os.Regular (encoding fmt (cfg (self s)))).
Proof.
  intros Hok Hreg Hx Hfmt.
  destruct (createTempFile ("config*" +:+ path.Ext p) (world s))
    as [[f|e] w1] eqn:Htemp.
  2:{ rewrite writeToFile_eq, Htemp in Hok. discriminate. }
  rewrite (writeToFile_outcome p s f w1 Htemp), Hfmt in Hok |- *.
  destruct (encoding_error _ _); [discriminate|].
  assert (rename_errno (world s) p = None) as ->.
  { unfold rename_errno. rewrite bool_decide_eq_false_2 by done.
    unfold is_regular in Hreg.
    by destruct (os.files (world s) !! p) as [[| |]|]. }
  unfold createTempFile in Htemp.
  apply CreateTemp_inv in Htemp as (Hfresh & _).
  rewrite decide_False.
  2:{ intros ->. unfold is_regular in Hreg. by rewrite Hfresh in Hreg. }
  cbn [snd world]. destruct (world s); simpl in *. by rewrite lookup_insert_eq.
Qed.

Lemma write_each_setting (targets : list string) s :
  self (snd (write_each targets s)) = self s
  ∧ os.xdev (world (snd (write_each targets s))) = os.xdev (world s).
Proof.
  revert s. induction targets as [|q rest IH]; intros s; [done|].
  rewrite write_each_cons. cbn [snd].
  destruct (IH (snd (writeToFile q s))) as [-> ->].
  destruct (writeToFile_setting q s) as (-> & _ & _ & _ & -> & _). done.
Qed.

Lemma write_each_keeps (targets : list string) s p (fmt : format) :
  format_of_ext (path.Ext p) = Some fmt →
  os.files (world s) !! p = Some (os.Regular (encoding fmt (cfg (self s)))) →
  os.files (world (snd (write_each targets s))) !! p
  = Some (os.Regular (encoding fmt (cfg (self s)))).
Proof.
  intros Hfmt. revert s. induction targets as [|q rest IH]; intros s Hp; [done|].
  rewrite write_each_cons. cbn [snd].
  destruct (writeToFile_setting q s) as (Hself & _).
  rewrite <- Hself. apply IH. rewrite Hself. by apply writeToFile_keeps.
Qed.

(** Whatever the other writes did, a path whose own write returned no
    error holds the encoding when all are done. *)
Lemma write_each_written (targets : list string) s p (fmt : format) :
  (p, None) ∈ fst (write_each targets s) →
  is_regular (world s) p = true → p ∉ os.xdev (world s) →
  format_of_ext (path.Ext p) = Some fmt →
  os.files (world (snd (write_each targets s))) !! p
  = Some (os.Regular (encoding fmt (cfg (self s)))).
Proof.
  intros Hin Hreg Hx Hfmt. revert s Hin Hreg Hx.
  induction targets as [|q rest IH]; intros s Hin Hreg Hx.
  { by apply elem_of_nil in Hin. }
  rewrite write_each_cons in Hin |- *. cbn [fst snd] in *.
  destruct (writeToFile_setting q s) as (Hself & _ & _ & _ & Hxdev & _).
  apply elem_of_cons in Hin as [[= <- Hok]|Hin].
  - rewrite <- Hself. apply write_each_keeps; [done|]. rewrite Hself.
    apply writeToFile_written; try done.
    by destruct (fst (writeToFile p s)) as [[]|].
  - rewrite <- Hself. apply IH; [done| |by rewrite Hxdev].
    by apply writeToFile_regular.
Qed.

(** C3: [writeToFiles] runs one write per path of the list, in the order
    the scheduler lets the goroutines complete, and returns when all are
    done: the wait group is down to zero, and the channel, which never
    holds more than its capacity, has the error of every write that
    returned one. Every such error is in the aggregate, which is an
    error exactly when some write returned one. And a path's write is not
    held up by its siblings' failures: a regular file with a supported
    extension, on the temp area's device, whose own write returned no
    error, holds the record's encoding at the end. *)
Theorem sync_all_collects_every_failure s :
  let targets := omap (λ i, paths (self s) !! i)
                   (completion_order (length (paths (self s)))
                      (os.sched (world s))) in
  let outs := fst (write_each targets s) in
  let r := fst (writeToFiles s) in
  let after := snd (writeToFiles s) in
  targets ≡ₚ paths (self s)
  ∧ after = snd (write_each targets s)
  ∧ (∃ errCh,
       fst (run_goroutines targets (length (paths (self s))) [] s)
       = Ok (0, errCh)
       ∧ errCh = omap snd outs
       ∧ (length errCh <= length (paths (self s)))%nat)
  ∧ (r = Ok tt ↔ ∀ p o, (p, o) ∈ outs → o = None)
  ∧ (∀ p e, (p, Some e) ∈ outs → ∃ agg, r = Fail agg ∧ errors.Is agg e)
  ∧ (∀ p fmt,
       (p, None) ∈ outs →
       is_regular (world s) p = true → p ∉ os.xdev (world s) →
       format_of_ext (path.Ext p) = Some fmt →
       os.files (world after) !! p
       = Some (os.Regular (encoding fmt (cfg (self s))))).
Proof.
  intros targets outs r after.
  assert (writeToFiles s
          = (match drained None (omap snd outs) with
             | Some e => Fail e
             | None => Ok tt
             end, snd (write_each targets s))) as Heq
    by apply writeToFiles_eq.
  unfold r, after. rewrite Heq. cbn [fst snd].
  split; [apply targets_Permutation|]. split; [done|].
  split; [|split; [|split]].
  - exists (omap snd outs). rewrite run_goroutines_write_each.
    assert (length targets = length (paths (self s))) as Hlen
      by (unfold targets; by rewrite targets_Permutation).
    split; [by rewrite Hlen, Nat.sub_diag|]. split; [done|].
    rewrite <- Hlen. unfold outs. clear.
    generalize s. induction targets as [|q rest IH]; intros s0; [done|].
    rewrite write_each_cons. cbn [fst omap].
    specialize (IH (snd (writeToFile q s0))).
    unfold omap in IH. destruct (err_of _); simpl; lia.
  - split.
    + intros Hok p o Hin.
      destruct (drained None (omap snd outs)) as [e|] eqn:Hd; [done|].
      apply drained_none in Hd as [_ Hd].
      destruct o as [e|]; [|done].
      assert (e ∈ omap snd outs) as He.
      { apply list_elem_of_omap. by exists (p, Some e). }
      rewrite Hd in He. by apply elem_of_nil in He.
    + intros Hall.
      assert (omap snd outs = []) as ->; [|done].
      destruct (omap snd outs) as [|e l] eqn:E; [done|].
      assert (e ∈ omap snd outs) as He by (rewrite E; by left).
      apply list_elem_of_omap in He as ([p o] & Hin & Hsnd). simpl in Hsnd.
      subst o. by specialize (Hall p (Some e) Hin).
  - intros p e Hin.
    destruct (drained_holds (omap snd outs) None) as [_ Hcoll].
    destruct (Hcoll e) as (agg & -> & His).
    { apply list_elem_of_omap. by exists (p, Some e). }
    by exists agg.
  - intros p fmt Hin Hreg Hx Hfmt. by apply write_each_written.
Qed.

End sync_all.

(** ** The hints: [SetConfigDir], [SetConfigPath] and the resolver *)

Lemma has_byte_app (b : ascii) (x y : string) :
  has_byte b (x +:+ y) = has_byte b x || has_byte b y.
Proof. unfold has_byte. rewrite chars_app. apply existsb_app. Qed.

Lemma os_Setenv_hint (key value : string) w :
  key = DirEnvName ∨ key = FilePathEnvName →
  os_Setenv key value w
  = if has_byte nul value then (Some (mkSyscallError "setenv"), w)
    else (None, set_environ <[key := value]> w).
Proof. intros [->| ->]; reflexivity. Qed.

Lemma Getenv_set_same (key value : string) w :
  os.Getenv key (set_environ <[key := value]> w) = value.
Proof. unfold os.Getenv. simpl. by rewrite lookup_insert_eq. Qed.

Lemma Getenv_set_other (key other value : string) w :
  key ≠ other →
  os.Getenv other (set_environ <[key := value]> w) = os.Getenv other w.
Proof. intros Hne. unfold os.Getenv. simpl. by rewrite lookup_insert_ne. Qed.

Lemma hint_names_differ : DirEnvName ≠ FilePathEnvName.
Proof. discriminate. Qed.

Lemma is_regular_files w w' p :
  os.files w' = os.files w → is_regular w' p = is_regular w p.
Proof. unfold is_regular. by intros ->. Qed.

Lemma found_files w w' (candidates : list string) :
  os.files w' = os.files w → found w' candidates = found w candidates.
Proof.
  intros Hfiles. unfold found.
  induction candidates as [|p rest IH]; [done|].
  rewrite !filter_cons, IH, (is_regular_files w w' p Hfiles). done.
Qed.

(** A doubled slash between the directory and the name is the same to
    [path.Join] as a single one. *)
Lemma fold_clean_skip (rooted : bool) (l1 l2 : list string) (out : list string) :
  fold_left (path.clean_step rooted) (l1 ++ "" :: l2) out
  = fold_left (path.clean_step rooted) (l1 ++ l2) out.
Proof. by rewrite !fold_left_app. Qed.

Lemma is_rooted_app (d x : string) :
  d ≠ "" → path.is_rooted (d +:+ x) = path.is_rooted d.
Proof. by destruct d. Qed.

Lemma Join_trailing_slash (d b : string) :
  d ≠ "" → path.Join [d +:+ "/"; b] = path.Join [d; b].
Proof.
  intros Hd. unfold path.Join. cbn [path.join_buf].
  rewrite (bool_decide_eq_true_2 ("" = "")) by done.
  assert (d +:+ "/" ≠ "") as Hd' by (by destruct d).
  rewrite (bool_decide_eq_false_2 (d +:+ "/" = "")) by done.
  rewrite (bool_decide_eq_false_2 (d = "")) by done.
  assert (∀ x, d +:+ x ≠ "") as Hne by (intros x; by destruct d).
  rewrite !append_assoc.
  rewrite !(bool_decide_eq_false_2 (d +:+ _ = "")) by apply Hne.
  unfold path.Clean.
  rewrite !(bool_decide_eq_false_2 (d +:+ _ = "")) by apply Hne.
  rewrite !is_rooted_app by done.
  assert (fold_left (path.clean_step (path.is_rooted d))
            (path.split_slash (chars (d +:+ "/" +:+ "/" +:+ b)) []) []
          = fold_left (path.clean_step (path.is_rooted d))
              (path.split_slash (chars (d +:+ "/" +:+ b)) []) []) as ->; [|done].
  rewrite !chars_app.
  change (chars "/") with [slash]. cbn [app].
  rewrite !split_slash_app.
  change (path.split_slash [] []) with [""].
  cbn [app]. apply fold_clean_skip.
Qed.

Section hints.

Context {T : Type} {codec : Codec T}.

Implicit Types (s : state T) (w : World) (p : string) (c : config T).

(** X1: A hint is read back as it was set, unless its value has a zero
    byte: then the setter returns an error and the environment stays as
    it was. Either setter leaves the other hint alone. *)
Theorem hint_set_then_read (value : string) w :
  let dir_set := SetConfigDir value w in
  let path_set := SetConfigPath value w in
  (fst dir_set = None ↔ has_byte nul value = false)
  ∧ (fst path_set = None ↔ has_byte nul value = false)
  ∧ os.Getenv DirEnvName (snd dir_set)
    = (if has_byte nul value then os.Getenv DirEnvName w else value)
  ∧ os.Getenv FilePathEnvName (snd path_set)
    = (if has_byte nul value then os.Getenv FilePathEnvName w else value)
  ∧ os.Getenv FilePathEnvName (snd dir_set) = os.Getenv FilePathEnvName w
  ∧ os.Getenv DirEnvName (snd path_set) = os.Getenv DirEnvName w
  ∧ os.files (snd dir_set) = os.files w
  ∧ os.files (snd path_set) = os.files w.
Proof.
  intros dir_set path_set. unfold dir_set, path_set, SetConfigDir, SetConfigPath.
  rewrite !os_Setenv_hint by auto.
  destruct (has_byte nul value); cbn [fst snd];
    rewrite ?Getenv_set_same, ?Getenv_set_other by done;
    repeat split; done.
Qed.

(** X2: The explicit file wins over the directory, in whichever order
    the two hints were set: with a file hint that is not empty,
    resolution is the resolution of that one file, and the directory
    hint plays no part. *)
Theorem explicit_hint_overrides_directory_hint c w (dir p : string) :
  p ≠ "" → has_byte nul p = false → has_byte nul dir = false →
  let w1 := snd (SetConfigPath p (snd (SetConfigDir dir w))) in
  let w2 := snd (SetConfigDir dir (snd (SetConfigPath p w))) in
  w1 = w2
  ∧ fst (SetConfigPath p (snd (SetConfigDir dir w))) = None
  ∧ fst (SetConfigDir dir (snd (SetConfigPath p w))) = None
  ∧ getConfigPaths (mkState c w1) = setConfigPathForOneFile p (mkState c w1).
Proof.
  intros Hp Hnp Hnd w1 w2. unfold w1, w2, SetConfigDir, SetConfigPath.
  rewrite !os_Setenv_hint by auto. rewrite Hnp, Hnd. cbn [fst snd].
  split; [|split; [done|split; [done|]]].
  - unfold set_environ. simpl. f_equal.
    apply insert_insert_ne. discriminate.
  - apply getConfigPaths_explicit; [|done].
    cbn [world]. apply Getenv_set_same.
Qed.

(** X3: An empty file hint is no hint: after [SetConfigPath] with the
    empty string the resolver searches the hinted directory, or, with no
    directory hint either, the default places; it returns no error and
    touches nothing. *)
Theorem empty_file_hint_is_no_hint c w :
  let w' := snd (SetConfigPath "" w) in
  let d := os.Getenv DirEnvName w in
  fst (SetConfigPath "" w) = None
  ∧ getConfigPaths (mkState c w')
    = (Ok tt,
       mkState (mkConfig
                  (found w (if bool_decide (d = "") then default_candidates w
                            else directory_candidates d))
                  (cfg c)) w').
Proof.
  intros w' d. unfold w', SetConfigPath.
  rewrite os_Setenv_hint by auto. cbn [fst snd has_byte chars existsb].
  split; [done|].
  set (w1 := set_environ _ w).
  assert (os.Getenv FilePathEnvName w1 = "") as Hf by apply Getenv_set_same.
  assert (os.Getenv DirEnvName w1 = d) as Hd
    by (apply Getenv_set_other; discriminate).
  case_bool_decide as Hempty.
  - rewrite getConfigPaths_default; cbn [world self];
      [done|done|exact (eq_trans Hd Hempty)].
  - by rewrite (getConfigPaths_directory _ d); cbn [world self].
Qed.

(** X4: A slash at the end of the directory hint makes no difference to
    what the search finds. *)
Theorem directory_hint_trailing_slash c w (d : string) :
  d ≠ "" → has_byte nul d = false → os.Getenv FilePathEnvName w = "" →
  paths (self (snd (getConfigPaths
                      (mkState c (snd (SetConfigDir (d +:+ "/") w))))))
  = paths (self (snd (getConfigPaths (mkState c (snd (SetConfigDir d w)))))).
Proof.
  intros Hd Hnul Hf. unfold SetConfigDir.
  rewrite !os_Setenv_hint by auto.
  rewrite has_byte_app, Hnul.
  change (has_byte nul "/") with false. cbn [orb snd].
  assert (d +:+ "/" ≠ "") as Hd' by (by destruct d).
  rewrite (getConfigPaths_directory _ (d +:+ "/")); cbn [world self];
    [|by rewrite Getenv_set_other by discriminate
     |apply Getenv_set_same|done].
  rewrite (getConfigPaths_directory _ d); cbn [world self];
    [|by rewrite Getenv_set_other by discriminate
     |apply Getenv_set_same|done].
  cbn [snd self paths]. unfold directory_candidates.
  by rewrite !Join_trailing_slash.
Qed.

Lemma Ext_injective_candidates (d : string) :
  d ≠ "" → NoDup (directory_candidates d).
Proof.
  intros Hd. apply (NoDup_fmap_1 path.Ext). unfold directory_candidates.
  cbn [fmap list_fmap].
  rewrite Ext_Join_json, Ext_Join_toml, Ext_Join_yml, Ext_Join_yaml by done.
  apply (bool_decide_unpack _). vm_compute. done.
Qed.

Lemma found_elem_of w (candidates : list string) p :
  p ∈ found w candidates ↔ p ∈ candidates ∧ is_regular w p = true.
Proof.
  unfold found. rewrite list_elem_of_filter, Is_true_true. tauto.
Qed.

(** X5: What the directory search resolves: at most four paths, no path
    twice, each a regular file of the hinted directory with an extension
    the loader has a decoder for. *)
Theorem directory_search_result_shape c w (d : string) :
  os.Getenv FilePathEnvName w = "" → os.Getenv DirEnvName w = d → d ≠ "" →
  let ps := paths (self (snd (getConfigPaths (mkState c w)))) in
  NoDup ps ∧ (length ps <= 4)%nat
  ∧ ∀ p, p ∈ ps →
      p ∈ directory_candidates d ∧ is_regular w p = true
      ∧ is_Some (format_of_ext (path.Ext p)).
Proof.
  intros Hf Hd Hne ps. unfold ps.
  rewrite (getConfigPaths_directory _ d) by done. cbn [snd self paths world].
  fold (found w (directory_candidates d)).
  split; [|split].
  - apply NoDup_filter, Ext_injective_candidates, Hne.
  - etransitivity; [apply length_filter|]. done.
  - intros p Hp. apply found_elem_of in Hp as [Hin Hreg].
    split; [done|]. split; [done|].
    pose proof (directory_candidates_supported d Hne) as Hsup.
    rewrite Forall_forall in Hsup. by apply Hsup.
Qed.

Lemma default_candidates_supported w :
  Forall (λ p, is_Some (format_of_ext (path.Ext p))) (default_candidates w).
Proof.
  unfold default_candidates, default_basenames, currentDir.
  cbn [map app].
  destruct (decide (os.Executable w = "")) as [->|Hne].
  - repeat constructor; by eexists.
  - rewrite !Forall_cons.
    rewrite Ext_Join_json, Ext_Join_toml, Ext_Join_yml, Ext_Join_yaml by done.
    repeat split; try by eexists. constructor.
Qed.

(** X6: The default search: the candidates are the four names joined to
    what [os.Executable] returned, then the four bare names, toml, json,
    yml, yaml each time. The path list is what is a regular file among
    them, in that order; nothing is touched, and every path of the list
    has an extension the loader has a decoder for. *)
Theorem default_search_result_shape c w :
  os.Getenv FilePathEnvName w = "" → os.Getenv DirEnvName w = "" →
  let candidates :=
    [path.Join [os.Executable w; "config.toml"];
     path.Join [os.Executable w; "config.json"];
     path.Join [os.Executable w; "config.yml"];
     path.Join [os.Executable w; "config.yaml"];
     "config.toml"; "config.json"; "config.yml"; "config.yaml"] in
  getConfigPaths (mkState c w)
  = (Ok tt, mkState (mkConfig (found w candidates) (cfg c)) w)
  ∧ ∀ p, p ∈ found w candidates → is_Some (format_of_ext (path.Ext p)).
Proof.
  intros Hf Hd candidates. split; [by rewrite getConfigPaths_default|].
  intros p Hp. apply found_elem_of in Hp as [Hin _].
  pose proof (default_candidates_supported w) as Hsup.
  rewrite Forall_forall in Hsup. by apply Hsup.
Qed.

(** X7: When the program's path is not known ([os.Executable] gave the
    empty string), the joined candidates are the bare names again: every
    configuration file of the working directory is in the path list
    twice. *)
Theorem unknown_executable_lists_files_twice c w :
  os.Getenv FilePathEnvName w = "" → os.Getenv DirEnvName w = "" →
  os.Executable w = "" →
  paths (self (snd (getConfigPaths (mkState c w))))
  = found w ["config.toml"; "config.json"; "config.yml"; "config.yaml"]
    ++ found w ["config.toml"; "config.json"; "config.yml"; "config.yaml"].
Proof.
  intros Hf Hd Hexe. rewrite getConfigPaths_default by done.
  cbn [snd self paths world]. unfold default_candidates, currentDir.
  rewrite Hexe. unfold found. by rewrite <- filter_app.
Qed.

End hints.

(** ** The loader: what it leaves alone and how it fails *)

Section loading.

Context {T : Type} {codec : Codec T}.

Implicit Types (s : state T) (w : World) (p : string) (c : config T).

Lemma load_from_frame (ps : list string) s :
  world (snd (load_from ps s)) = world s
  ∧ paths (self (snd (load_from ps s))) = paths (self s).
Proof.
  revert s. induction ps as [|p rest IH]; intros s; [done|].
  rewrite load_from_cons.
  destruct (processPath p s) as [[[]|e] s1] eqn:Hp;
    apply processPath_frame in Hp as [Hw Hps].
  - destruct (IH s1) as [-> ->]. done.
  - done.
Qed.

Lemma load_frame s :
  world (snd (load s)) = world s
  ∧ paths (self (snd (load s))) = paths (self s).
Proof. apply load_from_frame. Qed.

(** The ways [processPath] fails. *)
Lemma processPath_fail_inv p s e s' :
  processPath p s = (Fail e, s') →
  e = errors.PathError "open" p errors.EACCES
  ∨ (e = errors.New ("unsupported file extension: " +:+ path.Ext p)
     ∧ format_of_ext (path.Ext p) = None)
  ∨ ∃ fmt de,
      format_of_ext (path.Ext p) = Some fmt
      ∧ e = errors.wrapError
              ("error while decoding " +:+ format_name fmt +:+ " file: ") de.
Proof.
  intros H.
  destruct (os.files (world s) !! p) as [n|] eqn:Hn;
    [|by rewrite processPath_absent in H].
  assert (n = os.Inaccessible ∨ accessible n) as [->|Hacc]
    by (destruct n; [right|right|left]; done).
  { rewrite processPath_inaccessible in H by done. left. congruence. }
  destruct (decide (os.Size (os.info n) = 0%N)) as [Hz|Hnz].
  { by rewrite (processPath_empty p s n) in H. }
  destruct (format_of_ext (path.Ext p)) as [fmt|] eqn:Hfmt.
  - rewrite (processPath_decode p s n fmt) in H by done.
    destruct (snd (Decode fmt _ _)) as [de|]; [|done].
    right. right. exists fmt, de. split; [done|]. congruence.
  - rewrite (processPath_unsupported p s n) in H by done.
    right. left. split; [congruence|done].
Qed.

Lemma load_from_fail_inv (ps : list string) s e s' :
  load_from ps s = (Fail e, s') →
  ∃ p s1 s2, p ∈ ps ∧ processPath p s1 = (Fail e, s2)
             ∧ world s1 = world s.
Proof.
  revert s. induction ps as [|p rest IH]; intros s H; [done|].
  rewrite load_from_cons in H.
  destruct (processPath p s) as [[[]|e1] s1] eqn:Hp.
  - apply IH in H as (q & s2 & s3 & Hq & Hfail & Hw).
    exists q, s2, s3. split; [by right|]. split; [done|].
    apply processPath_frame in Hp as [Hw1 _]. congruence.
  - exists p, s, s1. split; [by left|]. split; [congruence|done].
Qed.

(** X8: [load] changes the record and nothing else: whatever it returns,
    the files, the environment and the rest of the world are as they
    were, and so is the path list. *)
Theorem load_changes_only_the_record s :
  world (snd (load s)) = world s
  ∧ paths (self (snd (load s))) = paths (self s).
Proof. apply load_from_frame. Qed.

(** X9: Every error of [load] comes from one path of the list, and is
    one of three: the error of opening it, which is never a not-found
    error; the unsupported extension error, for an extension without a
    decoder; or the error of the decoder for the path's extension,
    wrapped in a message that names the format, in which [errors.Is]
    still finds the decoder's error. *)
Theorem load_errors_classified s e s' :
  load s = (Fail e, s') →
  ∃ p, p ∈ paths (self s)
       ∧ (e = errors.PathError "open" p errors.EACCES
            ∧ errors.IsNotExist e = false
          ∨ e = errors.New ("unsupported file extension: " +:+ path.Ext p)
            ∧ format_of_ext (path.Ext p) = None
          ∨ ∃ fmt de,
              format_of_ext (path.Ext p) = Some fmt
              ∧ e = errors.wrapError
                      ("error while decoding " +:+ format_name fmt +:+ " file: ")
                      de
              ∧ errors.Is e de).
Proof.
  intros H. apply load_from_fail_inv in H as (p & s1 & s2 & Hin & Hfail & _).
  exists p. split; [done|].
  apply processPath_fail_inv in Hfail as [->|[[-> Hnone]|(fmt & de & Hfmt & ->)]].
  - by left.
  - right. by left.
  - right. right. exists fmt, de. split; [done|]. split; [done|].
    unfold errors.Is. cbn [errors.tree]. right. apply tree_self.
Qed.

(** On paths that all have a supported extension, [load] fails on
    opening a file or on a decoder. *)
Lemma load_from_supported_fail_inv (ps : list string) s e s' :
  (∀ p, p ∈ ps → is_Some (format_of_ext (path.Ext p))) →
  load_from ps s = (Fail e, s') →
  ∃ p fmt,
    p ∈ ps ∧ format_of_ext (path.Ext p) = Some fmt
    ∧ (e = errors.PathError "open" p errors.EACCES
       ∨ ∃ de, e = errors.wrapError
                     ("error while decoding " +:+ format_name fmt +:+ " file: ")
                     de).
Proof.
  intros Hall H.
  apply load_from_fail_inv in H as (p & s1 & s2 & Hin & Hfail & Hw).
  destruct (Hall p Hin) as [fmt Hfmt].
  exists p, fmt. split; [done|]. split; [done|].
  apply processPath_fail_inv in Hfail
    as [->|[[_ Hnone]|(fmt' & de & Hfmt' & ->)]].
  - by left.
  - congruence.
  - right. exists de. congruence.
Qed.

Lemma search_candidates_supported w :
  Forall (λ p, is_Some (format_of_ext (path.Ext p))) (search_candidates w).
Proof.
  unfold search_candidates. case_bool_decide as Hd.
  - apply default_candidates_supported.
  - by apply directory_candidates_supported.
Qed.

Lemma getConfigPaths_searched s :
  os.Getenv FilePathEnvName (world s) = "" →
  getConfigPaths s
  = (Ok tt,
     mkState (mkConfig (found (world s) (search_candidates (world s)))
                (cfg (self s))) (world s)).
Proof.
  intros Hf. unfold search_candidates. case_bool_decide as Hd.
  - by rewrite getConfigPaths_default.
  - by rewrite (getConfigPaths_directory _ (os.Getenv DirEnvName (world s))).
Qed.

Lemma New_search_modes (cfg0 : T) w :
  os.Getenv FilePathEnvName w = "" →
  snd (New cfg0 [] w) = w
  ∧ ∀ e, fst (fst (New cfg0 [] w)) = Some e →
      ∃ p fmt,
        p ∈ found w (search_candidates w)
        ∧ format_of_ext (path.Ext p) = Some fmt
        ∧ (e = errors.PathError "open" p errors.EACCES
           ∨ ∃ de, e = errors.wrapError
                         ("error while decoding " +:+ format_name fmt
                          +:+ " file: ") de).
Proof.
  intros Hf. unfold New. rewrite newConfig_eq.
  rewrite (getConfigPaths_searched (initial cfg0 w)) by done.
  cbn [initial world self cfg].
  set (ps := found w (search_candidates w)).
  assert (∀ p, p ∈ ps → is_Some (format_of_ext (path.Ext p))) as Hall.
  { intros p Hp. apply found_elem_of in Hp as [Hin _].
    pose proof (search_candidates_supported w) as Hsup.
    rewrite Forall_forall in Hsup. by apply Hsup. }
  set (s1 := mkState (mkConfig ps cfg0) w).
  pose proof (load_from_frame ps s1) as [Hw _].
  unfold load. cbn [self paths s1]. fold s1.
  destruct (load_from ps s1) as [[[]|e] s2] eqn:Hload; cbn [snd] in Hw.
  - cbn [apply_all]. st_unfold. cbn [fst snd err_of]. split; [done|]. done.
  - cbn [fst snd err_of]. split; [done|]. intros e' [= <-].
    by apply (load_from_supported_fail_inv ps s1 e s2).
Qed.

(** X10: Without an explicit file, [New] (with no option) never meets
    an extension it has no decoder for. Its error, if it returns one,
    comes from one of the files the search found, all of which have a
    supported extension: it is the error of opening that file, which is
    not a not-found error, or the error of the decoder for the file's
    extension, wrapped in a message that names the format; it is never
    the unsupported extension error. (In the model of the file system a
    file that can be probed can also be opened, so the second kind of
    error is the one that arises in it; the first is what the code
    returns for a file the system lets it probe and not open.) *)
Theorem search_modes_never_meet_unsupported_extension (cfg0 : T) w e :
  os.Getenv FilePathEnvName w = "" →
  fst (fst (New cfg0 [] w)) = Some e →
  (∃ p fmt,
     p ∈ found w (search_candidates w)
     ∧ format_of_ext (path.Ext p) = Some fmt
     ∧ (e = errors.PathError "open" p errors.EACCES
          ∧ errors.IsNotExist e = false
        ∨ ∃ de, e = errors.wrapError
                      ("error while decoding " +:+ format_name fmt +:+ " file: ")
                      de
                ∧ errors.Is e de))
  ∧ ∀ ext, e ≠ errors.New ("unsupported file extension: " +:+ ext).
Proof.
  intros Hf He.
  destruct (New_search_modes cfg0 w Hf) as [_ H].
  destruct (H e He) as (p & fmt & Hin & Hfmt & [->|[de ->]]).
  - split; [|done]. exists p, fmt. repeat (split; [done|]). by left.
  - split; [|done]. exists p, fmt. repeat (split; [done|]). right.
    exists de. split; [done|].
    unfold errors.Is. cbn [errors.tree]. right. apply tree_self.
Qed.

(** X11: [New] with no option writes nothing and changes nothing in the
    world unless it has to create the explicit file: with no file hint,
    or with a regular file at the hinted path, the world is left as it
    was, whether [New] returns an error or not. *)
Theorem New_without_options_is_read_only (cfg0 : T) w :
  os.Getenv FilePathEnvName w = ""
  ∨ is_regular w (os.Getenv FilePathEnvName w) = true →
  snd (New cfg0 [] w) = w.
Proof.
  intros [Hf|Hreg]; [by apply New_search_modes|].
  destruct (decide (os.Getenv FilePathEnvName w = "")) as [Hf|Hf];
    [by apply New_search_modes|].
  unfold New. rewrite newConfig_eq.
  rewrite (getConfigPaths_explicit _ (os.Getenv FilePathEnvName w)) by done.
  rewrite setConfigPathForOneFile_present by done.
  cbn [initial self cfg world].
  set (s1 := mkState _ w).
  pose proof (load_from_frame (paths (self s1)) s1) as [Hw _].
  unfold load.
  destruct (load_from (paths (self s1)) s1) as [[[]|e] s2]; cbn [snd] in Hw;
    [|done].
  cbn [apply_all]. st_unfold. done.
Qed.

End loading.

(** ** The writer: what a write leaves alone, and reading back *)

Section writing.

Context {T : Type} {codec : Codec T}.

Implicit Types (s : state T) (w : World) (p : string) (c : config T).

(** The two ways a write ends, as far as the files go: nothing is
    changed, or the target holds the encoding. *)
Lemma writeToFile_cases (fPath : string) s :
  let r := fst (writeToFile fPath s) in
  let s' := snd (writeToFile fPath s) in
  os.files (world s') = os.files (world s)
  ∨ ∃ fmt, format_of_ext (path.Ext fPath) = Some fmt
           ∧ encoding_error fmt (cfg (self s)) = None
           ∧ r = Ok tt
           ∧ rename_errno (world s) fPath = None
           ∧ os.files (world s')
             = <[fPath := os.Regular (encoding fmt (cfg (self s)))]>
                 (os.files (world s)).
Proof.
  destruct (createTempFile ("config*" +:+ path.Ext fPath) (world s))
    as [[f|e] w1] eqn:Htemp.
  - rewrite (writeToFile_outcome fPath s f w1 Htemp).
    destruct (format_of_ext _) as [fmt|]; [|left; by destruct (world s)].
    destruct (encoding_error _ _) eqn:Henc; [left; by destruct (world s)|].
    destruct (rename_errno _ _) eqn:Hre; [left; by destruct (world s)|].
    destruct (decide _); [left; by destruct (world s)|].
    right. exists fmt. repeat (split; [done|]). by destruct (world s).
  - rewrite writeToFile_eq, Htemp. simpl.
    apply CreateTemp_fail_inv in Htemp as [rest ->]. left. by destruct (world s).
Qed.

(** A write that returns no error had an encoder for the target's
    extension, and the encoder reported no error. *)
Lemma writeToFile_ok_supported (fPath : string) s :
  fst (writeToFile fPath s) = Ok tt →
  ∃ fmt, format_of_ext (path.Ext fPath) = Some fmt
         ∧ encoding_error fmt (cfg (self s)) = None.
Proof.
  destruct (createTempFile ("config*" +:+ path.Ext fPath) (world s))
    as [[f|e] w1] eqn:Htemp.
  - rewrite (writeToFile_outcome fPath s f w1 Htemp).
    destruct (format_of_ext _) as [fmt|]; [|done].
    destruct (encoding_error _ _) eqn:Henc; [done|].
    intros _. by exists fmt.
  - by rewrite writeToFile_eq, Htemp.
Qed.

(** X12: A write is all or nothing. Whatever [writeToFile] returns, the
    handle, the environment and every file but the target are as they
    were; and the target either is as it was, or holds the whole
    encoding of the record in the format of its extension, and then the
    write returned no error. *)
Theorem write_one_is_all_or_nothing (fPath : string) s :
  let r := fst (writeToFile fPath s) in
  let s' := snd (writeToFile fPath s) in
  self s' = self s
  ∧ os.environ (world s') = os.environ (world s)
  ∧ (∀ q, q ≠ fPath → os.files (world s') !! q = os.files (world s) !! q)
  ∧ (os.files (world s') !! fPath = os.files (world s) !! fPath
     ∨ ∃ fmt, format_of_ext (path.Ext fPath) = Some fmt
              ∧ r = Ok tt
              ∧ os.files (world s') !! fPath
                = Some (os.Regular (encoding fmt (cfg (self s))))).
Proof.
  intros r s'. unfold r, s'.
  destruct (writeToFile_setting fPath s) as (Hself & Henv & _).
  split; [done|]. split; [done|].
  destruct (writeToFile_cases fPath s)
    as [Hsame|(fmt & Hfmt & _ & Hr & _ & Hput)].
  - rewrite Hsame. split; [done|by left].
  - rewrite Hput. split.
    + intros q Hq. by rewrite lookup_insert_ne.
    + right. exists fmt. rewrite lookup_insert_eq. done.
Qed.

(** X13: The encoder is chosen by the name of the temp file, and that
    name is made from the target's extension: the temp file is a new
    name, and the encoder set up on it is the one of the target's
    format, with the indentation of that format; a target without a
    supported extension gets no encoder. *)
Theorem temp_file_takes_the_target_format (fPath : string) w (f : File) w1 :
  createTempFile ("config*" +:+ path.Ext fPath) w = (Ok f, w1) →
  os.files w !! Name f = None
  ∧ os.files w1 !! Name f = Some (os.Regular "")
  ∧ getEncoderForFile (path.Ext (Name f)) f
    = match format_of_ext (path.Ext fPath) with
      | Some fmt => Ok (mkEncoder fmt (indent_of fmt) f)
      | None =>
          Fail (errors.New ("unsupported file extension: "
                            +:+ path.Ext (Name f)))
      end.
Proof.
  intros Htemp. unfold createTempFile in Htemp.
  apply CreateTemp_inv in Htemp as (Hfresh & _ & [rest ->] & [n Hname]).
  split; [done|]. split; [simpl; by rewrite lookup_insert_eq|].
  destruct (temp_name_format fPath (os.TempDir w) n) as [Hsame _].
  cbv zeta in Hsame. rewrite <- Hname in Hsame.
  destruct (format_of_ext (path.Ext fPath)) as [fmt|].
  - by apply getEncoderForFile_supported.
  - by apply getEncoderForFile_unsupported.
Qed.

(** A write that returned no error, whose rename could go through and
    whose temp file was not the target itself, leaves the encoding at
    the target. *)
Lemma writeToFile_puts (p : string) s (fmt : format) :
  format_of_ext (path.Ext p) = Some fmt →
  fst (writeToFile p s) = Ok tt →
  rename_errno (world s) p = None →
  (∀ f w1, createTempFile ("config*" +:+ path.Ext p) (world s) = (Ok f, w1) →
           Name f ≠ p) →
  os.files (world (snd (writeToFile p s))) !! p
  = Some (os.Regular (encoding fmt (cfg (self s)))).
Proof.
  intros Hfmt Hok Hre Hname.
  destruct (createTempFile ("config*" +:+ path.Ext p) (world s))
    as [[f|e] w1] eqn:Htemp.
  - rewrite (writeToFile_outcome p s f w1 Htemp) in Hok |- *.
    rewrite Hfmt in Hok |- *.
    destruct (encoding_error fmt (cfg (self s))); [done|].
    rewrite Hre. specialize (Hname f w1 eq_refl).
    destruct (decide (p = Name f)) as [Heq|_]; [by rewrite Heq in Hname|].
    cbn [snd world]. destruct (world s). simpl. by rewrite lookup_insert_eq.
  - by rewrite writeToFile_eq, Htemp in Hok.
Qed.

(** Loading the one file [p] that holds [data], with a decoder that
    makes [v] of it. *)
Lemma load_one (p : string) w (fmt : format) (data : string) (v0 v : T) :
  format_of_ext (path.Ext p) = Some fmt →
  os.files w !! p = Some (os.Regular data) → data ≠ "" →
  Decode fmt (os.mkFile p (os.Regular data)) v0 = (v, None) →
  load (mkState (mkConfig [p] v0) w) = (Ok tt, mkState (mkConfig [p] v) w).
Proof.
  intros Hfmt Hfile Hne Hcodec.
  unfold load. cbn [self paths]. rewrite load_from_cons.
  rewrite (processPath_decode p _ (os.Regular data) fmt);
    cbn [world self cfg paths]; [|done|done| |done].
  - rewrite Hcodec. done.
  - cbn [os.info os.Size]. intros Hz. apply Hne.
    destruct data; [done|]. simpl in Hz. lia.
Qed.

(** X14: Writing and loading are inverse to each other, as far as the
    codec is: when the decoder of a format reads back what its encoder
    wrote for the record, a file written by [writeToFile] and then
    loaded gives the record again, whatever the record loaded into held.
    The encoding must not be empty (an empty file is skipped by the
    loader), the rename must have gone through, and the temp file's name
    must not be the target's. *)
Theorem written_file_loads_back (p : string) s (fmt : format) (v0 : T) :
  format_of_ext (path.Ext p) = Some fmt →
  fst (writeToFile p s) = Ok tt →
  rename_errno (world s) p = None →
  (∀ f w1, createTempFile ("config*" +:+ path.Ext p) (world s) = (Ok f, w1) →
           Name f ≠ p) →
  encoding fmt (cfg (self s)) ≠ "" →
  (∀ v, Decode fmt (os.mkFile p (os.Regular (encoding fmt (cfg (self s))))) v
        = (cfg (self s), None)) →
  let after := world (snd (writeToFile p s)) in
  os.files after !! p = Some (os.Regular (encoding fmt (cfg (self s))))
  ∧ load (mkState (mkConfig [p] v0) after)
    = (Ok tt, mkState (mkConfig [p] (cfg (self s))) after).
Proof.
  intros Hfmt Hok Hre Hname Hne Hcodec after.
  pose proof (writeToFile_puts p s fmt Hfmt Hok Hre Hname) as Hfile.
  split; [done|].
  by apply (load_one p after fmt (encoding fmt (cfg (self s)))).
Qed.

(** X15: The file the resolver creates for an explicit hint is read by
    the next run. When [New] had to create the file at [p] and returned
    no error, with [p] on the temp area's device, the file holds the
    encoding of the caller's record; and, the encoding being not empty
    and the decoder reading back what the encoder wrote, a second [New]
    in the world the first one left returns no error, gives that record
    to its caller whatever its record held, and changes nothing. *)
Theorem created_file_is_read_by_the_next_run (cfg0 v0 : T) w p (fmt : format) :
  os.Getenv FilePathEnvName w = p → p ≠ "" → os.files w !! p = None →
  format_of_ext (path.Ext p) = Some fmt →
  p ∉ os.xdev w →
  fst (fst (New cfg0 [] w)) = None →
  encoding fmt cfg0 ≠ "" →
  (∀ v, Decode fmt (os.mkFile p (os.Regular (encoding fmt cfg0))) v
        = (cfg0, None)) →
  let w1 := snd (New cfg0 [] w) in
  os.files w1 !! p = Some (os.Regular (encoding fmt cfg0))
  ∧ New v0 [] w1 = (None, cfg0, w1).
Proof.
  intros Hp Hne Hnone Hfmt Hx HNew Henc Hcodec w1.
  set (s0 := mkState (mkConfig [] cfg0)
               (os.set_files <[p := os.Regular ""]> w)).
  assert (getConfigPaths (initial cfg0 w) = writeToFile p s0) as Hres.
  { rewrite (getConfigPaths_explicit _ p) by done.
    by rewrite setConfigPathForOneFile_missing. }
  destruct (writeToFile_setting p s0) as (Hself & Henv & _).
  assert (fst (writeToFile p s0) = Ok tt ∧ w1 = world (snd (writeToFile p s0)))
    as [Hok Hw1].
  { unfold w1. unfold New in HNew |- *. rewrite newConfig_eq, Hres in HNew |- *.
    destruct (writeToFile p s0) as [[[]|e] s1]; [|done].
    cbn [snd] in Hself. unfold load. rewrite Hself.
    cbn [s0 self paths load_from]. st_unfold. done. }
  assert (os.files w1 !! p = Some (os.Regular (encoding fmt cfg0))) as Hfile.
  { rewrite Hw1. apply (writeToFile_puts p s0 fmt Hfmt Hok).
    - unfold rename_errno. cbn [s0 world].
      replace (os.xdev (os.set_files <[p := os.Regular ""]> w)) with (os.xdev w)
        by (by destruct w).
      rewrite bool_decide_eq_false_2 by done.
      replace (os.files (os.set_files <[p := os.Regular ""]> w))
        with (<[p := os.Regular ""]> (os.files w)) by (by destruct w).
      by rewrite lookup_insert_eq.
    - intros f w2 Htemp. unfold createTempFile in Htemp.
      apply CreateTemp_inv in Htemp as (Hfresh & _).
      intros Heq. rewrite Heq in Hfresh. cbn [s0 world] in Hfresh.
      replace (os.files (os.set_files <[p := os.Regular ""]> w))
        with (<[p := os.Regular ""]> (os.files w)) in Hfresh by (by destruct w).
      by rewrite lookup_insert_eq in Hfresh. }
  split; [done|].
  assert (os.Getenv FilePathEnvName w1 = p) as Hp1.
  { unfold os.Getenv. rewrite Hw1, Henv. cbn [s0 world].
    replace (os.environ (os.set_files <[p := os.Regular ""]> w))
      with (os.environ w) by (by destruct w). done. }
  unfold New. rewrite newConfig_eq.
  rewrite (getConfigPaths_explicit _ p) by done.
  rewrite setConfigPathForOneFile_present
    by (unfold is_regular; cbn [initial world]; by rewrite Hfile).
  cbn [initial self cfg world].
  rewrite (load_one p w1 fmt (encoding fmt cfg0) v0 cfg0) by done.
  cbn [apply_all]. st_unfold. done.
Qed.

End writing.

(** ** The synchroniser: its frame, its message, and what a sync leaves *)

Lemma lines_cons (m : string) (rest : list string) :
  rest ≠ [] → lines (m :: rest) = m +:+ errors.newline +:+ lines rest.
Proof. by destruct rest. Qed.

Lemma lines_glue (x y : string) (rest : list string) :
  lines ((x +:+ errors.newline +:+ y) :: rest) = lines (x :: y :: rest).
Proof.
  destruct rest as [|z rest]; [done|].
  rewrite (lines_cons x), (lines_cons y), lines_cons by done.
  by rewrite !append_assoc.
Qed.

(** The message of what [errors.Join] accumulates over the channel. *)
Lemma drained_message (errCh : list error) (acc : option error) (agg : error) :
  drained acc errCh = Some agg →
  errors.Error agg
  = lines (match acc with
           | Some a => [errors.Error a]
           | None => []
           end ++ map errors.Error errCh).
Proof.
  revert acc. induction errCh as [|e rest IH]; intros acc H.
  - destruct acc as [a|]; [|done]. by injection H as ->.
  - change (drained acc (e :: rest))
      with (drained (errors.Join [acc; Some e]) rest) in H.
    destruct acc as [a|].
    + change (errors.Join [Some a; Some e])
        with (Some (errors.joinError [a; e])) in H.
      rewrite (IH _ H).
      change (errors.Error (errors.joinError [a; e]))
        with (errors.Error a +:+ errors.newline +:+ errors.Error e).
      cbn [app map]. apply lines_glue.
    + change (errors.Join [None; Some e])
        with (Some (errors.joinError [e])) in H.
      by rewrite (IH _ H).
Qed.

Section syncing.

Context {T : Type} {codec : Codec T}.

Implicit Types (s : state T) (w : World) (p : string) (c : config T).

Lemma write_each_targets (targets : list string) s :
  map fst (fst (write_each targets s)) = targets.
Proof.
  revert s. induction targets as [|q rest IH]; intros s; [done|].
  rewrite write_each_cons. cbn [fst map]. by rewrite IH.
Qed.

Lemma write_each_all_ok (targets : list string) s p :
  omap snd (fst (write_each targets s)) = [] → p ∈ targets →
  (p, None) ∈ fst (write_each targets s).
Proof.
  revert s. induction targets as [|q rest IH]; intros s Hnone Hin.
  { by apply elem_of_nil in Hin. }
  rewrite write_each_cons in Hnone |- *. cbn [fst omap] in *.
  destruct (err_of (fst (writeToFile q s))) as [e|] eqn:Herr;
    cbn [snd] in Hnone; [done|].
  apply elem_of_cons in Hin as [->|Hin]; [by left|].
  right. by apply IH.
Qed.

Lemma write_each_ok_supported (targets : list string) s p :
  (p, None) ∈ fst (write_each targets s) →
  is_Some (format_of_ext (path.Ext p)).
Proof.
  revert s. induction targets as [|q rest IH]; intros s Hin.
  { by apply elem_of_nil in Hin. }
  rewrite write_each_cons in Hin. cbn [fst] in Hin.
  apply elem_of_cons in Hin as [[= <- Herr]|Hin]; [|by eapply IH].
  destruct (fst (writeToFile p s)) as [[]|] eqn:Hw; [|done].
  apply writeToFile_ok_supported in Hw as (fmt & Hfmt & _). by exists fmt.
Qed.

(** What the writes of a list, one after the other, leave of a file. *)
Lemma write_each_files (targets : list string) s q :
  let s' := snd (write_each targets s) in
  self s' = self s
  ∧ os.environ (world s') = os.environ (world s)
  ∧ os.executable (world s') = os.executable (world s)
  ∧ (os.files (world s') !! q = os.files (world s) !! q
     ∨ q ∈ targets
       ∧ ∃ fmt, format_of_ext (path.Ext q) = Some fmt
                ∧ os.files (world s') !! q
                  = Some (os.Regular (encoding fmt (cfg (self s))))).
Proof.
  revert s. induction targets as [|t rest IH]; intros s.
  { cbn. split; [done|]. split; [done|]. split; [done|by left]. }
  rewrite write_each_cons. cbn [snd].
  destruct (writeToFile_setting t s) as (Hself & Henv & Hexe & _).
  destruct (IH (snd (writeToFile t s))) as (Hself' & Henv' & Hexe' & Hfiles).
  cbv zeta in *. rewrite Hself', Henv', Hexe', Hself, Henv, Hexe.
  split; [done|]. split; [done|]. split; [done|].
  rewrite Hself in Hfiles.
  destruct Hfiles as [Hsame|[Hin Hput]].
  - rewrite Hsame.
    destruct (writeToFile_cases t s)
      as [Hkeep|(fmt & Hfmt & _ & _ & _ & Hput)].
    + left. by rewrite Hkeep.
    + rewrite Hput. destruct (decide (q = t)) as [->|Hne].
      * right. split; [by left|]. exists fmt. by rewrite lookup_insert_eq.
      * left. by rewrite lookup_insert_ne.
  - right. split; [by right|done].
Qed.

(** X16: A sync touches nothing but the files of the path list: in
    whatever order the goroutines complete and whatever [writeToFiles]
    returns, the handle and the environment are as they were, a file
    that is not in the list is as it was, and a file of the list either
    is as it was or holds the encoding of the record in the format of
    its extension. *)
Theorem sync_touches_only_the_listed_files s :
  let s' := snd (writeToFiles s) in
  self s' = self s
  ∧ os.environ (world s') = os.environ (world s)
  ∧ (∀ q, q ∉ paths (self s) →
       os.files (world s') !! q = os.files (world s) !! q)
  ∧ (∀ q, q ∈ paths (self s) →
       os.files (world s') !! q = os.files (world s) !! q
       ∨ ∃ fmt, format_of_ext (path.Ext q) = Some fmt
                ∧ os.files (world s') !! q
                  = Some (os.Regular (encoding fmt (cfg (self s))))).
Proof.
  intros s'. unfold s'. rewrite writeToFiles_eq. cbn [snd].
  set (targets := omap _ _).
  assert (targets ≡ₚ paths (self s)) as Hperm by apply targets_Permutation.
  destruct (write_each_files targets s "") as (Hself & Henv & _).
  split; [done|]. split; [done|]. split.
  - intros q Hq.
    destruct (write_each_files targets s q) as (_ & _ & _ & [Hsame|[Hin _]]);
      [done|].
    rewrite Hperm in Hin. done.
  - intros q _.
    destruct (write_each_files targets s q) as (_ & _ & _ & [Hsame|[_ Hput]]);
      [by left|by right].
Qed.

(** X17: The message of the error a sync returns is made of the messages
    of the writes that returned an error, one per line, in the order in
    which the goroutines completed. *)
Theorem sync_error_message_lists_the_failures s (agg : error) :
  fst (writeToFiles s) = Fail agg →
  let targets := omap (λ i, paths (self s) !! i)
                   (completion_order (length (paths (self s)))
                      (os.sched (world s))) in
  let failures := omap snd (fst (write_each targets s)) in
  failures ≠ []
  ∧ errors.Error agg = lines (map errors.Error failures).
Proof.
  intros H targets failures. rewrite writeToFiles_eq in H. cbn [fst] in H.
  fold targets failures in H.
  destruct (drained None failures) as [e|] eqn:Hd; [|done].
  injection H as ->. split.
  - intros Hnil. rewrite Hnil in Hd. done.
  - by rewrite (drained_message _ _ _ Hd).
Qed.

(** Where the resolver lists a path, a regular file is there when it
    returns. *)
Lemma getConfigPaths_lists_regular (cfg0 : T) w p :
  let s1 := snd (getConfigPaths (initial cfg0 w)) in
  p ∈ paths (self s1) → is_regular (world s1) p = true.
Proof.
  intros s1. unfold s1.
  destruct (decide (os.Getenv FilePathEnvName w = "")) as [Hf|Hf].
  - destruct (decide (os.Getenv DirEnvName w = "")) as [Hd|Hd].
    + rewrite getConfigPaths_default by done. cbn [snd self paths world initial].
      fold (found w (default_candidates w)). intros Hp.
      by apply found_elem_of in Hp as [_ ?].
    + rewrite (getConfigPaths_directory _ (os.Getenv DirEnvName w)) by done.
      cbn [snd self paths world initial].
      fold (found w (directory_candidates (os.Getenv DirEnvName w))).
      intros Hp. by apply found_elem_of in Hp as [_ ?].
  - rewrite (getConfigPaths_explicit _ (os.Getenv FilePathEnvName w)) by done.
    destruct (is_regular w (os.Getenv FilePathEnvName w)) eqn:Hreg.
    + rewrite setConfigPathForOneFile_present by done.
      cbn [snd self paths world initial]. intros Hp.
      apply list_elem_of_singleton in Hp as ->. done.
    + destruct (os.files w !! os.Getenv FilePathEnvName w) as [n|] eqn:Hn.
      * destruct (setConfigPathForOneFile_blocked (initial cfg0 w)
                    (os.Getenv FilePathEnvName w) n Hn Hreg) as [e ->].
        cbn [snd self paths initial]. intros Hp. by apply elem_of_nil in Hp.
      * rewrite setConfigPathForOneFile_missing by done.
        destruct (writeToFile_setting (os.Getenv FilePathEnvName w)
                    (mkState (self (initial cfg0 w))
                       (os.set_files
                          <[os.Getenv FilePathEnvName w := os.Regular ""]>
                          (world (initial cfg0 w))))) as (-> & _).
        cbn [self paths initial]. intros Hp. by apply elem_of_nil in Hp.
Qed.

Lemma writeToFiles_nil s : paths (self s) = [] → writeToFiles s = (Ok tt, s).
Proof.
  intros Hnil. rewrite writeToFiles_eq. cbv zeta.
  pose proof (targets_Permutation (paths (self s)) (os.sched (world s))) as Hp.
  rewrite Hnil in Hp |- *. apply Permutation_nil_r in Hp. rewrite Hp. done.
Qed.

(** X18: When the explicit file is not there, the resolver creates and
    writes it but does not list it: the path list stays empty, nothing
    is loaded, so [New] leaves the caller's record as it was, and a sync
    option has no file to write to. *)
Theorem created_explicit_file_is_not_listed (cfg0 : T) w p :
  os.Getenv FilePathEnvName w = p → p ≠ "" → os.files w !! p = None →
  paths (self (snd (getConfigPaths (initial cfg0 w)))) = []
  ∧ snd (fst (New cfg0 [] w)) = cfg0
  ∧ New cfg0 [WithSyncingConfigToFiles] w = New cfg0 [] w.
Proof.
  intros Hp Hne Hnone.
  assert (self (snd (getConfigPaths (initial cfg0 w))) = mkConfig [] cfg0)
    as Hself.
  { rewrite (getConfigPaths_explicit _ p) by done.
    rewrite setConfigPathForOneFile_missing by done.
    by destruct (writeToFile_setting p
                   (mkState (self (initial cfg0 w))
                      (os.set_files <[p := os.Regular ""]>
                         (world (initial cfg0 w))))) as (-> & _). }
  split; [by rewrite Hself|].
  unfold New. rewrite !newConfig_eq.
  destruct (getConfigPaths (initial cfg0 w)) as [[[]|e] s1]; cbn [snd] in Hself.
  - unfold load. rewrite Hself. cbn [paths load_from]. st_unfold.
    cbn [apply_all]. unfold apply, WithSyncingConfigToFiles. st_unfold.
    rewrite writeToFiles_nil by (by rewrite Hself).
    rewrite Hself. done.
  - rewrite Hself. done.
Qed.

Lemma getConfigPaths_xdev (cfg0 : T) w :
  os.xdev (world (snd (getConfigPaths (initial cfg0 w)))) = os.xdev w.
Proof.
  destruct (decide (os.Getenv FilePathEnvName w = "")) as [Hf|Hf].
  - destruct (decide (os.Getenv DirEnvName w = "")) as [Hd|Hd].
    + by rewrite getConfigPaths_default.
    + by rewrite (getConfigPaths_directory _ (os.Getenv DirEnvName w)).
  - rewrite (getConfigPaths_explicit _ (os.Getenv FilePathEnvName w)) by done.
    destruct (is_regular w (os.Getenv FilePathEnvName w)) eqn:Hr.
    + by rewrite setConfigPathForOneFile_present.
    + destruct (os.files w !! os.Getenv FilePathEnvName w) as [n|] eqn:Hn.
      * by destruct (setConfigPathForOneFile_blocked (initial cfg0 w)
                       (os.Getenv FilePathEnvName w) n Hn Hr) as [e ->].
      * rewrite setConfigPathForOneFile_missing by done.
        by destruct (writeToFile_setting (os.Getenv FilePathEnvName w)
                       (mkState (self (initial cfg0 w))
                          (os.set_files
                             <[os.Getenv FilePathEnvName w := os.Regular ""]>
                             (world (initial cfg0 w)))))
          as (_ & _ & _ & _ & -> & _).
Qed.

(** What [New] with the sync option, having returned no error, left of
    the world the resolver had left. *)
Lemma New_sync_inv (cfg0 : T) w (v : T) w' :
  New cfg0 [WithSyncingConfigToFiles] w = (None, v, w') →
  let s1 := snd (getConfigPaths (initial cfg0 w)) in
  os.environ w' = os.environ (world s1)
  ∧ os.executable w' = os.executable (world s1)
  ∧ (∀ q, q ∉ paths (self s1) →
       os.files w' !! q = os.files (world s1) !! q)
  ∧ (∀ p, p ∈ paths (self s1) → p ∉ os.xdev (world s1) →
       is_regular (world s1) p = true →
       ∃ fmt, format_of_ext (path.Ext p) = Some fmt
              ∧ os.files w' !! p = Some (os.Regular (encoding fmt v))).
Proof.
  intros HNew. unfold New in HNew. rewrite newConfig_eq in HNew.
  destruct (getConfigPaths (initial cfg0 w)) as [[[]|e] s1]; [|done].
  cbn [snd].
  pose proof (load_frame s1) as [Hw Hps].
  destruct (load s1) as [[[]|e] s2]; [|done]. cbn [snd] in Hw, Hps.
  cbn [apply_all] in HNew. unfold apply, WithSyncingConfigToFiles in HNew.
  st_unfold.
  pose proof (writeToFiles_eq s2) as Heq. cbv zeta in Heq.
  set (targets := omap (λ i, paths (self s2) !! i) _) in Heq.
  destruct (writeToFiles s2) as [[[]|e] s3] eqn:Hsync;
    [|cbn [err_of] in HNew; done].
  cbn [err_of] in HNew. injection HNew as <- <-.
  injection Heq as Hd ->.
  destruct (drained None (omap snd (fst (write_each targets s2))))
    as [e|] eqn:Hdr; [done|].
  apply drained_none in Hdr as [_ Hnone].
  assert (targets ≡ₚ paths (self s1)) as Hperm.
  { unfold targets. rewrite targets_Permutation. by rewrite Hps. }
  destruct (write_each_files targets s2 "") as (Hself & Henv & Hexe & _).
  rewrite Henv, Hexe, Hw. split; [done|]. split; [done|]. split.
  - intros q Hq.
    destruct (write_each_files targets s2 q)
      as (_ & _ & _ & [Hsame|[Hin _]]); [by rewrite Hsame, Hw|].
    rewrite Hperm in Hin. done.
  - intros p Hin Hx Hreg. rewrite <- Hperm in Hin.
    pose proof (write_each_all_ok targets s2 p Hnone Hin) as Hok.
    destruct (write_each_ok_supported targets s2 p Hok) as [fmt Hfmt].
    exists fmt. split; [done|]. rewrite Hself.
    apply write_each_written; [done| | |done]; by rewrite Hw.
Qed.

(** X19: After [New] with the sync option has returned no error, every
    file of the resolved list that lies on the temp area's device holds
    the encoding, in the format of its own extension, of the record
    [New] leaves to the caller. *)
Theorem synced_files_hold_the_record (cfg0 : T) w (v : T) w' p :
  New cfg0 [WithSyncingConfigToFiles] w = (None, v, w') →
  p ∈ paths (self (snd (getConfigPaths (initial cfg0 w)))) →
  p ∉ os.xdev w →
  ∃ fmt, format_of_ext (path.Ext p) = Some fmt
         ∧ os.files w' !! p = Some (os.Regular (encoding fmt v)).
Proof.
  intros HNew Hin Hx.
  destruct (New_sync_inv cfg0 w v w' HNew) as (_ & _ & _ & Hput).
  apply Hput; [done| |by apply getConfigPaths_lists_regular].
  by rewrite getConfigPaths_xdev.
Qed.

(** Loading files that all hold an encoding of the same record. *)
Lemma load_all_back (ps ps0 : list string) w (v0 v : T) :
  ps ≠ [] →
  (∀ p, p ∈ ps →
     ∃ fmt, format_of_ext (path.Ext p) = Some fmt
            ∧ os.files w !! p = Some (os.Regular (encoding fmt v))) →
  (∀ fmt name u,
     encoding fmt v ≠ ""
     ∧ Decode fmt (os.mkFile name (os.Regular (encoding fmt v))) u = (v, None)) →
  load_from ps (mkState (mkConfig ps0 v0) w)
  = (Ok tt, mkState (mkConfig ps0 v) w).
Proof.
  intros Hne Hfiles Hcodec. revert v0 Hne.
  induction ps as [|p rest IH]; intros v0 Hne; [done|].
  destruct (Hfiles p ltac:(by left)) as (fmt & Hfmt & Hfile).
  destruct (Hcodec fmt p v0) as [Henc Hdec].
  rewrite load_from_cons.
  rewrite (processPath_decode p _ (os.Regular (encoding fmt v)) fmt);
    cbn [world self cfg paths]; [|done|done| |done].
  - rewrite Hdec. cbn [fst snd].
    destruct rest as [|q rest]; [done|].
    apply IH; [|done]. intros p' Hp'. apply Hfiles. by right.
  - cbn [os.info os.Size]. intros Hz. apply Henc.
    destruct (encoding fmt v); [done|]. simpl in Hz. lia.
Qed.

(** X20: What a sync wrote is what the next run reads. With no explicit
    file hinted, after [New] with the sync option has returned no error
    and left the record [v], a [New] without options in the world it
    left finds the same files, returns no error, gives [v] to its caller
    whatever its record held, and changes nothing. (Some file was found;
    the files found lie on the temp area's device; no encoding of [v] is
    empty, and the decoders read back what the encoders wrote for [v].) *)
Theorem synced_files_load_back (cfg0 v0 v : T) w w' :
  os.Getenv FilePathEnvName w = "" →
  New cfg0 [WithSyncingConfigToFiles] w = (None, v, w') →
  found w (search_candidates w) ≠ [] →
  (∀ p, p ∈ found w (search_candidates w) → p ∉ os.xdev w) →
  (∀ fmt name u,
     encoding fmt v ≠ ""
     ∧ Decode fmt (os.mkFile name (os.Regular (encoding fmt v))) u = (v, None)) →
  paths (self (snd (getConfigPaths (initial v0 w'))))
  = paths (self (snd (getConfigPaths (initial cfg0 w))))
  ∧ New v0 [] w' = (None, v, w').
Proof.
  intros Hf HNew Hne Hx Hcodec.
  destruct (New_sync_inv cfg0 w v w' HNew) as (Henv & Hexe & Hout & Hput).
  rewrite (getConfigPaths_searched (initial cfg0 w)) in Henv, Hexe, Hout, Hput |- *
    by done.
  cbn [snd self paths world initial] in *.
  assert (os.Getenv FilePathEnvName w' = "") as Hf'
    by (unfold os.Getenv; by rewrite Henv).
  assert (search_candidates w' = search_candidates w) as Hcands.
  { unfold search_candidates, default_candidates, currentDir, os.Getenv,
      os.Executable. by rewrite Henv, Hexe. }
  assert (∀ p, p ∈ found w (search_candidates w) →
            ∃ fmt, format_of_ext (path.Ext p) = Some fmt
                   ∧ os.files w' !! p = Some (os.Regular (encoding fmt v)))
    as Hheld.
  { intros p Hp. apply Hput; [done|by apply Hx|].
    by apply found_elem_of in Hp as [_ ?]. }
  assert (found w' (search_candidates w) = found w (search_candidates w))
    as Hfound.
  { unfold found. apply list_filter_iff. intros q.
    rewrite !Is_true_true.
    destruct (decide (q ∈ found w (search_candidates w))) as [Hin|Hnin].
    - destruct (Hheld q Hin) as (fmt & _ & Hfile).
      apply found_elem_of in Hin as [_ Hreg].
      unfold is_regular at 1. rewrite Hfile. done.
    - unfold is_regular. by rewrite (Hout q Hnin). }
  rewrite (getConfigPaths_searched (initial v0 w')) by done.
  cbn [snd self paths world initial cfg]. rewrite Hcands, Hfound.
  split; [done|].
  unfold New. rewrite newConfig_eq.
  rewrite (getConfigPaths_searched (initial v0 w')) by done.
  cbn [self paths world initial cfg]. rewrite Hcands, Hfound.
  unfold load. cbn [self paths].
  rewrite (load_all_back _ _ w' v0 v) by done.
  cbn [apply_all]. st_unfold. done.
Qed.

End syncing.

(** ** The synchroniser and the scheduler *)

Section schedule.

Context {T : Type} {codec : Codec T}.

Implicit Types (s : state T) (w : World) (p : string) (c : config T).

(** A write onto a file that is there, having returned no error. *)
Lemma writeToFile_ok_files (t : string) s :
  fst (writeToFile t s) = Ok tt → is_regular (world s) t = true →
  ∃ fmt, format_of_ext (path.Ext t) = Some fmt
         ∧ os.files (world (snd (writeToFile t s)))
           = if bool_decide (rename_errno (world s) t = None)
             then <[t := os.Regular (encoding fmt (cfg (self s)))]>
                    (os.files (world s))
             else os.files (world s).
Proof.
  intros Hok Hreg.
  destruct (createTempFile ("config*" +:+ path.Ext t) (world s))
    as [[f|e] w1] eqn:Htemp; [|by rewrite writeToFile_eq, Htemp in Hok].
  rewrite (writeToFile_outcome t s f w1 Htemp) in Hok |- *.
  destruct (format_of_ext (path.Ext t)) as [fmt|]; [|done].
  exists fmt. split; [done|].
  destruct (encoding_error fmt (cfg (self s))); [done|].
  destruct (rename_errno (world s) t) as [errno|] eqn:Hre.
  - rewrite bool_decide_eq_false_2 by done. by destruct (world s).
  - rewrite bool_decide_eq_true_2 by done.
    unfold createTempFile in Htemp.
    apply CreateTemp_inv in Htemp as (Hfresh & _).
    destruct (decide (t = Name f)) as [Heq|_].
    + unfold is_regular in Hreg. rewrite Heq, Hfresh in Hreg. done.
    + by destruct (world s).
Qed.

(** Whether a path can be renamed onto is not changed by a write. *)
Lemma writeToFile_rename_errno (t : string) s (q : string) :
  rename_errno (world (snd (writeToFile t s))) q = rename_errno (world s) q.
Proof.
  unfold rename_errno.
  destruct (writeToFile_setting t s) as (_ & _ & _ & _ & -> & _).
  case_bool_decide as Hx; [done|].
  destruct (writeToFile_cases t s)
    as [->|(fmt & _ & _ & _ & Hre & ->)]; [done|].
  destruct (decide (q = t)) as [->|Hne].
  - rewrite lookup_insert_eq. unfold rename_errno in Hre.
    rewrite bool_decide_eq_false_2 in Hre by done.
    by destruct (os.files (world s) !! t) as [[]|].
  - by rewrite lookup_insert_ne.
Qed.

Lemma write_each_synced (targets : list string) s (q : string) :
  (∀ p, p ∈ targets → is_regular (world s) p = true) →
  omap snd (fst (write_each targets s)) = [] →
  os.files (world (snd (write_each targets s))) !! q
  = synced targets (cfg (self s)) (world s) q.
Proof.
  revert s. induction targets as [|t rest IH]; intros s Hreg Hnone.
  { unfold synced. by rewrite bool_decide_eq_false_2 by apply not_elem_of_nil. }
  rewrite write_each_cons in Hnone |- *. cbn [fst snd omap] in *.
  destruct (fst (writeToFile t s)) as [[]|e] eqn:Hok; [|done].
  cbn [err_of] in Hnone.
  destruct (writeToFile_setting t s) as (Hself & _).
  destruct (writeToFile_ok_files t s Hok (Hreg t ltac:(by left)))
    as (fmt & Hfmt & Hfiles).
  rewrite IH; [|intros p Hp; apply writeToFile_regular, Hreg; by right|done].
  unfold synced. rewrite Hself, writeToFile_rename_errno, Hfiles.
  destruct (decide (q = t)) as [->|Hne].
  - rewrite (bool_decide_eq_true_2 (t ∈ t :: rest)) by (by left).
    destruct (bool_decide (rename_errno (world s) t = None));
      destruct (bool_decide (t ∈ rest)); cbn [andb]; try done.
    by rewrite lookup_insert_eq, Hfmt.
  - assert (bool_decide (q ∈ t :: rest) = bool_decide (q ∈ rest)) as ->.
    { apply bool_decide_ext. rewrite elem_of_cons. tauto. }
    destruct (bool_decide (q ∈ rest)
              && bool_decide (rename_errno (world s) q = None)); [done|].
    destruct (bool_decide (rename_errno (world s) t = None)); [|done].
    by rewrite lookup_insert_ne.
Qed.

Lemma synced_Permutation (ps ps' : list string) (v : T) w (q : string) :
  ps ≡ₚ ps' → synced ps v w q = synced ps' v w q.
Proof.
  intros Hperm. unfold synced.
  destruct (decide (q ∈ ps)) as [Hin|Hnin].
  - rewrite !(bool_decide_eq_true_2 (q ∈ _)); [done| |done].
    by rewrite <- Hperm.
  - rewrite !(bool_decide_eq_false_2 (q ∈ _)); [done| |done].
    by rewrite <- Hperm.
Qed.

Lemma writeToFiles_ok_synced s :
  (∀ p, p ∈ paths (self s) → is_regular (world s) p = true) →
  fst (writeToFiles s) = Ok tt →
  ∀ q, os.files (world (snd (writeToFiles s))) !! q
       = synced (paths (self s)) (cfg (self s)) (world s) q.
Proof.
  intros Hreg Hok q. rewrite writeToFiles_eq in Hok |- *. cbn [fst snd] in *.
  set (targets := omap (λ i, paths (self s) !! i) _) in *.
  assert (targets ≡ₚ paths (self s)) as Hperm by apply targets_Permutation.
  destruct (drained None (omap snd (fst (write_each targets s))))
    as [e|] eqn:Hdr; [done|].
  apply drained_none in Hdr as [_ Hnone].
  rewrite write_each_synced; [|intros p Hp; apply Hreg; by rewrite <- Hperm|done].
  by apply synced_Permutation.
Qed.

(** X21: The files a sync leaves do not depend on the order in which the
    goroutines complete. For a path list of files that are there (as the
    resolver's lists are), two syncs of the same handle in the same
    world, under two schedulers, that both return no error, leave the
    same files: at every path of the list that can be renamed onto, the
    encoding of the record in the format of its extension, and
    everywhere else what was there. *)
Theorem sync_result_does_not_depend_on_schedule s (sched' : list nat) :
  let s' := mkState (self s) (set_sched sched' (world s)) in
  (∀ p, p ∈ paths (self s) → is_regular (world s) p = true) →
  fst (writeToFiles s) = Ok tt → fst (writeToFiles s') = Ok tt →
  os.files (world (snd (writeToFiles s')))
  = os.files (world (snd (writeToFiles s)))
  ∧ ∀ q, os.files (world (snd (writeToFiles s))) !! q
         = synced (paths (self s)) (cfg (self s)) (world s) q.
Proof.
  intros s' Hreg Hok Hok'.
  pose proof (writeToFiles_ok_synced s Hreg Hok) as Hs.
  pose proof (writeToFiles_ok_synced s' Hreg Hok') as Hs'.
  split; [|done].
  apply map_eq. intros q. by rewrite Hs, Hs'.
Qed.

End schedule.

(** ** The probe and the options, once more *)

Section probing.

Context {T : Type} {codec : Codec T}.

Implicit Types (s : state T) (w : World) (p : string) (c : config T).

(** X22: [getExistingPaths] is a filter that keeps the order: it returns
    the given paths at which a regular file is, in the order and as
    often as they were given, and leaves the world as it was; a
    directory is not a file to it. Probing what it returned gives the
    same list again. *)
Theorem existing_paths_keeps_order (candidates : list string) w :
  ∃ ps, getExistingPaths candidates w = (Ok ps, w)
        ∧ ps = found w candidates
        ∧ sublist ps candidates
        ∧ (∀ p, p ∈ ps ↔
                p ∈ candidates
                ∧ ∃ data, os.files w !! p = Some (os.Regular data))
        ∧ getExistingPaths ps w = (Ok ps, w).
Proof.
  exists (found w candidates). rewrite !getExistingPaths_spec.
  split; [done|]. split; [done|]. split; [apply sublist_filter|]. split.
  - intros p. rewrite found_elem_of. unfold is_regular.
    destruct (os.files w !! p) as [[data| |]|];
      (split; [intros [Hin Hreg]|intros [Hin [data' Hd]]]);
      try done; split; try done; by eexists.
  - do 2 f_equal. apply filter_all. intros p Hp.
    apply found_elem_of in Hp as [_ Hreg]. by apply Is_true_true.
Qed.

(** X23: The order of the options decides what is written. A validation
    may rewrite the record. Put before the write of a file, the file
    holds the record as the validation left it; put after it, the file
    holds the record as it was before, while the caller gets the
    rewritten record both times. (The target is a regular file on the
    temp area's device, and both writes return no error.) *)
Theorem option_order_decides_what_is_written
    (f : T → T * option error) (target : string) s (v : T) (fmt : format) :
  f (cfg (self s)) = (v, None) →
  format_of_ext (path.Ext target) = Some fmt →
  is_regular (world s) target = true → target ∉ os.xdev (world s) →
  let validated := mkState (mkConfig (paths (self s)) v) (world s) in
  fst (writeToFile target validated) = Ok tt →
  fst (writeToFile target s) = Ok tt →
  let first := apply_all [WithValidation f; WithWritingConfigToFile target] s in
  let last := apply_all [WithWritingConfigToFile target; WithValidation f] s in
  fst first = Ok tt ∧ fst last = Ok tt
  ∧ cfg (self (snd first)) = v ∧ cfg (self (snd last)) = v
  ∧ os.files (world (snd first)) !! target
    = Some (os.Regular (encoding fmt v))
  ∧ os.files (world (snd last)) !! target
    = Some (os.Regular (encoding fmt (cfg (self s)))).
Proof.
  intros Hf Hfmt Hreg Hx validated Hok1 Hok2 first last.
  assert (first = (let (r, s1) := writeToFile target validated in
                   (match r with Ok _ => Ok tt | Fail e => Fail e end, s1)))
    as Hfirst.
  { unfold first. cbn [apply_all]. unfold apply, WithValidation,
      WithWritingConfigToFile. st_unfold. rewrite Hf. fold validated.
    by destruct (writeToFile target validated) as [[[]|e] s1]. }
  assert (last = (let (r, s1) := writeToFile target s in
                  (match r with Ok _ => Ok tt | Fail e => Fail e end,
                   match r with
                   | Ok _ => mkState (mkConfig (paths (self s)) v) (world s1)
                   | Fail _ => s1
                   end))) as Hlast.
  { unfold last. cbn [apply_all]. unfold apply, WithValidation,
      WithWritingConfigToFile. st_unfold.
    destruct (writeToFile_setting target s) as (Hself & _).
    destruct (writeToFile target s) as [[[]|e] s1]; [|done].
    cbn [snd] in Hself. rewrite Hself, Hf. done. }
  pose proof (writeToFile_written validated target fmt Hok1 Hreg Hx Hfmt)
    as Hput1.
  pose proof (writeToFile_written s target fmt Hok2 Hreg Hx Hfmt) as Hput2.
  destruct (writeToFile_setting target validated) as (Hself1 & _).
  rewrite Hfirst, Hlast.
  destruct (writeToFile target validated) as [[[]|e1] s1]; [|done].
  destruct (writeToFile target s) as [[[]|e2] s2]; [|done].
  cbn [fst snd self cfg world] in *. rewrite Hself1.
  repeat split; done.
Qed.

End probing.

(** * The properties at concrete inputs *)

(** [path.Ext], [path.Join] and [path.Dir] on the names the package
    meets. *)
Example Ext_examples :
  map path.Ext ["/etc/app/config.json"; "/etc/app.d/config"; "a.tar.gz";
                ".bashrc"; "unknown"]
  = [".json"; ""; ".gz"; ".bashrc"; ""].
Proof. reflexivity. Qed.

Example Join_examples :
  map path.Join [["/etc/app/"; "config.json"]; ["a/../../b/./c"; "config.yml"];
                 [""; "config.toml"]; ["/.."; "config.toml"]; ["."; "config.json"]]
  = ["/etc/app/config.json"; "../b/c/config.yml"; "config.toml";
     "/config.toml"; "config.json"].
Proof. reflexivity. Qed.

Example Dir_examples :
  map path.Dir ["/opt/app/bin/server"; "server"; "/server"; "a/b/"]
  = ["/opt/app/bin"; "."; "/"; "a/b"].
Proof. reflexivity. Qed.

(** The pattern of a temp file is cut at its last star. *)
Example prefixAndSuffix_examples :
  map os.prefixAndSuffix ["config*.json"; "config*"; "config*.b*c"]
  = [("config", ".json"); ("config", ""); ("config*.b", "c")].
Proof. reflexivity. Qed.

(** The package's tests on the model. [TestWriteToFile_Negative] and
    the negative case of [TestWriteToFiles]: a target without a
    supported extension is an error. *)
Example write_to_file_negative :
  fst (writeToFile "\///.," (initial seed fresh_world))
  = Fail (errors.New "unsupported file extension: .,")
  ∧ ∃ agg, fst (writeToFiles (mkState (mkConfig ["unknown"] seed) fresh_world))
           = Fail agg
           ∧ errors.Is agg (errors.New "unsupported file extension: ").
Proof.
  split; [vm_compute; reflexivity|].
  eexists. split; [vm_compute; reflexivity|]. vm_compute. right. by left.
Qed.

(** [TestCreateTempFile], negative: a pattern with a path separator. *)
Example create_temp_file_negative :
  fst (createTempFile "abc\///" fresh_world)
  = Fail (errors.PathError "createtemp" "abc\///" errors.EPATTERN).
Proof. vm_compute. reflexivity. Qed.

(** [TestWithWritingConfigToFile]: the option creates the file. *)
Example with_writing_config_to_file :
  fst (apply (WithWritingConfigToFile "/srv/config.yaml")
         (initial seed fresh_world)) = Ok tt
  ∧ os.files (world (snd (apply (WithWritingConfigToFile "/srv/config.yaml")
                            (initial seed fresh_world)))) !! "/srv/config.yaml"
    = Some (os.Regular (encoding YAML seed)).
Proof. vm_compute. by split. Qed.

(** [TestNew_UnparsableConfig]: the sync's error holds the encoder's. *)
Example unparsable_config :
  ∃ agg, fst (fst (New (tt : unparsableConfig) [WithSyncingConfigToFiles]
                     unparsable_world)) = Some agg
         ∧ errors.Is agg errUnparsable.
Proof.
  eexists. split; [vm_compute; reflexivity|].
  vm_compute. right. by left.
Qed.

(** C1, the claim as it was stated fails: with the explicit file's place
    on another device than the temp area and no file there, resolution
    returns no error although the write did not reach the file (the
    rename failed and was logged), the path list is empty, and the file
    that was created is empty. *)
Lemma explicit_file_left_empty :
  os.Getenv FilePathEnvName explicit_xdev_world = "/etc/app/config.json"
  ∧ os.files explicit_xdev_world !! "/etc/app/config.json" = None
  ∧ fst (getConfigPaths (initial seed explicit_xdev_world)) = Ok tt
  ∧ paths (self (snd (getConfigPaths (initial seed explicit_xdev_world)))) = []
  ∧ os.files (world (snd (getConfigPaths (initial seed explicit_xdev_world))))
      !! "/etc/app/config.json" = Some (os.Regular "")
  ∧ length (os.logged
              (world (snd (getConfigPaths (initial seed explicit_xdev_world)))))
    = 1.
Proof. vm_compute. repeat split. Qed.

(** C1 as amended, at an explicit file that is not there: it is created
    and holds the record's JSON text. *)
Lemma explicit_file_resolution_witness :
  fst (getConfigPaths (initial seed explicit_world)) = Ok tt
  ∧ os.files (world (snd (getConfigPaths (initial seed explicit_world))))
    = <["/etc/app/config.json" := os.Regular (encoding JSON seed)]>
        (os.files explicit_world).
Proof.
  destruct (explicit_file_resolution seed explicit_world "/etc/app/config.json")
    as (_ & _ & H); [vm_compute; reflexivity|done|].
  assert (os.files explicit_world !! "/etc/app/config.json" = None) as Hnone
    by (vm_compute; reflexivity).
  specialize (H Hnone).
  destruct (createTempFile _ _) as [[f|e] w1] eqn:Htemp;
    [|vm_compute in Htemp; discriminate].
  change (format_of_ext (path.Ext "/etc/app/config.json")) with (Some JSON) in H.
  change (encoding_error JSON seed) with (@None error) in H.
  rewrite bool_decide_eq_false_2 in H by (vm_compute; set_solver).
  exact H.
Defined.

(** C2 at a validation that rejects, followed by a write: [New] returns
    the validation's error and the world is as it was; the target does
    not exist. *)
Lemma options_in_order_witness :
  New seed [WithValidation reject; WithWritingConfigToFile "/etc/app/out.json"]
    fresh_world
  = (Some (errors.New "rejected"), seed, fresh_world)
  ∧ os.files fresh_world !! "/etc/app/out.json" = None.
Proof.
  pose proof (options_in_order_until_first_failure seed fresh_world) as H.
  change (getConfigPaths (initial seed fresh_world))
    with (Ok tt, initial seed fresh_world) in H.
  change (load (initial seed fresh_world))
    with (Ok tt, initial seed fresh_world) in H.
  destruct H as (_ & _ & H).
  destruct (H [] reject [] "/etc/app/out.json" [] (initial seed fresh_world)
              seed (errors.New "rejected")) as [HNew _];
    [constructor|reflexivity|].
  split; [exact HNew|vm_compute; reflexivity].
Defined.

(** C4, the claim as it was stated fails: the hinted directory cannot
    be searched, so probing [config.json] in it fails with an error that
    is not a not-found error; resolution returns no error and goes on as
    if the file were not there, and so does [New]. *)
Lemma probe_error_is_swallowed :
  fst (os.Stat "/etc/app/config.json" locked_world)
  = Fail (errors.PathError "stat" "/etc/app/config.json" errors.EACCES)
  ∧ errors.IsNotExist
      (errors.PathError "stat" "/etc/app/config.json" errors.EACCES) = false
  ∧ getConfigPaths (initial seed locked_world)
    = (Ok tt, mkState (mkConfig [] seed) locked_world)
  ∧ New seed [] locked_world = (None, seed, locked_world).
Proof. vm_compute. repeat split. Qed.

(** C4 as amended, at that probe. *)
Lemma probe_errors_count_as_absent_witness :
  fileExists "/etc/app/config.json" locked_world = (Ok false, locked_world).
Proof.
  apply (probe_errors_count_as_absent (initial seed locked_world)
           "/etc/app/config.json"
           (errors.PathError "stat" "/etc/app/config.json" errors.EACCES)).
  vm_compute. reflexivity.
Defined.

(** C5, the code at a failing input: the program is
    [/opt/app/bin/server] and a [config.toml] lies next to it. The
    candidates the code builds are under the program's own path, where
    nothing can be; the search finds nothing, while the candidates of
    the specification hold the file. *)
Theorem default_search_joins_executable_path :
  os.Executable installed_world = "/opt/app/bin/server"
  ∧ is_regular installed_world "/opt/app/bin/config.toml" = true
  ∧ default_candidates installed_world
    = ["/opt/app/bin/server/config.toml"; "/opt/app/bin/server/config.json";
       "/opt/app/bin/server/config.yml"; "/opt/app/bin/server/config.yaml";
       "config.toml"; "config.json"; "config.yml"; "config.yaml"]
  ∧ getConfigPaths (initial seed installed_world)
    = (Ok tt, mkState (mkConfig [] seed) installed_world)
  ∧ filter (λ p, is_regular installed_world p)
      (spec_default_candidates installed_world)
    = ["/opt/app/bin/config.toml"].
Proof. vm_compute. repeat split. Qed.

(** C6, the claim as it was stated fails: a file of an extension
    outside the supported ones that is empty does not abort the load; it
    is skipped and the file after it is decoded. *)
Lemma empty_file_of_unsupported_extension_is_skipped :
  format_of_ext (path.Ext "/etc/app/notes.txt") = None
  ∧ os.files (world skipped_state) !! "/etc/app/notes.txt"
    = Some (os.Regular "")
  ∧ load skipped_state
    = (Ok tt,
       mkState (mkConfig (paths (self skipped_state)) (mkTestConfig "y"))
         (world skipped_state)).
Proof. vm_compute. repeat split. Qed.

(** C6 as amended, at a first file that is not JSON: the load returns the JSON
    decoder's error, named as such, and the YAML file after it is not
    read (the record keeps its value). *)
Lemma load_stops_at_first_error_witness :
  ∃ e, load broken_state = (Fail e, broken_state)
       ∧ errors.Error e = "error while decoding json file: cannot unmarshal".
Proof.
  pose proof (load_stops_at_first_error broken_state []
                ["/etc/app/config.yaml"] "/etc/app/config.json"
                broken_state (os.Regular "not json") eq_refl eq_refl) as H.
  change (format_of_ext (path.Ext "/etc/app/config.json")) with (Some JSON) in H.
  destruct (H ltac:(vm_compute; reflexivity) ltac:(done) ltac:(done)
              (errors.New "cannot unmarshal") ltac:(reflexivity))
    as (e & Hload & Hmsg).
  exists e. split; [exact Hload|exact Hmsg].
Defined.

(** C8 at a directory whose JSON file sets both fields of the README's
    record ([a] to x, [b] to 7) and whose YAML file sets [a] to y: the
    record [New] leaves has the [b] of the JSON file, which was decoded
    first, and the [a] of the YAML file, which was decoded into what the
    JSON file had left. *)
Lemma directory_search_later_file_wins_witness :
  New {| readme.A := "default"; readme.B := 1 |} [] layered_world
  = (None, {| readme.A := "y"; readme.B := 7 |}, layered_world)
  ∧ load_from ["/etc/app/config.json"]
      (mkState (mkConfig ["/etc/app/config.json"; "/etc/app/config.yaml"]
                  {| readme.A := "default"; readme.B := 1 |}) layered_world)
    = (Ok tt,
       mkState (mkConfig ["/etc/app/config.json"; "/etc/app/config.yaml"]
                  {| readme.A := "x"; readme.B := 7 |}) layered_world).
Proof.
  destruct (directory_search_later_file_wins readme.A) as [_ H].
  destruct (H {| readme.A := "default"; readme.B := 1 |} layered_world
              "/etc/app" json_x_7 yaml_y)
    as (_ & Hfirst & HNew & _);
    [vm_compute; reflexivity | vm_compute; reflexivity | discriminate
    |vm_compute; reflexivity | vm_compute; reflexivity
    |discriminate | discriminate
    |vm_compute; reflexivity | vm_compute; reflexivity
    |vm_compute; reflexivity | vm_compute; reflexivity | ].
  split; [exact HNew|exact Hfirst].
Defined.

(** C9 with no hint and no configuration file. *)
Lemma absent_or_empty_file_changes_nothing_witness :
  New seed [] fresh_world = (None, seed, fresh_world).
Proof.
  destruct (@absent_or_empty_file_changes_nothing testConfig testCodec)
    as [_ H].
  apply H; [vm_compute; reflexivity|vm_compute; reflexivity|].
  intros p Hp. vm_compute in Hp.
  repeat (apply elem_of_cons in Hp as [->|Hp]; [vm_compute; reflexivity|]).
  by apply elem_of_nil in Hp.
Defined.

(** C10 at a path with an unsupported extension and no file. *)
Lemma unsupported_extension_only_for_content_witness :
  processPath "/etc/app/notes.txt" (initial seed fresh_world)
  = (Ok tt, initial seed fresh_world).
Proof.
  destruct (@unsupported_extension_only_for_content testConfig testCodec)
    as [H _].
  apply H. vm_compute. reflexivity.
Defined.

(** C7 at a target on another device: the rename fails, the call
    returns no error, one line is logged and no file is left behind. *)
Lemma write_one_exits_witness :
  fst (writeToFile "/data/out.json" xdev_state) = Ok tt
  ∧ os.files (world (snd (writeToFile "/data/out.json" xdev_state)))
    = os.files (world xdev_state)
  ∧ length (os.logged (world (snd (writeToFile "/data/out.json" xdev_state))))
    = 1.
Proof.
  pose proof (write_one_exits "/data/out.json" xdev_state) as H.
  destruct (createTempFile _ _) as [[f|e] w1] eqn:Htemp;
    [|vm_compute in Htemp; discriminate].
  change (format_of_ext (path.Ext "/data/out.json")) with (Some JSON) in H.
  change (encoding_error JSON (cfg (self xdev_state))) with (@None error) in H.
  change (rename_errno (world xdev_state) "/data/out.json")
    with (Some errors.EXDEV) in H.
  destruct H as (_ & _ & _ & Hr & _ & Hlog & Hfiles).
  split; [exact Hr|]. split; [exact Hfiles|].
  rewrite Hlog. reflexivity.
Defined.

(** C3 at three paths of which the last cannot be encoded: its
    goroutine runs first and fails, the aggregate is an error that holds
    that failure, and the two siblings are written all the same. *)
Lemma sync_all_collects_every_failure_witness :
  (∃ agg, fst (writeToFiles sync_state) = Fail agg
          ∧ errors.Is agg (errors.New "unsupported file extension: .txt"))
  ∧ os.files (world (snd (writeToFiles sync_state))) !! "/etc/app/config.json"
    = Some (os.Regular (encoding JSON seed))
  ∧ os.files (world (snd (writeToFiles sync_state))) !! "/etc/app/config.yaml"
    = Some (os.Regular (encoding YAML seed)).
Proof.
  destruct (sync_all_collects_every_failure sync_state)
    as (_ & _ & _ & _ & Herr & Hdone).
  split; [|split].
  - apply (Herr "/etc/app/notes.txt"). vm_compute. by left.
  - apply Hdone; try (vm_compute; reflexivity).
    + vm_compute. right. by left.
    + vm_compute. set_solver.
  - apply Hdone; try (vm_compute; reflexivity).
    + vm_compute. right. right. by left.
    + vm_compute. set_solver.
Defined.

(** * The further properties at concrete inputs *)

(** Both hints set on a world without hints: the file hint decides. *)
Lemma explicit_hint_overrides_directory_hint_witness :
  let w1 := snd (SetConfigPath "/etc/app/config.json"
                   (snd (SetConfigDir "/etc/app" fresh_world))) in
  getConfigPaths (mkState (mkConfig [] seed) w1)
  = setConfigPathForOneFile "/etc/app/config.json"
      (mkState (mkConfig [] seed) w1).
Proof.
  apply (explicit_hint_overrides_directory_hint (mkConfig [] seed) fresh_world
           "/etc/app" "/etc/app/config.json");
    [discriminate|reflexivity|reflexivity].
Defined.

(** The directory of [directory_world], hinted with and without a slash
    at its end. *)
Lemma directory_hint_trailing_slash_witness :
  paths (self (snd (getConfigPaths
                      (mkState (mkConfig [] seed)
                         (snd (SetConfigDir "/etc/app/" directory_world))))))
  = paths (self (snd (getConfigPaths
                        (mkState (mkConfig [] seed)
                           (snd (SetConfigDir "/etc/app" directory_world)))))).
Proof.
  apply (directory_hint_trailing_slash (mkConfig [] seed) directory_world
           "/etc/app");
    [discriminate|reflexivity|reflexivity].
Defined.

(** The directory search of [directory_world]. *)
Lemma directory_search_result_shape_witness :
  NoDup (paths (self (snd (getConfigPaths (initial seed directory_world))))).
Proof.
  apply (directory_search_result_shape (mkConfig [] seed) directory_world
           "/etc/app");
    [reflexivity|reflexivity|discriminate].
Defined.

(** The default search of [installed_world]. *)
Lemma default_search_result_shape_witness :
  getConfigPaths (initial seed installed_world)
  = (Ok tt,
     mkState (mkConfig
                (found installed_world
                   [path.Join [os.Executable installed_world; "config.toml"];
                    path.Join [os.Executable installed_world; "config.json"];
                    path.Join [os.Executable installed_world; "config.yml"];
                    path.Join [os.Executable installed_world; "config.yaml"];
                    "config.toml"; "config.json"; "config.yml"; "config.yaml"])
                seed) installed_world).
Proof.
  apply (default_search_result_shape (mkConfig [] seed) installed_world);
    reflexivity.
Defined.

(** With the program's path unknown, the [config.json] of the working
    directory is listed twice. *)
Lemma unknown_executable_lists_files_twice_witness :
  paths (self (snd (getConfigPaths (initial seed unknown_executable_world))))
  = found unknown_executable_world
      ["config.toml"; "config.json"; "config.yml"; "config.yaml"]
    ++ found unknown_executable_world
         ["config.toml"; "config.json"; "config.yml"; "config.yaml"]
  ∧ found unknown_executable_world
      ["config.toml"; "config.json"; "config.yml"; "config.yaml"]
    = ["config.json"].
Proof.
  split; [|vm_compute; reflexivity].
  apply (unknown_executable_lists_files_twice (mkConfig [] seed)
           unknown_executable_world); reflexivity.
Defined.

(** The load of [broken_state] fails on its JSON file. *)
Lemma load_errors_classified_witness :
  let e := errors.wrapError "error while decoding json file: "
             (errors.New "cannot unmarshal") in
  ∃ p, p ∈ paths (self broken_state)
       ∧ (e = errors.PathError "open" p errors.EACCES
            ∧ errors.IsNotExist e = false
          ∨ e = errors.New ("unsupported file extension: " +:+ path.Ext p)
            ∧ format_of_ext (path.Ext p) = None
          ∨ ∃ fmt de,
              format_of_ext (path.Ext p) = Some fmt
              ∧ e = errors.wrapError
                      ("error while decoding " +:+ format_name fmt +:+ " file: ")
                      de
              ∧ errors.Is e de).
Proof.
  intros e.
  apply (load_errors_classified broken_state e broken_state).
  vm_compute. reflexivity.
Defined.

(** [New] on a hinted directory whose JSON file is not JSON: the error
    is the JSON decoder's. *)
Lemma search_modes_never_meet_unsupported_extension_witness :
  let e := errors.wrapError "error while decoding json file: "
             (errors.New "cannot unmarshal") in
  fst (fst (New seed [] broken_directory_world)) = Some e
  ∧ ∃ p fmt,
      p ∈ found broken_directory_world
            (search_candidates broken_directory_world)
      ∧ format_of_ext (path.Ext p) = Some fmt
      ∧ (e = errors.PathError "open" p errors.EACCES
           ∧ errors.IsNotExist e = false
         ∨ ∃ de, e = errors.wrapError
                       ("error while decoding " +:+ format_name fmt +:+ " file: ")
                       de
                 ∧ errors.Is e de).
Proof.
  intros e.
  assert (fst (fst (New seed [] broken_directory_world)) = Some e) as H
    by (vm_compute; reflexivity).
  split; [exact H|].
  apply (search_modes_never_meet_unsupported_extension seed
           broken_directory_world e); [vm_compute; reflexivity|exact H].
Defined.

(** [New] on [directory_world] leaves it as it was. *)
Lemma New_without_options_is_read_only_witness :
  snd (New seed [] directory_world) = directory_world.
Proof.
  apply (New_without_options_is_read_only seed directory_world).
  left. reflexivity.
Defined.

(** The temp file of a write to [/etc/app/config.json]. *)
Lemma temp_file_takes_the_target_format_witness :
  let f := os.mkFile "/tmp/config4021.json" (os.Regular "") in
  os.files fresh_world !! "/tmp/config4021.json" = None
  ∧ os.files (snd (createTempFile "config*.json" fresh_world))
      !! "/tmp/config4021.json" = Some (os.Regular "")
  ∧ getEncoderForFile (path.Ext "/tmp/config4021.json") f
    = Ok (mkEncoder JSON (Some 2) f).
Proof.
  intros f.
  apply (temp_file_takes_the_target_format "/etc/app/config.json" fresh_world
           f (snd (createTempFile "config*.json" fresh_world))).
  vm_compute. reflexivity.
Defined.

(** The JSON file of [sync_state], written and loaded into another
    record. *)
Lemma written_file_loads_back_witness :
  let after := world (snd (writeToFile "/etc/app/config.json" sync_state)) in
  os.files after !! "/etc/app/config.json"
  = Some (os.Regular (encoding JSON seed))
  ∧ load (mkState (mkConfig ["/etc/app/config.json"] (mkTestConfig "other"))
            after)
    = (Ok tt, mkState (mkConfig ["/etc/app/config.json"] seed) after).
Proof.
  apply (written_file_loads_back "/etc/app/config.json" sync_state JSON
           (mkTestConfig "other")).
  - reflexivity.
  - vm_compute. reflexivity.
  - vm_compute. reflexivity.
  - intros f w1 H. vm_compute in H. injection H as <- _. discriminate.
  - discriminate.
  - intros v. vm_compute. reflexivity.
Defined.

(** The explicit file of [explicit_world], created by one run and read
    by the next. *)
Lemma created_file_is_read_by_the_next_run_witness :
  let w1 := snd (New seed [] explicit_world) in
  os.files w1 !! "/etc/app/config.json"
  = Some (os.Regular (encoding JSON seed))
  ∧ New (mkTestConfig "other") [] w1 = (None, seed, w1).
Proof.
  apply (created_file_is_read_by_the_next_run seed (mkTestConfig "other")
           explicit_world "/etc/app/config.json" JSON).
  - reflexivity.
  - discriminate.
  - vm_compute. reflexivity.
  - reflexivity.
  - apply not_elem_of_empty.
  - vm_compute. reflexivity.
  - discriminate.
  - intros v. vm_compute. reflexivity.
Defined.

(** A sync of which two writes fail: the message has their two
    messages, the one of the goroutine that ran first on the first
    line. *)
Lemma sync_error_message_lists_the_failures_witness :
  let agg := errors.joinError
               [errors.joinError
                  [errors.New "unsupported file extension: "];
                errors.New "unsupported file extension: .txt"] in
  fst (writeToFiles two_failures_state) = Fail agg
  ∧ errors.Error agg
    = lines ["unsupported file extension: ";
             "unsupported file extension: .txt"].
Proof.
  intros agg.
  assert (fst (writeToFiles two_failures_state) = Fail agg) as H
    by (vm_compute; reflexivity).
  split; [exact H|].
  destruct (sync_error_message_lists_the_failures two_failures_state agg H)
    as [_ Hmsg].
  rewrite Hmsg. vm_compute. reflexivity.
Defined.

(** The explicit file of [explicit_world] is created and not listed. *)
Lemma created_explicit_file_is_not_listed_witness :
  paths (self (snd (getConfigPaths (initial seed explicit_world)))) = []
  ∧ snd (fst (New seed [] explicit_world)) = seed
  ∧ New seed [WithSyncingConfigToFiles] explicit_world
    = New seed [] explicit_world.
Proof.
  apply (created_explicit_file_is_not_listed seed explicit_world
           "/etc/app/config.json");
    [reflexivity|discriminate|vm_compute; reflexivity].
Defined.

(** [New] with the sync option on [directory_world]: the JSON file and
    the YAML file both hold the record the two files merged to. *)
Lemma synced_files_hold_the_record_witness :
  let w' := snd (New (mkTestConfig "") [WithSyncingConfigToFiles]
                   directory_world) in
  (∃ fmt, format_of_ext (path.Ext "/etc/app/config.json") = Some fmt
          ∧ os.files w' !! "/etc/app/config.json"
            = Some (os.Regular (encoding fmt (mkTestConfig "y"))))
  ∧ (∃ fmt, format_of_ext (path.Ext "/etc/app/config.yaml") = Some fmt
            ∧ os.files w' !! "/etc/app/config.yaml"
              = Some (os.Regular (encoding fmt (mkTestConfig "y")))).
Proof.
  intros w'.
  assert (New (mkTestConfig "") [WithSyncingConfigToFiles] directory_world
          = (None, mkTestConfig "y", w')) as H by (vm_compute; reflexivity).
  split.
  - apply (synced_files_hold_the_record (mkTestConfig "") directory_world
             (mkTestConfig "y") w' "/etc/app/config.json" H).
    + vm_compute. by left.
    + apply not_elem_of_empty.
  - apply (synced_files_hold_the_record (mkTestConfig "") directory_world
             (mkTestConfig "y") w' "/etc/app/config.yaml" H).
    + vm_compute. right. by left.
    + apply not_elem_of_empty.
Defined.

(** A validation that rewrites the record, before and after the write
    of the JSON file of [sync_state]. *)
Lemma option_order_decides_what_is_written_witness :
  let target := "/etc/app/config.json" in
  let first := apply_all [WithValidation checked;
                          WithWritingConfigToFile target] sync_state in
  let last := apply_all [WithWritingConfigToFile target;
                         WithValidation checked] sync_state in
  fst first = Ok tt ∧ fst last = Ok tt
  ∧ cfg (self (snd first)) = mkTestConfig "checked"
  ∧ cfg (self (snd last)) = mkTestConfig "checked"
  ∧ os.files (world (snd first)) !! target
    = Some (os.Regular (encoding JSON (mkTestConfig "checked")))
  ∧ os.files (world (snd last)) !! target
    = Some (os.Regular (encoding JSON seed)).
Proof.
  apply (option_order_decides_what_is_written checked "/etc/app/config.json"
           sync_state (mkTestConfig "checked") JSON).
  - reflexivity.
  - reflexivity.
  - vm_compute. reflexivity.
  - apply not_elem_of_empty.
  - vm_compute. reflexivity.
  - vm_compute. reflexivity.
Defined.

(** After [New] with the sync option on [directory_world], a second
    run reads the merged record from the files the first one wrote. *)
Lemma synced_files_load_back_witness :
  let w' := snd (New (mkTestConfig "") [WithSyncingConfigToFiles]
                   directory_world) in
  paths (self (snd (getConfigPaths (initial (mkTestConfig "other") w'))))
  = paths (self (snd (getConfigPaths
                        (initial (mkTestConfig "") directory_world))))
  ∧ New (mkTestConfig "other") [] w' = (None, mkTestConfig "y", w').
Proof.
  intros w'.
  apply (synced_files_load_back (mkTestConfig "") (mkTestConfig "other")
           (mkTestConfig "y") directory_world w').
  - reflexivity.
  - vm_compute. reflexivity.
  - intros H. vm_compute in H. discriminate.
  - intros p _. apply not_elem_of_empty.
  - intros fmt name u. destruct fmt; (split; [discriminate|]);
      vm_compute; reflexivity.
Defined.

(** The two files of [two_files_state], synced with the goroutines
    completing in the order of the list and in the reverse order. *)
Lemma sync_result_does_not_depend_on_schedule_witness :
  os.files (world (snd (writeToFiles
                          (mkState (self two_files_state)
                             (set_sched [1; 0] (world two_files_state))))))
  = os.files (world (snd (writeToFiles two_files_state))).
Proof.
  apply (sync_result_does_not_depend_on_schedule two_files_state [1; 0]).
  - intros p Hp.
    repeat (apply elem_of_cons in Hp as [->|Hp]; [vm_compute; reflexivity|]).
    by apply elem_of_nil in Hp.
  - vm_compute. reflexivity.
  - vm_compute. reflexivity.
Defined.
